(** * luxfi/config: the plugin package and registry manager

    A shallow embedding of the plugin side of the configuration package:
    - [VMID] (loader.go): the identifier derived from a VM name;
    - [PluginPackageManager] (plugin_manager.go): versioned package store,
      JSON registry, [current/] symlinks, legacy migration;
    - [DefaultPluginManager] (plugins.go / loader.go): the flat plugin
      directory, with the copy-style install with cancellation and the
      link-style install;
    - [ChainManager] (plugin_manager.go) over the chain paths of [Paths]:
      the chain configuration files.

    The operating system is modelled by a finite map from paths to nodes
    together with a fault oracle (every system call may fail) and a clock.
    Go's [error] results are values of [result]; a run-time panic is the
    third outcome [Panic]. *)

From Stdlib Require Import ZArith Ascii String List Lia.
From stdpp Require Import base option list gmap strings.

Local Open Scope Z_scope.

(** ** Bytes and strings *)

(** A Go [byte] is a [Z] in [0, 256); a Go [string] is a Rocq [string]
    (one [ascii] per byte). *)
Definition bytes_of_string (s : string) : list Z :=
  map (fun a => Z.of_nat (nat_of_ascii a)) (list_ascii_of_string s).

(** [make([]byte, n)]: a zero-filled buffer. *)
Definition make (n : nat) : list Z := repeat 0 n.

(** Go's builtin [copy(dst, src)]: overwrites the first
    [min (len dst) (len src)] cells of [dst]; the rest of [src] is dropped
    and the rest of [dst] is kept. *)
Fixpoint copy (dst src : list Z) : list Z :=
  match dst, src with
  | _ :: dst', s :: src' => s :: copy dst' src'
  | _, _ => dst
  end.

(** ** crypto/sha256 (FIPS 180-4) *)

Module SHA256.

Definition w32 (x : Z) : Z := x mod 2 ^ 32.
Definition add32 (x y : Z) : Z := w32 (x + y).
Definition rotr (n x : Z) : Z :=
  Z.lor (Z.shiftr x n) (w32 (Z.shiftl x (32 - n))).
Definition not32 (x : Z) : Z := Z.lxor x 0xffffffff.

Definition Ch (x y z : Z) : Z := Z.lxor (Z.land x y) (Z.land (not32 x) z).
Definition Maj (x y z : Z) : Z :=
  Z.lxor (Z.lxor (Z.land x y) (Z.land x z)) (Z.land y z).
Definition bsig0 (x : Z) : Z := Z.lxor (Z.lxor (rotr 2 x) (rotr 13 x)) (rotr 22 x).
Definition bsig1 (x : Z) : Z := Z.lxor (Z.lxor (rotr 6 x) (rotr 11 x)) (rotr 25 x).
Definition ssig0 (x : Z) : Z := Z.lxor (Z.lxor (rotr 7 x) (rotr 18 x)) (Z.shiftr x 3).
Definition ssig1 (x : Z) : Z := Z.lxor (Z.lxor (rotr 17 x) (rotr 19 x)) (Z.shiftr x 10).

(** The constants are fractional parts of roots of the first primes, on 32
    bits: cube roots of the first 64 primes for the round constants, square
    roots of the first 8 for the initial hash value. *)
Definition is_prime (n : Z) : bool :=
  forallb (fun d => negb (n mod d =? 0))
          (List.filter (fun d => d * d <=? n) (map Z.of_nat (seq 2 20))).

Definition primes : list Z :=
  List.filter is_prime (map Z.of_nat (seq 2 310)).

(** The largest [r] below [2 ^ bits] with [pow r <= n], found bit by bit. *)
Fixpoint iroot (pow : Z -> Z) (n : Z) (bits : nat) (r : Z) : Z :=
  match bits with
  | O => r
  | S b =>
      let c := r + 2 ^ Z.of_nat b in
      if pow c <=? n then iroot pow n b c else iroot pow n b r
  end.

Definition frac_root (pow : Z -> Z) (shift : Z) (p : Z) : Z :=
  w32 (iroot pow (p * 2 ^ shift) 40 0).

Definition K : list Z :=
  Eval vm_compute in map (frac_root (fun x => x * x * x) 96) primes.

Definition H0 : list Z :=
  Eval vm_compute in map (frac_root (fun x => x * x) 64) (take 8 primes).

(** Big-endian encoding of [x] on [n] bytes, and decoding. *)
Fixpoint be_bytes (n : nat) (x : Z) : list Z :=
  match n with
  | O => []
  | S n' => (Z.shiftr x (8 * Z.of_nat n')) mod 256 :: be_bytes n' x
  end.

Definition be_value (bs : list Z) : Z :=
  fold_left (fun acc b => acc * 256 + b) bs 0.

(** Message padding: a [0x80] byte, zeros up to 56 modulo 64, then the
    bit length on 8 bytes. *)
Definition pad (msg : list Z) : list Z :=
  let len := Z.of_nat (length msg) in
  msg ++ [0x80] ++ repeat 0 (Z.to_nat ((55 - len) mod 64)) ++ be_bytes 8 (8 * len).

(** Cut a byte string into groups of [n] bytes. *)
Fixpoint groups (fuel n : nat) (bs : list Z) : list (list Z) :=
  match fuel with
  | O => []
  | S fuel' =>
      match bs with
      | [] => []
      | _ => take n bs :: groups fuel' n (drop n bs)
      end
  end.

Definition words_of_block (blk : list Z) : list Z :=
  map be_value (groups 16 4 blk).

(** The message schedule: 48 more words after the 16 words of the block. *)
Fixpoint schedule (n : nat) (ws : list Z) : list Z :=
  match n with
  | O => ws
  | S n' =>
      let t := length ws in
      let g (k : nat) := nth (t - k) ws 0 in
      schedule n' (ws ++ [add32 (add32 (add32 (ssig1 (g 2%nat)) (g 7%nat))
                                       (ssig0 (g 15%nat))) (g 16%nat)])
  end.

Record regs := Regs { ra : Z; rb : Z; rc : Z; rd : Z; re : Z; rf : Z; rg : Z; rh : Z }.

Definition round (s : regs) (kw : Z * Z) : regs :=
  let t1 := add32 (add32 (add32 (add32 (rh s) (bsig1 (re s)))
                                (Ch (re s) (rf s) (rg s))) (fst kw)) (snd kw) in
  let t2 := add32 (bsig0 (ra s)) (Maj (ra s) (rb s) (rc s)) in
  Regs (add32 t1 t2) (ra s) (rb s) (rc s) (add32 (rd s) t1) (re s) (rf s) (rg s).

Definition regs_of (h : list Z) : regs :=
  let g (k : nat) := nth k h 0 in
  Regs (g 0%nat) (g 1%nat) (g 2%nat) (g 3%nat) (g 4%nat) (g 5%nat) (g 6%nat) (g 7%nat).

Definition list_of (s : regs) : list Z :=
  [ra s; rb s; rc s; rd s; re s; rf s; rg s; rh s].

Definition compress (h : list Z) (blk : list Z) : list Z :=
  let ws := schedule 48 (words_of_block blk) in
  let s := fold_left round (combine K ws) (regs_of h) in
  map (fun p => add32 (fst p) (snd p)) (combine h (list_of s)).

(** [sha256.Sum256]: the 32-byte digest. *)
Definition Sum256 (msg : list Z) : list Z :=
  let p := pad msg in
  let h := fold_left compress (groups (length p) 64 p) H0 in
  concat (map (be_bytes 4) h).

End SHA256.

(** ** btcutil/base58 *)

Module base58.

Definition alphabet : list ascii :=
  list_ascii_of_string "123456789ABCDEFGHJKLMNPQRSTUVWXYZabcdefghijkmnopqrstuvwxyz".

Fixpoint leading_zeros (bs : list Z) : nat :=
  match bs with
  | 0 :: bs' => S (leading_zeros bs')
  | _ => O
  end.

Fixpoint digits (fuel : nat) (x : Z) (acc : list Z) : list Z :=
  match fuel with
  | O => acc
  | S fuel' => if x =? 0 then acc else digits fuel' (x / 58) (x mod 58 :: acc)
  end.

(** [base58.Encode]: the bytes read as one big-endian number written in
    base 58, each leading zero byte written as the digit ['1']. *)
Definition Encode (bs : list Z) : string :=
  let ds := digits (2 * length bs) (SHA256.be_value bs) [] in
  string_of_list_ascii
    (repeat "1"%char (leading_zeros bs)
     ++ map (fun d => nth (Z.to_nat d) alphabet "1"%char) ds).

(** [checksum]: first four bytes of the double SHA-256. *)
Definition checksum (bs : list Z) : list Z :=
  take 4 (SHA256.Sum256 (SHA256.Sum256 bs)).

(** [base58.CheckEncode(input, version)]. *)
Definition CheckEncode (input : list Z) (version : Z) : string :=
  let b := version :: input in
  Encode (b ++ checksum b).

End base58.

(** ** loader.go: VMID *)

(** [VMID(vmName)]: base58check(sha256(pad32(vmName))). *)
Definition VMID (vmName : string) : string :=
  let padded := copy (make 32) (bytes_of_string vmName) in
  let hash := SHA256.Sum256 padded in
  base58.CheckEncode hash 0.

(** The padding as the specification words it: the name's bytes followed by
    zeros, cut at 32 bytes. *)
Definition pad32_spec (vmName : string) : list Z :=
  take 32 (bytes_of_string vmName ++ repeat 0 32%nat).

(** ** Results of Go calls *)

Inductive error :=
| ENOENT | EEXIST | ENOTEMPTY | EISDIR | ENOTDIR | ELOOP | EINVAL | EIO
| EOF
| Canceled                                  (* context.Canceled *)
| SyntaxError                               (* encoding/json *)
| Errorf (msg : string)                     (* fmt.Errorf("msg") *)
| Wrapf (msg : string) (cause : error).     (* fmt.Errorf("msg: %w", cause) *)

Inductive result (A : Type) :=
| Ok (a : A)
| Err (e : error)
| Panic (msg : string).
Arguments Ok {A} a.
Arguments Err {A} e.
Arguments Panic {A} msg.

(** [os.IsNotExist]. *)
Definition IsNotExist (e : error) : bool :=
  match e with ENOENT => true | _ => false end.

(** A computation over a state [S]: the state is threaded through, an error
    or a panic stops the rest of the function body. *)
Definition IO (S A : Type) : Type := S -> result A * S.

Definition ret {S A} (a : A) : IO S A := fun s => (Ok a, s).
Definition fail {S A} (e : error) : IO S A := fun s => (Err e, s).
Definition panic {S A} (msg : string) : IO S A := fun s => (Panic msg, s).

Definition bind {S A B} (m : IO S A) (k : A -> IO S B) : IO S B :=
  fun s =>
    match m s with
    | (Ok a, s') => k a s'
    | (Err e, s') => (Err e, s')
    | (Panic msg, s') => (Panic msg, s')
    end.

Notation "x <- m ;; k" := (bind m (fun x => k))
  (at level 100, m at next level, right associativity).
Notation "m ;;; k" := (bind m (fun _ => k))
  (at level 100, right associativity).

(** [v, err := f(...)] followed by a test of [err]: the error becomes a
    value; a panic still unwinds. *)
Definition catch {S A} (m : IO S A) : IO S (A + error) :=
  fun s =>
    match m s with
    | (Ok a, s') => (Ok (inl a), s')
    | (Err e, s') => (Ok (inr e), s')
    | (Panic msg, s') => (Panic msg, s')
    end.

(** [_ = f(...)]: the error is dropped. *)
Definition ignore {S A} (m : IO S A) : IO S unit :=
  r <- catch m ;; ret tt.

(** [if err != nil { return fmt.Errorf("msg: %w", err) }]. *)
Definition wrap {S A} (msg : string) (m : IO S A) : IO S A :=
  fun s =>
    match m s with
    | (Err e, s') => (Err (Wrapf msg e), s')
    | r => r
    end.

Definition get {S} : IO S S := fun s => (Ok s, s).
Definition put {S} (s : S) : IO S unit := fun _ => (Ok tt, s).

(** ** The file system *)

(** A cleaned absolute path is its list of components.  Components are
    atomic: a separator or a dot segment inside a component is not
    interpreted, and only the last component of a path is followed when it
    is a symbolic link. *)
Definition path : Type := list string.

(** The target of a symbolic link as it was given to [os.Symlink]: an
    absolute path, or a path relative to the directory of the link. *)
Inductive target :=
| Abs (p : path)
| Rel (p : path).

Inductive node :=
| File (data : list Z) (mode : Z)
| Dir
| Symlink (t : target).

(** A fault of the environment: the next system call that would succeed
    fails instead; for a write, [n] bytes reach the file first. *)
Inductive fault :=
| Fine
| Broken (n : nat).

Record World := mkWorld {
  fs : gmap path node;
  faults : list fault;
  clock : nat;
  cwd : path
}.

Definition with_fs (f : gmap path node) (w : World) : World :=
  mkWorld f (faults w) (clock w) (cwd w).

Definition next_fault : IO World fault :=
  fun w =>
    match faults w with
    | [] => (Ok Fine, w)
    | x :: rest => (Ok x, mkWorld (fs w) rest (clock w) (cwd w))
    end.

(** [time.Now()]. *)
Definition Now : IO World nat :=
  fun w => (Ok (clock w), mkWorld (fs w) (faults w) (S (clock w)) (cwd w)).

Definition parent (p : path) : path := take (length p - 1) p.

Definition target_path (link : path) (t : target) : path :=
  match t with
  | Abs p => p
  | Rel p => parent link ++ p
  end.

(** The target of the link at [p], if [p] is a symbolic link. *)
Definition link_at (f : gmap path node) (p : path) : option target :=
  match f !! p with
  | Some (Symlink t) => Some t
  | _ => None
  end.

(** Follow the last component while it is a symbolic link. *)
Fixpoint resolve (fuel : nat) (f : gmap path node) (p : path) : option path :=
  match link_at f p with
  | Some t =>
      match fuel with
      | O => None
      | S fuel' => resolve fuel' f (target_path p t)
      end
  | None => Some p
  end.

Definition maxLinks : nat := 40.

(** A system call: the oracle is consulted once; [run] gives the result of
    the call on a healthy system, [broken] what a fault makes of a call that
    would have succeeded. *)
Definition syscall {A} (run : gmap path node -> result A * gmap path node)
    (broken : nat -> gmap path node -> gmap path node) : IO World A :=
  x <- next_fault ;;
  fun w =>
    match run (fs w), x with
    | (Ok a, f'), Fine => (Ok a, with_fs f' w)
    | (Ok a, _), Broken n => (Err EIO, with_fs (broken n (fs w)) w)
    | (r, f'), _ => (r, with_fs f' w)
    end.

Definition unchanged (n : nat) (f : gmap path node) : gmap path node := f.

(** Permission bits [0755], [0644] and [0777]. *)
Definition perm755 : Z := 493.
Definition perm644 : Z := 420.
Definition perm777 : Z := 511.

Module FileInfo.
Record t := mk { IsDir : bool; Size : Z; Mode : Z }.
End FileInfo.

Definition info_of (nd : node) : FileInfo.t :=
  match nd with
  | File data mode => FileInfo.mk false (Z.of_nat (length data)) mode
  | Dir => FileInfo.mk true 0 perm755
  | Symlink _ => FileInfo.mk false 0 perm777
  end.

(** [os.Lstat]: the entry itself. *)
Definition Lstat (p : path) : IO World FileInfo.t :=
  syscall (fun f =>
    match f !! p with
    | Some nd => (Ok (info_of nd), f)
    | None => (Err ENOENT, f)
    end) unchanged.

(** [os.Stat]: the entry after following links. *)
Definition Stat (p : path) : IO World FileInfo.t :=
  syscall (fun f =>
    match resolve maxLinks f p with
    | None => (Err ELOOP, f)
    | Some q =>
        match f !! q with
        | Some nd => (Ok (info_of nd), f)
        | None => (Err ENOENT, f)
        end
    end) unchanged.

(** [os.ReadFile]. *)
Definition ReadFile (p : path) : IO World (list Z) :=
  syscall (fun f =>
    match resolve maxLinks f p with
    | None => (Err ELOOP, f)
    | Some q =>
        match f !! q with
        | Some (File data _) => (Ok data, f)
        | Some _ => (Err EISDIR, f)
        | None => (Err ENOENT, f)
        end
    end) unchanged.

(** The file that opening [p] for writing with [O_CREATE|O_TRUNC] leaves,
    holding [data]: a new file gets [perm], an old one keeps its mode. *)
Definition store (p : path) (data : list Z) (perm : Z) (f : gmap path node)
    : result unit * gmap path node :=
  match resolve maxLinks f p with
  | None => (Err ELOOP, f)
  | Some q =>
      match f !! q with
      | Some (File _ mode) => (Ok tt, <[q := File data mode]> f)
      | Some _ => (Err EISDIR, f)
      | None => (Ok tt, <[q := File data perm]> f)
      end
  end.

(** [os.WriteFile]; a write that breaks leaves the bytes written so far. *)
Definition WriteFile (p : path) (data : list Z) (perm : Z) : IO World unit :=
  syscall (store p data perm)
          (fun n f => snd (store p (take n data) perm f)).

(** [os.Chmod]. *)
Definition Chmod (p : path) (mode : Z) : IO World unit :=
  syscall (fun f =>
    match resolve maxLinks f p with
    | None => (Err ELOOP, f)
    | Some q =>
        match f !! q with
        | Some (File data _) => (Ok tt, <[q := File data mode]> f)
        | Some _ => (Ok tt, f)
        | None => (Err ENOENT, f)
        end
    end) unchanged.

(** The entries strictly below [p]. *)
Definition below (p : path) (f : gmap path node) : gmap path node :=
  filter (fun kv => p ≠ kv.1 ∧ p `prefix_of` kv.1) f.

(** [os.Remove]: a file, a link, or an empty directory. *)
Definition Remove (p : path) : IO World unit :=
  syscall (fun f =>
    match f !! p with
    | None => (Err ENOENT, f)
    | Some Dir =>
        match map_to_list (below p f) with
        | [] => (Ok tt, delete p f)
        | _ => (Err ENOTEMPTY, f)
        end
    | Some _ => (Ok tt, delete p f)
    end) unchanged.

(** [os.RemoveAll]: the entry and everything below it; an absent entry is
    not an error. *)
Definition RemoveAll (p : path) : IO World unit :=
  syscall (fun f => (Ok tt, filter (fun kv => ¬ p `prefix_of` kv.1) f)) unchanged.

(** The non-empty prefixes of a path, shortest first. *)
Definition prefixes (p : path) : list path :=
  map (fun n => take n p) (seq 1 (length p)).

Fixpoint mkdirs (qs : list path) (f : gmap path node)
    : result unit * gmap path node :=
  match qs with
  | [] => (Ok tt, f)
  | q :: qs' =>
      match f !! q with
      | None => mkdirs qs' (<[q := Dir]> f)
      | Some Dir => mkdirs qs' f
      | Some (File _ _) => (Err ENOTDIR, f)
      | Some (Symlink _) =>
          match resolve maxLinks f q with
          | Some q' =>
              match f !! q' with
              | Some Dir => mkdirs qs' f
              | _ => (Err ENOTDIR, f)
              end
          | None => (Err ELOOP, f)
          end
      end
  end.

(** [os.MkdirAll]; a fault leaves the directories made so far, here none. *)
Definition MkdirAll (p : path) : IO World unit :=
  syscall (mkdirs (prefixes p)) unchanged.

(** [os.Symlink(target, p)]. *)
Definition MkSymlink (t : target) (p : path) : IO World unit :=
  syscall (fun f =>
    match f !! p with
    | Some _ => (Err EEXIST, f)
    | None => (Ok tt, <[p := Symlink t]> f)
    end) unchanged.

(** [os.Readlink]. *)
Definition Readlink (p : path) : IO World target :=
  syscall (fun f =>
    match f !! p with
    | Some (Symlink t) => (Ok t, f)
    | Some _ => (Err EINVAL, f)
    | None => (Err ENOENT, f)
    end) unchanged.

(** A directory entry: its name and whether it is a directory. *)
Definition DirEntry : Type := string * bool.

Fixpoint insert_sorted (e : DirEntry) (es : list DirEntry) : list DirEntry :=
  match es with
  | [] => [e]
  | e' :: es' =>
      if String.leb (fst e) (fst e') then e :: es else e' :: insert_sorted e es'
  end.

Definition entry_of (p : path) (kv : path * node) : list DirEntry :=
  match drop (length p) (fst kv) with
  | [name] =>
      if decide (take (length p) (fst kv) = p)
      then [(name, match snd kv with Dir => true | _ => false end)]
      else []
  | _ => []
  end.

(** [os.ReadDir]: the entries of a directory sorted by file name. *)
Definition ReadDir (p : path) : IO World (list DirEntry) :=
  syscall (fun f =>
    match resolve maxLinks f p with
    | None => (Err ELOOP, f)
    | Some q =>
        match f !! q with
        | Some Dir =>
            (Ok (foldr insert_sorted [] (flat_map (entry_of q) (map_to_list f))), f)
        | Some _ => (Err ENOTDIR, f)
        | None => (Err ENOENT, f)
        end
    end) unchanged.

(** [filepath.Join(base, elems...)] on a cleaned absolute [base]: empty
    elements are dropped. *)
Definition Join (base : path) (elems : list string) : path :=
  base ++ filter (fun s => s ≠ ""%string) elems.

(** A path as the program holds it, absolute or relative to the working
    directory, made absolute ([filepath.Abs]). *)
Definition absolute (w : World) (t : target) : path :=
  match t with
  | Abs p => p
  | Rel p => cwd w ++ p
  end.

(** [filepath.Base]. *)
Definition Base (t : target) : string :=
  match t with
  | Abs p => List.last p "/"%string
  | Rel p => List.last p "."%string
  end.

(** *** Open files

    An open file is the entry it was opened on.  Reads take bytes at an
    offset kept by the caller; writes append. *)

(** [os.Open]. *)
Definition Open (p : path) : IO World path :=
  syscall (fun f =>
    match resolve maxLinks f p with
    | None => (Err ELOOP, f)
    | Some q =>
        match f !! q with
        | Some _ => (Ok q, f)
        | None => (Err ENOENT, f)
        end
    end) unchanged.

(** [os.OpenFile(p, O_WRONLY|O_CREATE|O_TRUNC, perm)]. *)
Definition OpenFile (p : path) (perm : Z) : IO World path :=
  syscall (fun f =>
    match store p [] perm f, resolve maxLinks f p with
    | (Ok _, f'), Some q => (Ok q, f')
    | (Err e, _), _ => (Err e, f)
    | _, _ => (Err ELOOP, f)
    end) unchanged.

(** [file.Read(buf)] with [len(buf) = n] at offset [off]: some bytes, or
    [io.EOF] with none. *)
Definition Read (h : path) (off n : nat) : IO World (list Z) :=
  syscall (fun f =>
    match f !! h with
    | Some (File data _) =>
        match take n (drop off data) with
        | [] => (Err EOF, f)
        | chunk => (Ok chunk, f)
        end
    | Some _ => (Err EISDIR, f)
    | None => (Err EIO, f)
    end) unchanged.

Definition append (h : path) (buf : list Z) (f : gmap path node)
    : result unit * gmap path node :=
  match f !! h with
  | Some (File data mode) => (Ok tt, <[h := File (data ++ buf) mode]> f)
  | Some _ => (Err EISDIR, f)
  | None => (Err EIO, f)
  end.

(** [file.Write(buf)]. *)
Definition Write (h : path) (buf : list Z) : IO World unit :=
  syscall (append h buf) (fun n f => snd (append h (take n buf) f)).

(** ** context.Context

    Cancellation is seen only where the program polls [ctx.Done()]:
    [Some k] is a context cancelled after [k] more polls, [None] one that is
    never cancelled. *)
Definition Context : Type := option nat.

Definition Done (ctx : Context) : bool * Context :=
  match ctx with
  | None => (false, None)
  | Some O => (true, Some O)
  | Some (S k) => (false, Some k)
  end.

(** ** plugin_manager.go: data *)

Definition packagesDir : string := "packages".
Definition activeDir : string := "current".
Definition registryFile : string := "registry.json".

Module PluginManifest.
Record t := mk {
  Name : string;
  Org : string;
  Version : string;
  VMID : string;
  VMName : string;
  Aliases : list string;
  Binary : string;
  Description : string;
  Repository : string;
  InstalledAt : nat;
  Size : Z
}.
Definition with_size (sz : Z) (m : t) : t :=
  mk (Name m) (Org m) (Version m) (VMID m) (VMName m) (Aliases m) (Binary m)
     (Description m) (Repository m) (InstalledAt m) sz.
Definition with_installed_at (at_ : nat) (m : t) : t :=
  mk (Name m) (Org m) (Version m) (VMID m) (VMName m) (Aliases m) (Binary m)
     (Description m) (Repository m) at_ (Size m).
End PluginManifest.

Module PluginRegistry.
Record t := mk {
  Plugins : gmap string (list string);
  Active : gmap string string;
  UpdatedAt : nat
}.
Definition with_plugins (ps : gmap string (list string)) (r : t) : t :=
  mk ps (Active r) (UpdatedAt r).
Definition with_active (a : gmap string string) (r : t) : t :=
  mk (Plugins r) a (UpdatedAt r).
Definition with_updated_at (at_ : nat) (r : t) : t :=
  mk (Plugins r) (Active r) at_.
End PluginRegistry.

(** ** encoding/json

    The JSON library is outside the repository: it is a parameter, known
    only to read back the manifest it wrote.  Marshalling one of the two
    records does not fail, so the error branches after [json.MarshalIndent]
    are left out; so are the warnings printed with [fmt.Printf]. *)
Class JSON := {
  MarshalManifest : PluginManifest.t -> list Z;
  UnmarshalManifest : list Z -> option PluginManifest.t;
  MarshalRegistry : PluginRegistry.t -> list Z;
  UnmarshalRegistry : list Z -> option PluginRegistry.t;
  manifest_roundtrip : forall m, UnmarshalManifest (MarshalManifest m) = Some m
}.

(** [PluginPackageManager]: the base directory and the registry it holds in
    memory. *)
Module PluginPackageManager.
Record t := mk {
  baseDir : path;
  registry : PluginRegistry.t
}.
End PluginPackageManager.

(** The state a method runs in: its receiver and the world. *)
Definition PM : Type := PluginPackageManager.t * World.

(** A system call made from a method. *)
Definition os {A} (m : IO World A) : IO PM A :=
  fun s =>
    match m (snd s) with
    | (r, w') => (r, (fst s, w'))
    end.

Definition getBaseDir : IO PM path :=
  fun s => (Ok (PluginPackageManager.baseDir (fst s)), s).

Definition getRegistry : IO PM PluginRegistry.t :=
  fun s => (Ok (PluginPackageManager.registry (fst s)), s).

Definition setRegistry (r : PluginRegistry.t) : IO PM unit :=
  fun s => (Ok tt, (PluginPackageManager.mk (PluginPackageManager.baseDir (fst s)) r, snd s)).

Definition getWorld : IO PM World := fun s => (Ok (snd s), s).

(** ** plugin_manager.go: helper functions *)

Fixpoint contains (slice : list string) (item : string) : bool :=
  match slice with
  | [] => false
  | s :: rest => if decide (s = item) then true else contains rest item
  end.

Fixpoint removeString (slice : list string) (item : string) : list string :=
  match slice with
  | [] => []
  | s :: rest =>
      if decide (s ≠ item) then s :: removeString rest item
      else removeString rest item
  end.

Definition copyFile (src dst : path) : IO World unit :=
  data <- ReadFile src ;;
  WriteFile dst data perm644.

(** [fmt.Sprintf("%s/%s", org, name)] and [fmt.Sprintf("%s/%s@%s", ...)]. *)
Definition pkgKeyOf (org name : string) : string :=
  (org ++ "/" ++ name)%string.
Definition pkgRefOf (org name version : string) : string :=
  (org ++ "/" ++ name ++ "@" ++ version)%string.

(** [s[:n]]: a slice beyond the length of the string is a run-time panic. *)
Definition slice_to {S} (s : string) (n : nat) : IO S string :=
  if (String.length s <? n)%nat
  then panic "slice bounds out of range"
  else ret (String.substring 0 n s).

Section Manager.
Context {J : JSON}.

(** ** plugin_manager.go: PluginPackageManager *)

Definition PackagePath (baseDir : path) (org name version : string) : path :=
  Join baseDir [packagesDir; org; name; version].

Definition ActivePath (baseDir : path) (vmid : string) : path :=
  Join baseDir [activeDir; vmid].

Definition ensureDirectories : IO PM unit :=
  baseDir <- getBaseDir ;;
  wrap "failed to create directory" (os (MkdirAll baseDir)) ;;;
  wrap "failed to create directory" (os (MkdirAll (Join baseDir [packagesDir]))) ;;;
  wrap "failed to create directory" (os (MkdirAll (Join baseDir [activeDir]))).

(** The registry value of [&PluginRegistry{}], and the one made of two
    fresh maps. *)
Definition zeroRegistry : PluginRegistry.t := PluginRegistry.mk ∅ ∅ 0.

Definition loadRegistry : IO PM unit :=
  baseDir <- getBaseDir ;;
  let registryPath := Join baseDir [registryFile] in
  r <- catch (os (ReadFile registryPath)) ;;
  match r with
  | inr err =>
      if IsNotExist err then
        now <- os Now ;;
        setRegistry (PluginRegistry.mk ∅ ∅ now)
      else fail (Wrapf "failed to read registry" err)
  | inl data =>
      setRegistry zeroRegistry ;;;
      match UnmarshalRegistry data with
      | Some reg => setRegistry reg
      | None => fail (Wrapf "failed to parse registry" SyntaxError)
      end
  end.

Definition saveRegistry : IO PM unit :=
  now <- os Now ;;
  reg <- getRegistry ;;
  let reg := PluginRegistry.with_updated_at now reg in
  setRegistry reg ;;;
  let data := MarshalRegistry reg in
  baseDir <- getBaseDir ;;
  let registryPath := Join baseDir [registryFile] in
  wrap "failed to write registry" (os (WriteFile registryPath data perm644)).

(** [NewPluginPackageManager(baseDir)] for a given base directory (the
    default taken from the environment when the argument is empty is not
    part of the model). *)
Definition NewPluginPackageManager (baseDir : path)
    : IO World PluginPackageManager.t :=
  fun w =>
    match (ensureDirectories ;;; loadRegistry)
            (PluginPackageManager.mk baseDir zeroRegistry, w) with
    | (Ok _, (pm, w')) => (Ok pm, w')
    | (Err e, (_, w')) => (Err e, w')
    | (Panic msg, (_, w')) => (Panic msg, w')
    end.

Definition GetManifest (org name version : string) : IO PM PluginManifest.t :=
  baseDir <- getBaseDir ;;
  let manifestPath := Join (PackagePath baseDir org name version) ["manifest.json"%string] in
  data <- wrap "failed to read manifest" (os (ReadFile manifestPath)) ;;
  match UnmarshalManifest data with
  | Some manifest => ret manifest
  | None => fail (Wrapf "failed to parse manifest" SyntaxError)
  end.

Definition Activate (ctx : Context) (org name version : string) : IO PM unit :=
  manifest <- wrap "failed to load manifest" (GetManifest org name version) ;;
  baseDir <- getBaseDir ;;
  let binaryName :=
    if decide (PluginManifest.Binary manifest = ""%string) then name
    else PluginManifest.Binary manifest in
  let binaryPath := Join (PackagePath baseDir org name version) [binaryName] in
  let vmidPath := ActivePath baseDir (PluginManifest.VMID manifest) in
  st <- catch (os (Lstat vmidPath)) ;;
  match st with
  | inl _ => wrap "failed to remove existing symlink" (os (Remove vmidPath))
  | inr _ => ret tt
  end ;;;
  wrap "failed to create VMID symlink" (os (MkSymlink (Abs binaryPath) vmidPath)) ;;;
  reg <- getRegistry ;;
  setRegistry
    (PluginRegistry.with_active
       (<[PluginManifest.VMID manifest := pkgRefOf org name version]>
          (PluginRegistry.Active reg)) reg) ;;;
  saveRegistry.

(** [versions := pm.registry.Plugins[pkgKey]] followed by the guarded
    append. *)
Definition recordVersion (org name version : string) : IO PM unit :=
  reg <- getRegistry ;;
  let pkgKey := pkgKeyOf org name in
  let versions := default [] (PluginRegistry.Plugins reg !! pkgKey) in
  if negb (contains versions version) then
    setRegistry
      (PluginRegistry.with_plugins
         (<[pkgKey := versions ++ [version]]> (PluginRegistry.Plugins reg)) reg)
  else ret tt.

Definition Install (ctx : Context) (manifest : PluginManifest.t)
    (binaryPath : target) : IO PM unit :=
  let org := PluginManifest.Org manifest in
  let name := PluginManifest.Name manifest in
  let version := PluginManifest.Version manifest in
  if decide (org = ""%string ∨ name = ""%string ∨ version = ""%string) then
    fail (Errorf "manifest must have org, name, and version")
  else if decide (PluginManifest.VMID manifest = ""%string) then
    fail (Errorf "manifest must have vmid")
  else
    baseDir <- getBaseDir ;;
    let pkgPath := PackagePath baseDir org name version in
    wrap "failed to create package directory" (os (MkdirAll pkgPath)) ;;;
    let binaryName :=
      if decide (PluginManifest.Binary manifest = ""%string) then name
      else PluginManifest.Binary manifest in
    let destBinaryPath := Join pkgPath [binaryName] in
    w <- getWorld ;;
    wrap "failed to copy binary" (os (copyFile (absolute w binaryPath) destBinaryPath)) ;;;
    wrap "failed to make binary executable" (os (Chmod destBinaryPath perm755)) ;;;
    info <- catch (os (Stat destBinaryPath)) ;;
    let manifest :=
      match info with
      | inl i => PluginManifest.with_size (FileInfo.Size i) manifest
      | inr _ => manifest
      end in
    now <- os Now ;;
    let manifest := PluginManifest.with_installed_at now manifest in
    let manifestPath := Join pkgPath ["manifest.json"%string] in
    let manifestData := MarshalManifest manifest in
    wrap "failed to write manifest" (os (WriteFile manifestPath manifestData perm644)) ;;;
    recordVersion org name version ;;;
    wrap "failed to activate plugin" (Activate ctx org name version) ;;;
    let latestPath := Join baseDir [packagesDir; org; name; "latest"%string] in
    ignore (os (Remove latestPath)) ;;;
    ignore (os (MkSymlink (Rel [version]) latestPath)) ;;;
    saveRegistry.

Definition Link (ctx : Context) (manifest : PluginManifest.t)
    (binaryPath : target) : IO PM unit :=
  let org := PluginManifest.Org manifest in
  let name := PluginManifest.Name manifest in
  let version := PluginManifest.Version manifest in
  if decide (org = ""%string ∨ name = ""%string ∨ version = ""%string) then
    fail (Errorf "manifest must have org, name, and version")
  else if decide (PluginManifest.VMID manifest = ""%string) then
    fail (Errorf "manifest must have vmid")
  else
    w <- getWorld ;;
    let absBinaryPath := absolute w binaryPath in
    info <- wrap "binary not found" (os (Stat absBinaryPath)) ;;
    let manifest := PluginManifest.with_size (FileInfo.Size info) manifest in
    now <- os Now ;;
    let manifest := PluginManifest.with_installed_at now manifest in
    baseDir <- getBaseDir ;;
    let pkgPath := PackagePath baseDir org name version in
    wrap "failed to create package directory" (os (MkdirAll pkgPath)) ;;;
    let binaryName :=
      if decide (PluginManifest.Binary manifest = ""%string) then name
      else PluginManifest.Binary manifest in
    let destBinaryPath := Join pkgPath [binaryName] in
    st <- catch (os (Lstat destBinaryPath)) ;;
    match st with
    | inl _ => wrap "failed to remove existing link" (os (Remove destBinaryPath))
    | inr _ => ret tt
    end ;;;
    wrap "failed to create binary symlink"
         (os (MkSymlink (Abs absBinaryPath) destBinaryPath)) ;;;
    let manifestPath := Join pkgPath ["manifest.json"%string] in
    let manifestData := MarshalManifest manifest in
    wrap "failed to write manifest" (os (WriteFile manifestPath manifestData perm644)) ;;;
    recordVersion org name version ;;;
    let vmidPath := ActivePath baseDir (PluginManifest.VMID manifest) in
    st <- catch (os (Lstat vmidPath)) ;;
    match st with
    | inl _ => wrap "failed to remove existing VMID symlink" (os (Remove vmidPath))
    | inr _ => ret tt
    end ;;;
    wrap "failed to create VMID symlink"
         (os (MkSymlink (Abs absBinaryPath) vmidPath)) ;;;
    reg <- getRegistry ;;
    setRegistry
      (PluginRegistry.with_active
         (<[PluginManifest.VMID manifest := pkgRefOf org name version]>
            (PluginRegistry.Active reg)) reg) ;;;
    let latestPath := Join baseDir [packagesDir; org; name; "latest"%string] in
    ignore (os (Remove latestPath)) ;;;
    ignore (os (MkSymlink (Rel [version]) latestPath)) ;;;
    saveRegistry.

Definition Uninstall (ctx : Context) (org name version : string) : IO PM unit :=
  baseDir <- getBaseDir ;;
  let pkgPath := PackagePath baseDir org name version in
  r <- catch (GetManifest org name version) ;;
  match r with
  | inl manifest =>
      if decide (PluginManifest.VMID manifest ≠ ""%string) then
        let vmidPath := ActivePath baseDir (PluginManifest.VMID manifest) in
        ignore (os (Remove vmidPath)) ;;;
        reg <- getRegistry ;;
        setRegistry
          (PluginRegistry.with_active
             (delete (PluginManifest.VMID manifest) (PluginRegistry.Active reg)) reg)
      else ret tt
  | inr _ => ret tt
  end ;;;
  wrap "failed to remove package" (os (RemoveAll pkgPath)) ;;;
  reg <- getRegistry ;;
  let pkgKey := pkgKeyOf org name in
  let versions := default [] (PluginRegistry.Plugins reg !! pkgKey) in
  let remaining := removeString versions version in
  let plugins :=
    if decide (length remaining = 0%nat)
    then delete pkgKey (PluginRegistry.Plugins reg)
    else <[pkgKey := remaining]> (PluginRegistry.Plugins reg) in
  setRegistry (PluginRegistry.with_plugins plugins reg) ;;;
  saveRegistry.

Fixpoint migrateEntries (ctx : Context) (legacyDir : path)
    (entries : list DirEntry) : IO PM unit :=
  match entries with
  | [] => ret tt
  | entry :: rest =>
      if snd entry then migrateEntries ctx legacyDir rest
      else
        let vmid := fst entry in
        let oldPath := Join legacyDir [vmid] in
        r <- catch (os (Readlink oldPath)) ;;
        match r with
        | inr _ => migrateEntries ctx legacyDir rest
        | inl tgt =>
            short <- slice_to vmid 8 ;;
            let manifest :=
              PluginManifest.mk (short ++ "...")%string "legacy" "v0.0.0" vmid
                ""%string [] (Base tgt) ""%string ""%string 0%nat 0 in
            ignore (Install ctx manifest tgt) ;;;
            migrateEntries ctx legacyDir rest
        end
  end.

Definition MigrateFromLegacy (ctx : Context) (legacyDir : path) : IO PM unit :=
  r <- catch (os (ReadDir legacyDir)) ;;
  match r with
  | inr err => if IsNotExist err then ret tt else fail err
  | inl entries => migrateEntries ctx legacyDir entries
  end.

End Manager.

(** ** plugin_manager.go: listing *)

(** [strings.LastIndex(s, sep)] for a separator of one byte: the index of
    its last occurrence, [-1] when there is none. *)
Fixpoint LastIndex (s : string) (sep : ascii) : Z :=
  match s with
  | EmptyString => -1
  | String c rest =>
      let i := LastIndex rest sep in
      if 0 <=? i then i + 1
      else if Ascii.eqb c sep then 0 else -1
  end.

(** The parts of [s] before and after the first occurrence of [sep]. *)
Fixpoint cut (s : string) (sep : ascii) : option (string * string) :=
  match s with
  | EmptyString => None
  | String c rest =>
      if Ascii.eqb c sep then Some (EmptyString, rest)
      else
        match cut rest sep with
        | Some (before, after) => Some (String c before, after)
        | None => None
        end
  end.

(** [strings.SplitN(s, sep, 2)] for a separator of one byte. *)
Definition SplitN2 (s : string) (sep : ascii) : list string :=
  match cut s sep with
  | Some (before, after) => [before; after]
  | None => [s]
  end.

(** [s[:i]] and [s[i:]] for an index within the string. *)
Definition slice_before (s : string) (i : Z) : string :=
  String.substring 0 (Z.to_nat i) s.
Definition slice_from (s : string) (i : Z) : string :=
  String.substring (Z.to_nat i) (String.length s - Z.to_nat i) s.

(** The parsing of a reference [org/name@version] in [ListActive]: [None]
    where the loop says [continue]. *)
Definition parseRef (pkgRef : string) : option (string * string * string) :=
  let atIdx := LastIndex pkgRef "@" in
  if atIdx =? -1 then None
  else
    let pkgKey := slice_before pkgRef atIdx in
    let version := slice_from pkgRef (atIdx + 1) in
    match SplitN2 pkgKey "/" with
    | [org; name] => Some (org, name, version)
    | _ => None
    end.

Section Listing.
Context {J : JSON}.

Definition GetActiveDir : IO PM path :=
  baseDir <- getBaseDir ;;
  ret (Join baseDir [activeDir]).

(** The loop of [ListActive] over the entries of [current/]. *)
Fixpoint listActiveEntries (entries : list DirEntry)
    (active : gmap string PluginManifest.t) : IO PM (gmap string PluginManifest.t) :=
  match entries with
  | [] => ret active
  | entry :: rest =>
      let vmid := fst entry in
      reg <- getRegistry ;;
      match PluginRegistry.Active reg !! vmid with
      | Some pkgRef =>
          match parseRef pkgRef with
          | None => listActiveEntries rest active
          | Some (org, name, version) =>
              r <- catch (GetManifest org name version) ;;
              match r with
              | inr _ => listActiveEntries rest active
              | inl manifest => listActiveEntries rest (<[vmid := manifest]> active)
              end
          end
      | None => listActiveEntries rest active
      end
  end.

Definition ListActive (ctx : Context) : IO PM (gmap string PluginManifest.t) :=
  baseDir <- getBaseDir ;;
  r <- catch (os (ReadDir (Join baseDir [activeDir]))) ;;
  match r with
  | inr err => if IsNotExist err then ret ∅ else fail err
  | inl entries => listActiveEntries entries ∅
  end.

End Listing.

(** ** plugin_manager.go: listing the packages

    [List] ranges over the map of version lists, in an order that Go does
    not specify: the order is a parameter, a list of the entries of the
    map. *)

Module PackageList.
Section PackageList.
Context {J : JSON}.

(** The inner loop, over the versions of one package. *)
Fixpoint listVersions (org name : string) (versions : list string)
    (manifests : list PluginManifest.t) : IO PM (list PluginManifest.t) :=
  match versions with
  | [] => ret manifests
  | version :: rest =>
      r <- catch (GetManifest org name version) ;;
      match r with
      | inr _ => listVersions org name rest manifests
      | inl manifest => listVersions org name rest (manifests ++ [manifest])
      end
  end.

(** The outer loop, over the packages. *)
Fixpoint listPackages (packages : list (string * list string))
    (manifests : list PluginManifest.t) : IO PM (list PluginManifest.t) :=
  match packages with
  | [] => ret manifests
  | (pkgKey, versions) :: rest =>
      match SplitN2 pkgKey "/" with
      | [org; name] =>
          manifests <- listVersions org name versions manifests ;;
          listPackages rest manifests
      | _ => listPackages rest manifests
      end
  end.

Definition List (order : list (string * list string)) (ctx : Context)
    : IO PM (list PluginManifest.t) :=
  listPackages order [].

End PackageList.
End PackageList.

(** ** File modes

    [FileInfo.Mode] holds the permission bits of an entry.  The type bit
    [os.ModeSymlink] of the mode that [os.Lstat] reports is returned beside
    the file information. *)
Definition LstatLink (p : path) : IO World (FileInfo.t * bool) :=
  syscall (fun f =>
    match f !! p with
    | Some nd =>
        (Ok (info_of nd, match nd with Symlink _ => true | _ => false end), f)
    | None => (Err ENOENT, f)
    end) unchanged.

(** [info.Mode()&0111 == 0]: no execute bit is set. *)
Definition notExecutable (info : FileInfo.t) : bool :=
  Z.land (FileInfo.Mode info) 73 =? 0.

(** A path as a message prints it. *)
Definition path_string (p : path) : string :=
  String.concat "/" (EmptyString :: p).

(** ** plugins.go: DefaultPluginManager *)

Module DefaultPluginManager.

Record t := mk { pluginDir : path }.

Definition GetPath (pm : t) (vmID : string) : path := Join (pluginDir pm) [vmID].

Definition EnsureDir (pm : t) : IO World unit := MkdirAll (pluginDir pm).

Definition bufSize : nat := 32 * 1024.

(** The copy loop of [Install]; [None] when [fuel] iterations were not
    enough to reach the end of the source. *)
Fixpoint copyLoop (fuel : nat) (ctx : Context) (destPath srcFile dstFile : path)
    (off : nat) : IO World (option unit) :=
  match fuel with
  | O => ret None
  | S fuel' =>
      let (cancelled, ctx') := Done ctx in
      if cancelled then
        ignore (Remove destPath) ;;;
        fail Canceled
      else
        r <- catch (Read srcFile off bufSize) ;;
        let buf := match r with inl chunk => chunk | inr _ => [] end in
        (if (0 <? length buf)%nat then
           wr <- catch (Write dstFile buf) ;;
           match wr with
           | inr writeErr =>
               ignore (Remove destPath) ;;;
               fail (Wrapf "failed to write plugin" writeErr)
           | inl _ => ret tt
           end
         else ret tt) ;;;
        match r with
        | inr EOF => ret (Some tt)
        | inr err =>
            ignore (Remove destPath) ;;;
            fail (Wrapf "failed to read source" err)
        | inl _ => copyLoop fuel' ctx' destPath srcFile dstFile (off + length buf)
        end
  end.

(** [Install] with a bound on the iterations of its loop. *)
Definition InstallWithin (fuel : nat) (pm : t) (ctx : Context) (source : path)
    (vmID : string) : IO World (option unit) :=
  wrap "failed to create plugin directory" (EnsureDir pm) ;;;
  let destPath := GetPath pm vmID in
  srcInfo <- wrap "source file not found" (Stat source) ;;
  if FileInfo.IsDir srcInfo then
    fail (Errorf "source is a directory, expected file")
  else
    srcFile <- wrap "failed to open source" (Open source) ;;
    dstFile <- wrap "failed to create plugin file" (OpenFile destPath perm755) ;;
    copyLoop fuel ctx destPath srcFile dstFile 0.

(** The length of the regular file that [source] names. *)
Definition sourceLength (w : World) (source : path) : nat :=
  match resolve maxLinks (fs w) source with
  | Some q =>
      match fs w !! q with
      | Some (File data _) => length data
      | _ => O
      end
  | None => O
  end.

(** [Install]: every iteration of the loop but the last reads at least one
    byte, so one iteration more than the source has bytes reaches the
    end. *)
Definition Install (pm : t) (ctx : Context) (source : path) (vmID : string)
    : IO World (option unit) :=
  fun w => InstallWithin (S (sourceLength w source)) pm ctx source vmID w.

(** *** The rest of the interface (loader.go) *)

Definition GetPluginDir (pm : t) : path := pluginDir pm.

(** [Uninstall]: a path that [os.Stat] reports missing counts as already
    uninstalled. *)
Definition Uninstall (pm : t) (ctx : Context) (vmID : string) : IO World unit :=
  let path := GetPath pm vmID in
  st <- catch (Stat path) ;;
  let missing := match st with inr err => IsNotExist err | inl _ => false end in
  if missing then ret tt
  else wrap "failed to remove plugin" (Remove path).

Definition Exists (pm : t) (vmID : string) : IO World bool :=
  st <- catch (Stat (GetPath pm vmID)) ;;
  match st with
  | inl info => ret (negb (FileInfo.IsDir info))
  | inr _ => ret false
  end.

(** [Link]: the plugin becomes a symbolic link to the binary. *)
Definition Link (pm : t) (vmID : string) (binaryPath : target) : IO World unit :=
  wrap "failed to create plugin directory" (EnsureDir pm) ;;;
  w <- get ;;
  let absPath := absolute w binaryPath in
  info <- wrap "binary not found" (Stat absPath) ;;
  if notExecutable info then
    fail (Errorf ("binary is not executable: " ++ path_string absPath))
  else
    let linkPath := GetPath pm vmID in
    st <- catch (Lstat linkPath) ;;
    match st with
    | inl _ => wrap "failed to remove existing file" (Remove linkPath)
    | inr _ => ret tt
    end ;;;
    wrap "failed to create symlink" (MkSymlink (Abs absPath) linkPath).

Definition LinkByName (pm : t) (vmName : string) (binaryPath : target)
    : IO World unit :=
  let vmID := VMID vmName in
  Link pm vmID binaryPath.

Definition IsSymlink (pm : t) (vmID : string) : IO World bool :=
  let path := GetPath pm vmID in
  st <- catch (LstatLink path) ;;
  match st with
  | inr _ => ret false
  | inl info => ret (snd info)
  end.

Definition GetTarget (pm : t) (vmID : string) : IO World target :=
  let path := GetPath pm vmID in
  link <- IsSymlink pm vmID ;;
  if negb link then
    fail (Errorf ("plugin " ++ vmID ++ " is not a symlink"))
  else Readlink path.

(** [Verify]: the plugin is there, its link leads somewhere, and what is
    there has an execute bit. *)
Definition Verify (pm : t) (vmID : string) : IO World unit :=
  let pluginPath := GetPath pm vmID in
  st <- catch (LstatLink pluginPath) ;;
  match st with
  | inr err =>
      if IsNotExist err then fail (Errorf ("plugin " ++ vmID ++ " not installed"))
      else fail (Wrapf "failed to check plugin" err)
  | inl (info, link) =>
      info <-
        (if link then
           tgt <- wrap "failed to read symlink" (Readlink pluginPath) ;;
           let tgt := target_path pluginPath tgt in
           st <- catch (Stat tgt) ;;
           match st with
           | inr err =>
               if IsNotExist err then
                 fail (Errorf ("plugin symlink target missing: " ++ path_string tgt))
               else fail (Wrapf "failed to check symlink target" err)
           | inl info' => ret info'
           end
         else ret info) ;;
      if notExecutable info then fail (Errorf "plugin is not executable")
      else ret tt
  end.

End DefaultPluginManager.

(** ** Chain configuration paths ([Paths]) *)

Module Paths.

Definition ChainsDir : string := "chains".
Definition GenesisFile : string := "genesis.json".
Definition ConfigFile : string := "config.json".
Definition UpgradeFile : string := "upgrade.json".

Record t := mk { BaseDir : path }.

Definition ChainsBaseDir (p : t) : path := Join (BaseDir p) [ChainsDir].

Definition ChainDir (p : t) (chainName : string) : path :=
  Join (ChainsBaseDir p) [chainName].

Definition ChainGenesis (p : t) (chainName : string) : path :=
  Join (ChainDir p chainName) [GenesisFile].

Definition ChainConfig (p : t) (chainName : string) : path :=
  Join (ChainDir p chainName) [ConfigFile].

Definition ChainUpgrade (p : t) (chainName : string) : path :=
  Join (ChainDir p chainName) [UpgradeFile].

Definition EnsureDir (p : t) (dir : path) : IO World unit := MkdirAll dir.

Definition EnsureChainDir (p : t) (chainName : string) : IO World unit :=
  EnsureDir p (ChainDir p chainName).

(** [Exists(path)]: [os.Stat] gave no error. *)
Definition Exists (p : path) : IO World bool :=
  st <- catch (Stat p) ;;
  ret (match st with inl _ => true | inr _ => false end).

End Paths.

(** ** plugin_manager.go: ChainManager *)

(** [json.RawMessage] is a byte slice; a nil slice and an empty one are
    both the empty list. *)
Module ChainConfig.
Record t := mk {
  Name : string;
  Genesis : list Z;
  Config : list Z;
  Upgrade : list Z
}.
End ChainConfig.

Module ChainManager.

Record t := mk { paths : Paths.t }.

(** The loop of [ListChains] over the entries of the chains directory. *)
Fixpoint listChainEntries (cm : t) (entries : list DirEntry) (chains : list string)
    : IO World (list string) :=
  match entries with
  | [] => ret chains
  | entry :: rest =>
      if snd entry then
        let genesisPath := Paths.ChainGenesis (paths cm) (fst entry) in
        ok <- Paths.Exists genesisPath ;;
        if ok then listChainEntries cm rest (chains ++ [fst entry])
        else listChainEntries cm rest chains
      else listChainEntries cm rest chains
  end.

Definition ListChains (cm : t) : IO World (list string) :=
  let chainsDir := Paths.ChainsBaseDir (paths cm) in
  r <- catch (ReadDir chainsDir) ;;
  match r with
  | inr err => if IsNotExist err then ret [] else fail err
  | inl entries => listChainEntries cm entries []
  end.

Definition ChainExists (cm : t) (chainName : string) : IO World bool :=
  Paths.Exists (Paths.ChainGenesis (paths cm) chainName).

Definition LoadChain (cm : t) (chainName : string) : IO World ChainConfig.t :=
  genesis <- wrap ("failed to read genesis for chain " ++ chainName)
                  (ReadFile (Paths.ChainGenesis (paths cm) chainName)) ;;
  let configPath := Paths.ChainConfig (paths cm) chainName in
  ok <- Paths.Exists configPath ;;
  config <- (if ok then
               wrap ("failed to read config for chain " ++ chainName) (ReadFile configPath)
             else ret []) ;;
  let upgradePath := Paths.ChainUpgrade (paths cm) chainName in
  ok <- Paths.Exists upgradePath ;;
  upgrade <- (if ok then
                wrap ("failed to read upgrade for chain " ++ chainName) (ReadFile upgradePath)
              else ret []) ;;
  ret (ChainConfig.mk chainName genesis config upgrade).

Definition SaveChain (cm : t) (cc : ChainConfig.t) : IO World unit :=
  let name := ChainConfig.Name cc in
  wrap "failed to create chain directory" (Paths.EnsureChainDir (paths cm) name) ;;;
  (if (0 <? length (ChainConfig.Genesis cc))%nat then
     wrap "failed to write genesis"
          (WriteFile (Paths.ChainGenesis (paths cm) name) (ChainConfig.Genesis cc) perm644)
   else ret tt) ;;;
  (if (0 <? length (ChainConfig.Config cc))%nat then
     wrap "failed to write config"
          (WriteFile (Paths.ChainConfig (paths cm) name) (ChainConfig.Config cc) perm644)
   else ret tt) ;;;
  (if (0 <? length (ChainConfig.Upgrade cc))%nat then
     wrap "failed to write upgrade"
          (WriteFile (Paths.ChainUpgrade (paths cm) name) (ChainConfig.Upgrade cc) perm644)
   else ret tt).

Definition LoadGenesis (cm : t) (chainName : string) : IO World (list Z) :=
  ReadFile (Paths.ChainGenesis (paths cm) chainName).

Definition SaveGenesis (cm : t) (chainName : string) (genesis : list Z)
    : IO World unit :=
  Paths.EnsureChainDir (paths cm) chainName ;;;
  WriteFile (Paths.ChainGenesis (paths cm) chainName) genesis perm644.

Definition DeleteChain (cm : t) (chainName : string) : IO World unit :=
  let chainDir := Paths.ChainDir (paths cm) chainName in
  ok <- Paths.Exists chainDir ;;
  if negb ok then ret tt
  else RemoveAll chainDir.

Definition CopyChainConfigsToNode (cm : t) (chainName chainID : string)
    (nodeDir : path) : IO World unit :=
  cc <- LoadChain cm chainName ;;
  let nodeChainDir := Join nodeDir ["configs"; "chains"; chainID]%string in
  MkdirAll nodeChainDir ;;;
  (if (0 <? length (ChainConfig.Config cc))%nat then
     WriteFile (Join nodeChainDir [Paths.ConfigFile]) (ChainConfig.Config cc) perm644
   else ret tt) ;;;
  (if (0 <? length (ChainConfig.Upgrade cc))%nat then
     WriteFile (Join nodeChainDir [Paths.UpgradeFile]) (ChainConfig.Upgrade cc) perm644
   else ret tt).

End ChainManager.

(** ** A reference codec

    One instance of [JSON], used to run the model on concrete stores: a
    document is the bit string of its code as a countable value. *)

Module RefCodec.

Fixpoint pos_bits (p : positive) : list Z :=
  match p with
  | xH => []
  | xO p' => 0 :: pos_bits p'
  | xI p' => 1 :: pos_bits p'
  end.

Fixpoint bits_pos (bs : list Z) : option positive :=
  match bs with
  | [] => Some xH
  | 0 :: rest => xO <$> bits_pos rest
  | 1 :: rest => xI <$> bits_pos rest
  | _ => None
  end.

Definition manifest_tuple (m : PluginManifest.t)
    : list string * list string * (nat * Z) :=
  ([PluginManifest.Name m; PluginManifest.Org m; PluginManifest.Version m;
    PluginManifest.VMID m; PluginManifest.VMName m; PluginManifest.Binary m;
    PluginManifest.Description m; PluginManifest.Repository m],
   PluginManifest.Aliases m,
   (PluginManifest.InstalledAt m, PluginManifest.Size m)).

Definition tuple_manifest (x : list string * list string * (nat * Z))
    : PluginManifest.t :=
  let '(fields, aliases, (installed, size)) := x in
  let g (k : nat) := nth k fields ""%string in
  PluginManifest.mk (g 0%nat) (g 1%nat) (g 2%nat) (g 3%nat) (g 4%nat) aliases
    (g 5%nat) (g 6%nat) (g 7%nat) installed size.

#[local] Instance manifest_eq_dec : EqDecision PluginManifest.t.
Proof. solve_decision. Defined.

#[local] Instance manifest_countable : Countable PluginManifest.t.
Proof.
  apply (inj_countable' manifest_tuple tuple_manifest).
  intros []; reflexivity.
Defined.

Definition registry_tuple (r : PluginRegistry.t) :=
  (PluginRegistry.Plugins r, PluginRegistry.Active r, PluginRegistry.UpdatedAt r).

Definition tuple_registry
    (x : gmap string (list string) * gmap string string * nat) : PluginRegistry.t :=
  let '(a, b, c) := x in PluginRegistry.mk a b c.

#[local] Instance registry_eq_dec : EqDecision PluginRegistry.t.
Proof. solve_decision. Defined.

#[local] Instance registry_countable : Countable PluginRegistry.t.
Proof.
  apply (inj_countable' registry_tuple tuple_registry).
  intros []; reflexivity.
Defined.

Definition marshal {A} `{Countable A} (x : A) : list Z := pos_bits (encode x).
Definition unmarshal {A} `{Countable A} (bs : list Z) : option A :=
  p ← bits_pos bs; decode p.

Lemma bits_pos_bits p : bits_pos (pos_bits p) = Some p.
Proof. induction p as [p IH|p IH|]; simpl; rewrite ?IH; reflexivity. Qed.

Lemma unmarshal_marshal {A} `{Countable A} (x : A) : unmarshal (marshal x) = Some x.
Proof.
  unfold unmarshal, marshal. rewrite bits_pos_bits. simpl. apply decode_encode.
Qed.

Definition json : JSON :=
  {| MarshalManifest := marshal;
     UnmarshalManifest := unmarshal;
     MarshalRegistry := marshal;
     UnmarshalRegistry := unmarshal;
     manifest_roundtrip := unmarshal_marshal |}.

End RefCodec.

(** ** Sequences of operations *)

Inductive Op :=
| OpInstall (ctx : Context) (manifest : PluginManifest.t) (binaryPath : target)
| OpLink (ctx : Context) (manifest : PluginManifest.t) (binaryPath : target)
| OpActivate (ctx : Context) (org name version : string)
| OpUninstall (ctx : Context) (org name version : string).

Definition perform `{JSON} (op : Op) : IO PM unit :=
  match op with
  | OpInstall ctx m p => Install ctx m p
  | OpLink ctx m p => Link ctx m p
  | OpActivate ctx o n v => Activate ctx o n v
  | OpUninstall ctx o n v => Uninstall ctx o n v
  end.

(** The state after a sequence of calls, whatever each call returned. *)
Definition run `{JSON} (ops : list Op) (s : PM) : PM :=
  foldl (fun s op => snd (perform op s)) s ops.

Definition emptyWorld : World := mkWorld ∅ [] 0 [].


(** ** Specifications

    [wp m Φ s]: the call [m] made in state [s] ends in a result and a state
    that satisfy [Φ]. *)
Definition wp {S A} (m : IO S A) (Φ : result A -> S -> Prop) (s : S) : Prop :=
  Φ (fst (m s)) (snd (m s)).

(** A system-level computation that leaves alone the links directly under
    [current/], and that does not fail on a healthy system by a fault. *)
Definition quiet {A} (baseDir : path) (m : IO World A) : Prop :=
  forall w,
    (faults w = [] -> faults (snd (m w)) = []) /\
    (forall vmid, link_at (fs (snd (m w))) (ActivePath baseDir vmid)
                  = link_at (fs w) (ActivePath baseDir vmid)).

(** ** Predicates of the statements *)

(** A byte string in hexadecimal, to compare digests with published ones. *)
Definition hex (bs : list Z) : string :=
  let digit (d : Z) :=
    nth (Z.to_nat d) (list_ascii_of_string "0123456789abcdef") "0"%char in
  string_of_list_ascii (flat_map (fun b => [digit (b / 16); digit (b mod 16)]) bs).

(** The world once the oracle has been consulted. *)
Definition consulted (w : World) : World :=
  mkWorld (fs w) (tail (faults w)) (clock w) (cwd w).

(** What [recordVersion] does to the map of version lists. *)
Definition recorded (key version : string) (ps : gmap string (list string))
    : gmap string (list string) :=
  if contains (default [] (ps !! key)) version then ps
  else <[key := default [] (ps !! key) ++ [version]]> ps.

(** What [Uninstall] does to it. *)
Definition unrecorded (key version : string) (ps : gmap string (list string))
    : gmap string (list string) :=
  let remaining := removeString (default [] (ps !! key)) version in
  if decide (length remaining = 0%nat) then delete key ps
  else <[key := remaining]> ps.

(** The state of the version lists that the operations keep: no version
    twice in a list, and no package with an empty list. *)
Definition versions_ok (ps : gmap string (list string)) : Prop :=
  forall key vs, ps !! key = Some vs -> NoDup vs /\ vs ≠ [].

Definition plugins_of (s : PM) : gmap string (list string) :=
  PluginRegistry.Plugins (PluginPackageManager.registry (fst s)).

(** The part of the stated invariant that the operations keep: an
    identifier is in the active mapping exactly when [current/<identifier>]
    is a symbolic link. *)
Definition links_agree (s : PM) : Prop :=
  forall vmid,
    is_Some (PluginRegistry.Active (PluginPackageManager.registry (fst s)) !! vmid) <->
    is_Some (link_at (fs (snd s)) (ActivePath (PluginPackageManager.baseDir (fst s)) vmid)).

(** No fault is pending. *)
Definition healthy (s : PM) : Prop := faults (snd s) = [].

Definition consistent (s : PM) : Prop := healthy s /\ links_agree s.

Definition keeps_consistent {A} (baseDir : path) : result A -> PM -> Prop :=
  fun _ s => PluginPackageManager.baseDir (fst s) = baseDir /\ consistent s.




(** Whether a byte occurs in a string. *)
Fixpoint occurs (c : ascii) (s : string) : bool :=
  match s with
  | EmptyString => false
  | String a rest => Ascii.eqb a c || occurs c rest
  end.

(** The manifest stored for a version: the document in its
    [manifest.json]. *)
Definition reported_at `{JSON} (pm : PluginPackageManager.t) (f : gmap path node)
    (org name version : string) (manifest : PluginManifest.t) : Prop :=
  exists q data mode,
    resolve maxLinks f
      (Join (PackagePath (PluginPackageManager.baseDir pm) org name version)
            ["manifest.json"%string]) = Some q /\
    f !! q = Some (File data mode) /\
    UnmarshalManifest data = Some manifest.

(** What [ListActive] reports for an identifier: the manifest stored for
    the version that the registry binds to it. *)
Definition reported `{JSON} (pm : PluginPackageManager.t) (f : gmap path node)
    (vmid : string) (manifest : PluginManifest.t) : Prop :=
  exists ref org name version,
    PluginRegistry.Active (PluginPackageManager.registry pm) !! vmid = Some ref /\
    parseRef ref = Some (org, name, version) /\
    reported_at pm f org name version manifest.



(** The bytes of the regular file at a path, none when there is no such
    file. *)
Definition content (f : gmap path node) (p : path) : list Z :=
  match f !! p with
  | Some (File data _) => data
  | _ => []
  end.

(** What a chain file holds after [SaveChain]: the bytes given, or what it
    held before when none are given. *)
Definition kept (f : gmap path node) (p : path) (new : list Z) : list Z :=
  if (0 <? length new)%nat then new else content f p.

(** Whether [os.Stat] finds something at a path. *)
Definition exists_at (f : gmap path node) (p : path) : bool :=
  match resolve maxLinks f p with
  | Some q => match f !! q with Some _ => true | None => false end
  | None => false
  end.

(** A manifest that [List] is to return: the one stored for a version in
    the version list of a package whose key splits into organisation and
    name. *)
Definition listed `{JSON} (pm : PluginPackageManager.t) (f : gmap path node)
    (packages : list (string * list string)) (manifest : PluginManifest.t) : Prop :=
  exists pkgKey versions version org name,
    (pkgKey, versions) ∈ packages /\
    version ∈ versions /\
    SplitN2 pkgKey "/" = [org; name] /\
    reported_at pm f org name version manifest.

(** ** Sample stores

    Concrete worlds and sequences of calls on which the model is run. *)

Definition legacyWorld : World :=
  mkWorld {[ ["old"%string] := Dir;
             ["old"; "abc"]%string := Symlink (Abs ["bin"; "vm"]%string);
             ["bin"; "vm"]%string := File [1; 2; 3] perm755 ]} [] 0 [].

Definition fixtureWorld : World :=
  mkWorld {[ ["src"; "evm"]%string := File [1; 2; 3] perm644 ]} [] 0 [].

Definition fixtureManifest (version vmid : string) : PluginManifest.t :=
  PluginManifest.mk "evm" "luxfi" version vmid "" [] "" "" "" 0 0.

Definition fixtureSource : target := Abs ["src"; "evm"]%string.

(** The manager made by [NewPluginPackageManager] in a world, with the
    world it leaves. *)
Definition fresh `{JSON} (baseDir : path) (w : World) : PM :=
  match NewPluginPackageManager baseDir w with
  | (Ok pm, w') => (pm, w')
  | (_, w') => (PluginPackageManager.mk baseDir zeroRegistry, w')
  end.

(** The manager made in the sample world, in normal form. *)
Definition fixtureStart : PM :=
  Eval vm_compute in @fresh RefCodec.json ["base"%string] fixtureWorld.

Definition fixtureInstalled : PM :=
  Eval vm_compute in
    snd (@Install RefCodec.json None (fixtureManifest "v1" "id") fixtureSource fixtureStart).

Definition fixtureManifestData : list Z :=
  Eval vm_compute in
    match fs (snd fixtureInstalled)
          !! ["base"; "packages"; "luxfi"; "evm"; "v1"; "manifest.json"]%string with
    | Some (File data _) => data
    | _ => []
    end.

Definition fixtureStoredManifest : PluginManifest.t :=
  Eval vm_compute in
    default (fixtureManifest "" "")
            (UnmarshalManifest (JSON := RefCodec.json) fixtureManifestData).



(** Version [v1] installed, then [v2] of the same package under the same
    identifier: the identifier is bound to [v2]. *)
Definition supersededOps : list Op :=
  [ OpInstall None (fixtureManifest "v1" "id") fixtureSource;
    OpInstall None (fixtureManifest "v2" "id") fixtureSource ].

Definition supersededState : PM :=
  Eval vm_compute in @run RefCodec.json supersededOps fixtureStart.

(** The world of the fresh manager where the third system call to come,
    the write of the copied binary, breaks after two bytes. *)
Definition brokenWriteWorld : World :=
  mkWorld (fs (snd fixtureStart)) [Fine; Fine; Broken 2]
          (clock (snd fixtureStart)) (cwd (snd fixtureStart)).

(** A world whose source file, 40000 bytes, is longer than the copy
    buffer. *)
Definition largeSourceWorld : World :=
  mkWorld {[ ["src"; "vm"]%string := File (repeat 7 (Z.to_nat 40000)) perm755 ]} [] 0 [].

(** What [ListActive] returns after the sample install. *)
Definition fixtureListed : gmap string PluginManifest.t :=
  Eval vm_compute in
    match fst (@ListActive RefCodec.json None fixtureInstalled) with
    | Ok m => m
    | _ => ∅
    end.

(** A flat plugin directory with one plugin that is a file and one that is
    a symbolic link to a binary that is gone. *)
Definition flatManager : DefaultPluginManager.t :=
  DefaultPluginManager.mk ["plugins"%string].

Definition flatWorld : World :=
  mkWorld {[ ["plugins"%string] := Dir;
             ["plugins"; "vm"]%string := File [1; 2] perm755;
             ["plugins"; "old"]%string := Symlink (Abs ["src"; "gone"]%string) ]} [] 0 [].

(** A chain store with one configured chain, [zoo], and a directory
    without a genesis. *)
Definition chainManager : ChainManager.t := ChainManager.mk (Paths.mk ["lux"%string]).

Definition chainWorld : World :=
  mkWorld {[ ["lux"; "chains"]%string := Dir;
             ["lux"; "chains"; "zoo"]%string := Dir;
             ["lux"; "chains"; "zoo"; "genesis.json"]%string := File [1] perm644;
             ["lux"; "chains"; "zoo"; "config.json"]%string := File [2; 2] perm644;
             ["lux"; "chains"; "tmp"]%string := Dir ]} [] 0 [].

(** The same store when the next system call fails. *)
Definition chainWorldBroken : World :=
  mkWorld (fs chainWorld) [Broken 0] 0 [].

(** * Properties *)

(** ** The identifier *)

(** The model of the two libraries on their published test vectors. *)
Example sha256_empty :
  hex (SHA256.Sum256 []) =
  "e3b0c44298fc1c149afbf4c8996fb92427ae41e4649b934ca495991b7852b855"%string.
Proof. vm_compute. reflexivity. Qed.

Example sha256_abc :
  hex (SHA256.Sum256 (bytes_of_string "abc")) =
  "ba7816bf8f01cfea414140de5dae2223b00361a396177a9cb410ff61f20015ad"%string.
Proof. vm_compute. reflexivity. Qed.

Example sha256_two_blocks :
  hex (SHA256.Sum256 (bytes_of_string
         "abcdbcdecdefdefgefghfghighijhijkijkljklmklmnlmnomnopnopq")) =
  "248d6a61d20638b8e5c026930c3e6039a33ce45964ff2167f6ecedd419db06c1"%string.
Proof. vm_compute. reflexivity. Qed.

Example base58check_zero_hash :
  base58.CheckEncode (repeat 0 20%nat) 0 = "1111111111111111111114oLvT2"%string.
Proof. vm_compute. reflexivity. Qed.

Example base58check_address :
  base58.CheckEncode
    [0x01; 0x09; 0x66; 0x77; 0x60; 0x06; 0x95; 0x3D; 0x55; 0x67; 0x43; 0x9E;
     0x5E; 0x39; 0xF8; 0x6A; 0x0D; 0x27; 0x3B; 0xEE] 0
  = "16UwLL9Risc3QfPqBUvKofHmBQ7wMtjvM"%string.
Proof. vm_compute. reflexivity. Qed.

Example VMID_Lux_EVM :
  VMID "Lux EVM" = "1w6NFdmhtgbUAZkwwKza7xxWjojJyGA1s7FrNJTgM6H9LrVA11"%string.
Proof. vm_compute. reflexivity. Qed.

Lemma copy_nil (dst : list Z) : copy dst [] = dst.
Proof. destruct dst; reflexivity. Qed.

Lemma copy_zeros (n m : nat) (bs : list Z) :
  (n <= m)%nat -> copy (repeat 0 n) bs = take n (bs ++ repeat 0 m).
Proof.
  revert m bs. induction n as [|n IH]; intros m bs Hle.
  - destruct bs; reflexivity.
  - destruct bs as [|b bs]; simpl.
    + destruct m as [|m]; [lia|]. simpl. f_equal.
      pose proof (IH m [] ltac:(lia)) as H. rewrite copy_nil in H. exact H.
    + f_equal. apply IH. lia.
Qed.

Lemma take_zeros (k n : nat) :
  (k <= n)%nat -> take k (repeat 0 n) = repeat 0 k.
Proof.
  revert n. induction k as [|k IH]; intros [|n] Hle; simpl; try reflexivity; try lia.
  f_equal. apply IH. lia.
Qed.

Lemma padded_spec (vmName : string) :
  copy (make 32) (bytes_of_string vmName) = pad32_spec vmName.
Proof. apply copy_zeros. lia. Qed.

Lemma pad32_length (vmName : string) : length (pad32_spec vmName) = 32%nat.
Proof.
  unfold pad32_spec. rewrite length_take, length_app, repeat_length. lia.
Qed.

(** C1. [VMID] is the checksummed base-58 encoding, version byte 0, of the
    SHA-256 hash of the 32-byte buffer that holds the name's bytes
    left-aligned, zero-padded and cut at 32 bytes; hence two names with the
    same 32-byte buffer have the same identifier. *)
Theorem VMID_algorithm :
  (forall vmName,
     VMID vmName = base58.CheckEncode (SHA256.Sum256 (pad32_spec vmName)) 0
     /\ length (pad32_spec vmName) = 32%nat
     /\ pad32_spec vmName
        = take 32 (bytes_of_string vmName) ++
          repeat 0 (32 - length (bytes_of_string vmName)))
  /\ (forall n1 n2, pad32_spec n1 = pad32_spec n2 -> VMID n1 = VMID n2).
Proof.
  split.
  - intros vmName. split; [|split].
    + unfold VMID. now rewrite padded_spec.
    + apply pad32_length.
    + unfold pad32_spec. rewrite take_app.
      f_equal. apply take_zeros. lia.
  - intros n1 n2 Heq. unfold VMID. now rewrite !padded_spec, Heq.
Qed.

Lemma VMID_algorithm_witness :
  pad32_spec "0123456789abcdef0123456789abcdef-one"
  = pad32_spec "0123456789abcdef0123456789abcdef-two"
  /\ VMID "0123456789abcdef0123456789abcdef-one"
     = VMID "0123456789abcdef0123456789abcdef-two".
Proof.
  split; [reflexivity|].
  apply (proj2 VMID_algorithm). reflexivity.
Defined.

(** ** Rules for [wp] *)

Section Rules.
Context {S : Type}.

Lemma wp_ret {A} (a : A) (Φ : result A -> S -> Prop) s :
  Φ (Ok a) s -> wp (ret a) Φ s.
Proof. exact id. Qed.

Lemma wp_fail {A} e (Φ : result A -> S -> Prop) s :
  Φ (Err e) s -> wp (fail e) Φ s.
Proof. exact id. Qed.

Lemma wp_bind {A B} (m : IO S A) (k : A -> IO S B) (Φ : result B -> S -> Prop) s :
  wp m (fun r s' =>
          match r with
          | Ok a => wp (k a) Φ s'
          | Err e => Φ (Err e) s'
          | Panic msg => Φ (Panic msg) s'
          end) s ->
  wp (bind m k) Φ s.
Proof.
  unfold wp, bind. destruct (m s) as [[a|e|msg] s']; simpl; exact id.
Qed.

Lemma wp_catch {A} (m : IO S A) (Φ : result (A + error) -> S -> Prop) s :
  wp m (fun r s' =>
          match r with
          | Ok a => Φ (Ok (inl a)) s'
          | Err e => Φ (Ok (inr e)) s'
          | Panic msg => Φ (Panic msg) s'
          end) s ->
  wp (catch m) Φ s.
Proof.
  unfold wp, catch. destruct (m s) as [[a|e|msg] s']; simpl; exact id.
Qed.

Lemma wp_ignore {A} (m : IO S A) (Φ : result unit -> S -> Prop) s :
  wp m (fun r s' =>
          match r with
          | Panic msg => Φ (Panic msg) s'
          | _ => Φ (Ok tt) s'
          end) s ->
  wp (ignore m) Φ s.
Proof.
  unfold wp, ignore, bind, catch, ret.
  destruct (m s) as [[a|e|msg] s']; simpl; exact id.
Qed.

Lemma wp_wrap {A} msg (m : IO S A) (Φ : result A -> S -> Prop) s :
  wp m (fun r s' =>
          match r with
          | Err e => Φ (Err (Wrapf msg e)) s'
          | _ => Φ r s'
          end) s ->
  wp (wrap msg m) Φ s.
Proof.
  unfold wp, wrap. destruct (m s) as [[a|e|x] s']; simpl; exact id.
Qed.


End Rules.

Lemma wp_os {A} (m : IO World A) (Φ : result A -> PM -> Prop) (s : PM) :
  wp m (fun r w' => Φ r (fst s, w')) (snd s) -> wp (os m) Φ s.
Proof. unfold wp, os. destruct (m (snd s)); exact id. Qed.

(** ** Validation *)

Section Claims.
Context {J : JSON}.

(** C5. A manifest with an empty organisation, name, version or identifier
    makes [Install] and [Link] return a validation error in the very state
    they were called in: receiver, file system, oracle and clock are the
    same. *)
Theorem validation_precedes_effects ctx (manifest : PluginManifest.t) binaryPath (s : PM) :
  PluginManifest.Org manifest = ""%string \/
  PluginManifest.Name manifest = ""%string \/
  PluginManifest.Version manifest = ""%string \/
  PluginManifest.VMID manifest = ""%string ->
  (exists msg, Install ctx manifest binaryPath s = (Err (Errorf msg), s)) /\
  (exists msg, Link ctx manifest binaryPath s = (Err (Errorf msg), s)).
Proof.
  intros Hempty. unfold Install, Link.
  destruct (decide (PluginManifest.Org manifest = ""%string ∨
                    PluginManifest.Name manifest = ""%string ∨
                    PluginManifest.Version manifest = ""%string)) as [Hm|Hm].
  - split; eexists; reflexivity.
  - destruct (decide (PluginManifest.VMID manifest = ""%string)) as [Hv|Hv].
    + split; eexists; reflexivity.
    + exfalso. destruct Hempty as [H|[H|[H|H]]]; tauto.
Qed.

End Claims.

Lemma validation_precedes_effects_witness :
  let m := PluginManifest.mk "evm" "" "v1.0.0" "id" "" [] "" "" "" 0 0 in
  let s := (PluginPackageManager.mk ["base"%string] zeroRegistry, emptyWorld) in
  PluginManifest.Org m = ""%string /\
  (exists msg, @Install RefCodec.json None m (Abs ["src"%string]) s = (Err (Errorf msg), s)).
Proof.
  split; [reflexivity|].
  apply (@validation_precedes_effects RefCodec.json). left. reflexivity.
Defined.

(** ** System calls *)

Lemma syscall_unfold {A} (run : gmap path node -> result A * gmap path node)
    broken (w : World) :
  syscall run broken w =
    match run (fs w), hd Fine (faults w) with
    | (Ok a, f'), Fine => (Ok a, with_fs f' (consulted w))
    | (Ok a, _), Broken n => (Err EIO, with_fs (broken n (fs w)) (consulted w))
    | (r, f'), _ => (r, with_fs f' (consulted w))
    end.
Proof.
  destruct w as [f [|x rest] c d]; unfold syscall, bind, next_fault, consulted; simpl;
    destruct (run f) as [[a|e|msg] f']; try destruct x; reflexivity.
Qed.

Lemma syscall_healthy {A} (run : gmap path node -> result A * gmap path node)
    broken (w : World) :
  faults w = [] ->
  syscall run broken w = (fst (run (fs w)), with_fs (snd (run (fs w))) w).
Proof.
  intros Hf. rewrite syscall_unfold. destruct w as [f fl c d]; simpl in *; subst.
  unfold consulted, with_fs; simpl. destruct (run f) as [[a|e|msg] f']; reflexivity.
Qed.

Lemma syscall_natural_error {A} (run : gmap path node -> result A * gmap path node)
    broken (w : World) e f' :
  run (fs w) = (Err e, f') ->
  syscall run broken w = (Err e, with_fs f' (consulted w)).
Proof.
  intros Hr. rewrite syscall_unfold, Hr. destruct (hd Fine (faults w)); reflexivity.
Qed.

Lemma syscall_result {A} (run : gmap path node -> result A * gmap path node)
    broken (w : World) a w' :
  syscall run broken w = (Ok a, w') ->
  run (fs w) = (Ok a, fs w') /\ hd Fine (faults w) = Fine /\
  w' = with_fs (fs w') (consulted w).
Proof.
  rewrite syscall_unfold.
  destruct (run (fs w)) as [[a'|e|msg] f']; destruct (hd Fine (faults w));
    intros [= <- <-]; auto.
Qed.

Arguments resolve : simpl never.
Arguments Join : simpl never.

Lemma resolve_not_link fuel f p :
  link_at f p = None -> resolve fuel f p = Some p.
Proof. intros H. destruct fuel; unfold resolve; rewrite H; reflexivity. Qed.

Lemma link_at_absent f p : f !! p = None -> link_at f p = None.
Proof. unfold link_at. now intros ->. Qed.

Lemma link_at_file f p data mode : f !! p = Some (File data mode) -> link_at f p = None.
Proof. unfold link_at. now intros ->. Qed.

Section Loading.
Context {J : JSON}.

(** C7. Loading the registry: when the registry file does not exist the
    manager gets a registry with two empty maps and the call succeeds,
    whatever the oracle says; when the file is there and its bytes do not
    unmarshal, the call returns an error and [NewPluginPackageManager]
    returns no manager. *)
Theorem loadRegistry_total (pm : PluginPackageManager.t) (w : World) :
  let registryPath := Join (PluginPackageManager.baseDir pm) [registryFile] in
  (fs w !! registryPath = None ->
   exists w',
     loadRegistry (pm, w)
     = (Ok tt, (PluginPackageManager.mk (PluginPackageManager.baseDir pm)
                  (PluginRegistry.mk ∅ ∅ (clock w)), w'))
     /\ fs w' = fs w) /\
  (forall data mode,
     fs w !! registryPath = Some (File data mode) ->
     UnmarshalRegistry data = None ->
     exists e s', loadRegistry (pm, w) = (Err e, s') /\ fs (snd s') = fs w).
Proof.
  intros registryPath. split.
  - intros Habs. unfold loadRegistry, bind, getBaseDir, catch, os, ReadFile. simpl.
    fold registryPath.
    erewrite syscall_natural_error.
    2:{ rewrite resolve_not_link by now apply link_at_absent. rewrite Habs. reflexivity. }
    simpl. unfold setRegistry. simpl. eexists. split; reflexivity.
  - intros data mode Hfile Hparse.
    unfold loadRegistry, bind, getBaseDir, catch, os, ReadFile. simpl.
    fold registryPath. rewrite syscall_unfold.
    rewrite resolve_not_link by (eapply link_at_file; exact Hfile).
    rewrite Hfile. destruct (hd Fine (faults w)); simpl.
    + rewrite Hparse. simpl. eexists _, _. split; reflexivity.
    + eexists _, _. split; reflexivity.
Qed.

End Loading.

Lemma loadRegistry_total_witness :
  let pm := PluginPackageManager.mk ["base"%string] zeroRegistry in
  let w := mkWorld {[ ["base"; "registry.json"]%string := File [7] perm644 ]} [] 0 [] in
  fs w !! Join (PluginPackageManager.baseDir pm) [registryFile] = Some (File [7] perm644) /\
  UnmarshalRegistry (JSON := RefCodec.json) [7] = None /\
  (exists e s', @loadRegistry RefCodec.json (pm, w) = (Err e, s') /\ fs (snd s') = fs w) /\
  fs emptyWorld !! Join (PluginPackageManager.baseDir pm) [registryFile] = None /\
  (exists w', @loadRegistry RefCodec.json (pm, emptyWorld)
     = (Ok tt, (PluginPackageManager.mk ["base"%string] (PluginRegistry.mk ∅ ∅ 0), w'))
     /\ fs w' = fs emptyWorld).
Proof.
  split; [reflexivity|]. split; [reflexivity|]. split.
  - apply (proj2 (@loadRegistry_total RefCodec.json
                    (PluginPackageManager.mk ["base"%string] zeroRegistry)
                    (mkWorld {[ ["base"; "registry.json"]%string := File [7] perm644 ]} [] 0 []))
             [7] perm644); reflexivity.
  - split; [reflexivity|].
    apply (proj1 (@loadRegistry_total RefCodec.json
                    (PluginPackageManager.mk ["base"%string] zeroRegistry) emptyWorld)).
    reflexivity.
Defined.

(** ** Legacy migration *)

Section Migration.
Context {J : JSON}.

(** C10. [MigrateFromLegacy] is not total: when the first entry of the
    legacy directory is a symbolic link whose name has fewer than 8 bytes,
    building the manifest slices [vmid[:8]] and the call panics. *)
Theorem MigrateFromLegacy_short_name_panics ctx (pm : PluginPackageManager.t)
    (w : World) (legacyDir : path) (vmid : string) (rest : list DirEntry) (t : target) :
  faults w = [] ->
  fst (ReadDir legacyDir w) = Ok ((vmid, false) :: rest) ->
  link_at (fs w) (Join legacyDir [vmid]) = Some t ->
  (String.length vmid < 8)%nat ->
  fst (MigrateFromLegacy ctx legacyDir (pm, w)) = Panic "slice bounds out of range".
Proof.
  intros Hf Hdir Hlink Hshort.
  unfold MigrateFromLegacy, bind, catch, os. simpl.
  destruct (ReadDir legacyDir w) as [r w1] eqn:Hread. simpl in Hdir. subst r.
  assert (Hw1 : w1 = w).
  { unfold ReadDir in Hread. rewrite syscall_healthy in Hread by exact Hf.
    injection Hread as Hres <-.
    destruct (resolve maxLinks (fs w) legacyDir) as [q|]; [|discriminate].
    destruct (fs w !! q) as [[| |]|]; try discriminate; simpl;
      destruct w; reflexivity. }
  subst w1. simpl.
  unfold bind, catch, os, Readlink. simpl.
  rewrite syscall_healthy by exact Hf.
  unfold link_at in Hlink.
  destruct (fs w !! Join legacyDir [vmid]) as [[| |t']|]; try discriminate.
  simpl. unfold slice_to.
  destruct (String.length vmid <? 8)%nat eqn:Hlt.
  - reflexivity.
  - apply Nat.ltb_ge in Hlt. lia.
Qed.

End Migration.

Lemma MigrateFromLegacy_short_name_panics_witness :
  faults legacyWorld = [] /\
  fst (ReadDir ["old"%string] legacyWorld) = Ok [("abc"%string, false)] /\
  link_at (fs legacyWorld) (Join ["old"%string] ["abc"%string])
  = Some (Abs ["bin"; "vm"]%string) /\
  (String.length "abc" < 8)%nat /\
  fst (@MigrateFromLegacy RefCodec.json None ["old"%string]
         (PluginPackageManager.mk ["base"%string] zeroRegistry, legacyWorld))
  = Panic "slice bounds out of range".
Proof.
  split; [reflexivity|]. split; [vm_compute; reflexivity|].
  split; [vm_compute; reflexivity|]. split; [simpl; lia|].
  apply (@MigrateFromLegacy_short_name_panics RefCodec.json None _ legacyWorld
           ["old"%string] "abc"%string [] (Abs ["bin"; "vm"]%string)).
  - reflexivity.
  - vm_compute; reflexivity.
  - vm_compute; reflexivity.
  - simpl; lia.
Defined.

(** ** The version lists of the registry *)

Lemma wp_os_any {A} (m : IO World A) (Φ : result A -> PM -> Prop) (s : PM) :
  (forall r w', Φ r (fst s, w')) -> wp (os m) Φ s.
Proof. intros H. apply wp_os. unfold wp. apply H. Qed.

Lemma wp_getBaseDir (Φ : result path -> PM -> Prop) (s : PM) :
  Φ (Ok (PluginPackageManager.baseDir (fst s))) s -> wp getBaseDir Φ s.
Proof. exact id. Qed.

Lemma wp_getRegistry (Φ : result PluginRegistry.t -> PM -> Prop) (s : PM) :
  Φ (Ok (PluginPackageManager.registry (fst s))) s -> wp getRegistry Φ s.
Proof. exact id. Qed.

Lemma wp_getWorld (Φ : result World -> PM -> Prop) (s : PM) :
  Φ (Ok (snd s)) s -> wp getWorld Φ s.
Proof. exact id. Qed.

Lemma wp_setRegistry r (Φ : result unit -> PM -> Prop) (s : PM) :
  Φ (Ok tt) (PluginPackageManager.mk (PluginPackageManager.baseDir (fst s)) r, snd s) ->
  wp (setRegistry r) Φ s.
Proof. exact id. Qed.

(** One step of symbolic execution of a method body. *)
Ltac wp_step :=
  lazymatch goal with
  | |- wp (bind _ _) _ _ => apply wp_bind
  | |- wp (wrap _ _) _ _ => apply wp_wrap
  | |- wp (catch _) _ _ => apply wp_catch
  | |- wp (ignore _) _ _ => apply wp_ignore
  | |- wp (ret _) _ _ => apply wp_ret
  | |- wp (fail _) _ _ => apply wp_fail
  | |- wp getBaseDir _ _ => apply wp_getBaseDir
  | |- wp getRegistry _ _ => apply wp_getRegistry
  | |- wp getWorld _ _ => apply wp_getWorld
  | |- wp (setRegistry _) _ _ => apply wp_setRegistry
  | |- wp (if decide ?P then _ else _) _ _ => destruct (decide P)
  | |- wp (if ?b then _ else _) _ _ => destruct b eqn:?
  | |- wp (match ?x with inl _ => _ | inr _ => _ end) _ _ => destruct x
  | |- wp (match ?x with Some _ => _ | None => _ end) _ _ => destruct x eqn:?
  end.

Section Versions.
Context {J : JSON}.
Variable Q : gmap string (list string) -> Prop.

Definition plugins_post {A} : result A -> PM -> Prop :=
  fun _ s => Q (PluginRegistry.Plugins (PluginPackageManager.registry (fst s))).

(** Go through the body of a method when all that matters is the map of
    version lists: system calls do not touch it. *)
Ltac plugins_steps :=
  repeat first
    [ wp_step
    | apply wp_os_any; intros [?|?|?] ?
    | progress cbn [fst snd PluginPackageManager.registry PluginPackageManager.baseDir
                    PluginRegistry.with_active PluginRegistry.with_updated_at
                    PluginRegistry.with_plugins PluginRegistry.Plugins]
    | assumption ].

Lemma saveRegistry_plugins (s : PM) :
  Q (PluginRegistry.Plugins (PluginPackageManager.registry (fst s))) ->
  wp saveRegistry plugins_post s.
Proof.
  intros HQ. destruct s as [pm w]. unfold saveRegistry, plugins_post.
  plugins_steps.
Qed.

Lemma Activate_plugins ctx org name version (s : PM) :
  Q (PluginRegistry.Plugins (PluginPackageManager.registry (fst s))) ->
  wp (Activate ctx org name version) plugins_post s.
Proof.
  intros HQ. destruct s as [pm w].
  unfold Activate, GetManifest, saveRegistry, plugins_post.
  plugins_steps.
Qed.

Lemma recordVersion_plugins org name version (Φ : result unit -> PM -> Prop) (s : PM) :
  Φ (Ok tt)
    (PluginPackageManager.mk (PluginPackageManager.baseDir (fst s))
       (PluginRegistry.with_plugins
          (recorded (pkgKeyOf org name) version
             (PluginRegistry.Plugins (PluginPackageManager.registry (fst s))))
          (PluginPackageManager.registry (fst s))), snd s) ->
  wp (recordVersion org name version) Φ s.
Proof.
  destruct s as [[base [ps ac up]] w]. unfold recordVersion, recorded, wp, bind, getRegistry.
  cbn. destruct (contains (default [] (ps !! pkgKeyOf org name)) version); cbn; exact id.
Qed.

Lemma Install_plugins ctx manifest binaryPath (s : PM) :
  (forall ps, Q ps ->
     Q (recorded (pkgKeyOf (PluginManifest.Org manifest) (PluginManifest.Name manifest))
          (PluginManifest.Version manifest) ps)) ->
  Q (PluginRegistry.Plugins (PluginPackageManager.registry (fst s))) ->
  wp (Install ctx manifest binaryPath) plugins_post s.
Proof.
  intros Hrec HQ. destruct s as [pm w].
  unfold Install, plugins_post.
  do 2 (wp_step; [wp_step; exact HQ|]).
  repeat first
    [ apply recordVersion_plugins
    | wp_step
    | apply wp_os_any; intros [?|?|?] ?
    | progress cbn [fst snd PluginPackageManager.registry PluginPackageManager.baseDir
                    PluginRegistry.with_active PluginRegistry.with_updated_at
                    PluginRegistry.with_plugins PluginRegistry.Plugins]
    | assumption ].
  all: try (apply Hrec; exact HQ).
  all: unfold Activate, GetManifest, saveRegistry; plugins_steps.
  all: try (apply Hrec; exact HQ).
Qed.

Lemma Link_plugins ctx manifest binaryPath (s : PM) :
  (forall ps, Q ps ->
     Q (recorded (pkgKeyOf (PluginManifest.Org manifest) (PluginManifest.Name manifest))
          (PluginManifest.Version manifest) ps)) ->
  Q (PluginRegistry.Plugins (PluginPackageManager.registry (fst s))) ->
  wp (Link ctx manifest binaryPath) plugins_post s.
Proof.
  intros Hrec HQ. destruct s as [pm w].
  unfold Link, plugins_post.
  do 2 (wp_step; [wp_step; exact HQ|]).
  unfold saveRegistry.
  repeat first
    [ apply recordVersion_plugins
    | wp_step
    | apply wp_os_any; intros [?|?|?] ?
    | progress cbn [fst snd PluginPackageManager.registry PluginPackageManager.baseDir
                    PluginRegistry.with_active PluginRegistry.with_updated_at
                    PluginRegistry.with_plugins PluginRegistry.Plugins]
    | assumption ].
  all: try (apply Hrec; exact HQ).
Qed.

Lemma Uninstall_plugins ctx org name version (s : PM) :
  (forall ps, Q ps -> Q (unrecorded (pkgKeyOf org name) version ps)) ->
  Q (PluginRegistry.Plugins (PluginPackageManager.registry (fst s))) ->
  wp (Uninstall ctx org name version) plugins_post s.
Proof.
  intros Hrec HQ. destruct s as [pm w].
  unfold Uninstall, GetManifest, saveRegistry, plugins_post.
  plugins_steps.
  all: try (apply Hrec; exact HQ).
Qed.

End Versions.

Lemma contains_elem_of (l : list string) (x : string) :
  contains l x = true <-> x ∈ l.
Proof.
  induction l as [|y l IH]; simpl.
  - split; [discriminate|]. intros H. inversion H.
  - destruct (decide (y = x)) as [->|Hne].
    + split; [intros _; left|reflexivity].
    + rewrite IH. split; [now right|].
      intros H. inversion H; subst; [contradiction|assumption].
Qed.

Lemma removeString_elem_of (l : list string) (x y : string) :
  y ∈ removeString l x <-> y ∈ l /\ y ≠ x.
Proof.
  induction l as [|z l IH]; simpl.
  - split; [intros H; inversion H|intros [H _]; inversion H].
  - destruct (decide (z ≠ x)) as [Hne|Heq].
    + rewrite elem_of_cons, IH, elem_of_cons. split.
      * intros [->|[H1 H2]]; auto.
      * intros [[->|H1] H2]; auto.
    + apply dec_stable in Heq. subst z. rewrite IH, elem_of_cons. split.
      * intros [H1 H2]; auto.
      * intros [[->|H1] H2]; [contradiction|auto].
Qed.

Lemma removeString_NoDup (l : list string) (x : string) :
  NoDup l -> NoDup (removeString l x).
Proof.
  induction 1 as [|z l Hnot Hnd IH]; simpl; [constructor|].
  destruct (decide (z ≠ x)); [|assumption].
  constructor; [|assumption].
  rewrite removeString_elem_of. tauto.
Qed.

Lemma recorded_ok key version ps : versions_ok ps -> versions_ok (recorded key version ps).
Proof.
  intros Hok. unfold recorded.
  destruct (contains (default [] (ps !! key)) version) eqn:Hc; [assumption|].
  intros k vs. rewrite lookup_insert. destruct (decide (key = k)) as [->|Hne].
  - intros [= <-]. split.
    + apply NoDup_app. split; [|split].
      * destruct (ps !! k) as [l|] eqn:Hl; simpl; [apply (Hok k l Hl)|constructor].
      * intros x Hx Hin. apply list_elem_of_singleton in Hin. subst x.
        apply contains_elem_of in Hx. congruence.
      * apply NoDup_singleton.
    + intros Heq. apply app_eq_nil in Heq. destruct Heq as [_ Heq]. discriminate.
  - apply Hok.
Qed.

Lemma unrecorded_ok key version ps : versions_ok ps -> versions_ok (unrecorded key version ps).
Proof.
  intros Hok. unfold unrecorded.
  destruct (decide (length (removeString (default [] (ps !! key)) version) = 0%nat)) as [Hz|Hnz].
  - intros k vs. rewrite lookup_delete. destruct (decide (key = k)); [discriminate|apply Hok].
  - intros k vs. rewrite lookup_insert. destruct (decide (key = k)) as [->|Hne]; [|apply Hok].
    intros [= <-]. split.
    + apply removeString_NoDup.
      destruct (ps !! k) as [l|] eqn:Hl; simpl; [apply (Hok k l Hl)|constructor].
    + intros Heq. rewrite Heq in Hnz. simpl in Hnz. congruence.
Qed.

Lemma removeString_all (l : list string) (x : string) :
  (forall v, v ∈ l -> v = x) -> removeString l x = [].
Proof.
  induction l as [|y l IH]; intros Hall; simpl; [reflexivity|].
  destruct (decide (y ≠ x)) as [Hne|_].
  - exfalso. apply Hne, Hall. left.
  - apply IH. intros v Hv. apply Hall. now right.
Qed.

Lemma recorded_present key version ps :
  version ∈ default [] (ps !! key) -> recorded key version ps = ps.
Proof.
  intros Hin. unfold recorded. apply contains_elem_of in Hin. now rewrite Hin.
Qed.

Section VersionsInvariant.
Context {J : JSON}.

Lemma perform_versions_ok (op : Op) (s : PM) :
  versions_ok (plugins_of s) -> versions_ok (plugins_of (snd (perform op s))).
Proof.
  intros Hok. destruct op as [ctx m p|ctx m p|ctx o n v|ctx o n v]; unfold perform.
  - exact (Install_plugins versions_ok ctx m p s
             (fun ps H => recorded_ok _ _ ps H) Hok).
  - exact (Link_plugins versions_ok ctx m p s
             (fun ps H => recorded_ok _ _ ps H) Hok).
  - exact (Activate_plugins versions_ok ctx o n v s Hok).
  - exact (Uninstall_plugins versions_ok ctx o n v s
             (fun ps H => unrecorded_ok _ _ ps H) Hok).
Qed.

Lemma run_versions_ok (ops : list Op) (s : PM) :
  versions_ok (plugins_of s) -> versions_ok (plugins_of (run ops s)).
Proof.
  revert s. induction ops as [|op ops IH]; intros s Hok; [exact Hok|].
  unfold run. cbn [foldl]. apply IH, perform_versions_ok, Hok.
Qed.

Lemma Uninstall_unrecords ctx org name version (s : PM) :
  wp (Uninstall ctx org name version)
     (fun r s' => r = Ok tt ->
        plugins_of s' = unrecorded (pkgKeyOf org name) version (plugins_of s)) s.
Proof.
  destruct s as [pm w].
  unfold Uninstall, GetManifest, saveRegistry, plugins_of.
  repeat first
    [ wp_step
    | apply wp_os_any; intros [?|?|?] ?
    | progress cbn [fst snd PluginPackageManager.registry PluginPackageManager.baseDir
                    PluginRegistry.with_active PluginRegistry.with_updated_at
                    PluginRegistry.with_plugins PluginRegistry.Plugins]
    | discriminate
    | intros _; reflexivity
    | intros [=] ].
Qed.

(** C6. In every state reached by installs, links, activations and
    uninstalls from a registry whose version lists are duplicate-free and
    non-empty (the empty registry is one), every version list is
    duplicate-free; installing or linking a version that is already in the
    list of its package leaves the map of lists as it is; and an uninstall
    that returns without error and takes the last version of a package
    away deletes the package key. *)
Theorem version_lists_invariant (ops : list Op) (s0 : PM) :
  versions_ok (plugins_of s0) ->
  let s := run ops s0 in
  (forall key vs, plugins_of s !! key = Some vs -> NoDup vs /\ vs ≠ []) /\
  (forall ctx manifest binaryPath,
     PluginManifest.Version manifest
       ∈ default [] (plugins_of s !! pkgKeyOf (PluginManifest.Org manifest)
                                              (PluginManifest.Name manifest)) ->
     plugins_of (snd (Install ctx manifest binaryPath s)) = plugins_of s /\
     plugins_of (snd (Link ctx manifest binaryPath s)) = plugins_of s) /\
  (forall ctx org name version,
     fst (Uninstall ctx org name version s) = Ok tt ->
     (forall v, v ∈ default [] (plugins_of s !! pkgKeyOf org name) -> v = version) ->
     plugins_of (snd (Uninstall ctx org name version s)) !! pkgKeyOf org name = None).
Proof.
  intros Hok s. split; [|split].
  - apply run_versions_ok, Hok.
  - intros ctx m p Hin.
    assert (Hrec : forall ps, ps = plugins_of s ->
              recorded (pkgKeyOf (PluginManifest.Org m) (PluginManifest.Name m))
                       (PluginManifest.Version m) ps = plugins_of s).
    { intros ps ->. now apply recorded_present. }
    split.
    + exact (Install_plugins (fun ps => ps = plugins_of s) ctx m p s Hrec eq_refl).
    + exact (Link_plugins (fun ps => ps = plugins_of s) ctx m p s Hrec eq_refl).
  - intros ctx org name version Hres Hlast.
    pose proof (Uninstall_unrecords ctx org name version s) as Hun.
    unfold wp in Hun. rewrite (Hun Hres).
    unfold unrecorded. rewrite (removeString_all _ _ Hlast).
    destruct (decide (length (@nil string) = 0%nat)) as [_|Hne]; [|now elim Hne].
    apply lookup_delete_eq.
Qed.

End VersionsInvariant.

Lemma versions_ok_empty : versions_ok ∅.
Proof. intros key vs H. rewrite lookup_empty in H. discriminate. Qed.

Lemma version_lists_invariant_witness :
  let s0 := @fresh RefCodec.json ["base"%string] fixtureWorld in
  let s := @run RefCodec.json
             [OpInstall None (fixtureManifest "v1" "id") fixtureSource] s0 in
  versions_ok (plugins_of s0) /\
  plugins_of s !! "luxfi/evm"%string = Some ["v1"%string] /\
  (NoDup ["v1"%string] /\ ["v1"%string] ≠ []) /\
  plugins_of (snd (@Install RefCodec.json None (fixtureManifest "v1" "id") fixtureSource s))
  = plugins_of s /\
  fst (@Uninstall RefCodec.json None "luxfi" "evm" "v1" s) = Ok tt /\
  plugins_of (snd (@Uninstall RefCodec.json None "luxfi" "evm" "v1" s))
    !! pkgKeyOf "luxfi" "evm" = None.
Proof.
  intros s0 s.
  assert (H0 : versions_ok (plugins_of s0)) by exact versions_ok_empty.
  assert (Hs : plugins_of s !! "luxfi/evm"%string = Some ["v1"%string])
    by (vm_compute; reflexivity).
  pose proof (@version_lists_invariant RefCodec.json
                [OpInstall None (fixtureManifest "v1" "id") fixtureSource] s0 H0)
    as [Hnodup [Hsame Hlast]].
  split; [exact H0|]. split; [exact Hs|].
  split; [exact (Hnodup _ _ Hs)|].
  split.
  - apply (Hsame None (fixtureManifest "v1" "id") fixtureSource).
    change (plugins_of (run [OpInstall None (fixtureManifest "v1" "id") fixtureSource] s0))
      with (plugins_of s).
    change (pkgKeyOf (PluginManifest.Org (fixtureManifest "v1" "id"))
                     (PluginManifest.Name (fixtureManifest "v1" "id")))
      with "luxfi/evm"%string.
    rewrite Hs. simpl. left.
  - split; [vm_compute; reflexivity|].
    apply (Hlast None "luxfi"%string "evm"%string "v1"%string).
    + vm_compute; reflexivity.
    + change (pkgKeyOf "luxfi" "evm") with "luxfi/evm"%string.
      change (plugins_of (run [OpInstall None (fixtureManifest "v1" "id") fixtureSource] s0))
        with (plugins_of s).
      rewrite Hs. simpl. intros v Hv. apply list_elem_of_singleton in Hv. exact Hv.
Defined.

(** ** Links and the calls that keep them *)

Lemma link_at_insert_ne f p q nd : p ≠ q -> link_at (<[p := nd]> f) q = link_at f q.
Proof. intros Hne. unfold link_at. now rewrite lookup_insert_ne. Qed.

Lemma link_at_delete_ne f p q : p ≠ q -> link_at (delete p f) q = link_at f q.
Proof. intros Hne. unfold link_at. now rewrite lookup_delete_ne. Qed.

Lemma link_at_insert_link f p t : link_at (<[p := Symlink t]> f) p = Some t.
Proof. unfold link_at. now rewrite lookup_insert_eq. Qed.

(** Putting a file or a directory where there was no link changes no link. *)
Lemma link_at_insert_plain f p nd q :
  link_at f p = None -> (forall t, nd ≠ Symlink t) ->
  link_at (<[p := nd]> f) q = link_at f q.
Proof.
  intros Hp Hnd. destruct (decide (p = q)) as [<-|Hne].
  - rewrite Hp. unfold link_at. rewrite lookup_insert_eq.
    destruct nd; try reflexivity. now elim (Hnd t).
  - now apply link_at_insert_ne.
Qed.

Lemma resolve_ends_plain fuel f p q : resolve fuel f p = Some q -> link_at f q = None.
Proof.
  revert p. induction fuel as [|fuel IH]; intros p; unfold resolve; fold resolve;
    destruct (link_at f p) as [t|] eqn:Hl; try discriminate.
  - intros [= <-]. exact Hl.
  - apply IH.
  - intros [= <-]. exact Hl.
Qed.

Lemma resolve_same_links fuel f f' p :
  (forall x, link_at f' x = link_at f x) -> resolve fuel f' p = resolve fuel f p.
Proof.
  intros Hsame. revert p. induction fuel as [|fuel IH]; intros p;
    unfold resolve; fold resolve; rewrite Hsame; destruct (link_at f p); auto.
Qed.

Lemma store_links p data perm f x :
  link_at (snd (store p data perm f)) x = link_at f x.
Proof.
  unfold store. destruct (resolve maxLinks f p) as [q|] eqn:Hr; [|reflexivity].
  apply resolve_ends_plain in Hr.
  destruct (f !! q) as [[d m| |t]|] eqn:Hq; simpl; try reflexivity;
    apply link_at_insert_plain; auto; discriminate.
Qed.

Lemma append_links h buf f x : link_at (snd (append h buf f)) x = link_at f x.
Proof.
  unfold append. destruct (f !! h) as [[d m| |t]|] eqn:Hq; simpl; try reflexivity.
  apply link_at_insert_plain; [|discriminate]. unfold link_at. now rewrite Hq.
Qed.

Lemma mkdirs_links qs f x : link_at (snd (mkdirs qs f)) x = link_at f x.
Proof.
  revert f. induction qs as [|q qs IH]; intros f; simpl; [reflexivity|].
  destruct (f !! q) as [[d m| |t]|] eqn:Hq; simpl; try reflexivity.
  - apply IH.
  - destruct (resolve maxLinks f q) as [q'|]; [|reflexivity].
    destruct (f !! q') as [[| |]|]; try reflexivity. apply IH.
  - rewrite IH. apply link_at_insert_plain; [|discriminate].
    unfold link_at. now rewrite Hq.
Qed.

Section Quiet.
Variable baseDir : path.

Lemma quiet_syscall {A} (run : gmap path node -> result A * gmap path node) broken :
  (forall f vmid, link_at (snd (run f)) (ActivePath baseDir vmid)
                  = link_at f (ActivePath baseDir vmid)) ->
  (forall n f vmid, link_at (broken n f) (ActivePath baseDir vmid)
                    = link_at f (ActivePath baseDir vmid)) ->
  quiet baseDir (syscall run broken).
Proof.
  intros Hrun Hbroken w. rewrite syscall_unfold. split.
  - intros Hf. destruct (run (fs w)) as [[a|e|msg] f'];
      destruct (hd Fine (faults w)); simpl; now rewrite Hf.
  - intros vmid. specialize (Hrun (fs w) vmid).
    destruct (run (fs w)) as [[a|e|msg] f']; destruct (hd Fine (faults w)); simpl;
      auto.
Qed.

Lemma quiet_ret {A} (a : A) : quiet baseDir (ret a).
Proof. intros w. split; auto. Qed.

Lemma quiet_bind {A B} (m : IO World A) (k : A -> IO World B) :
  quiet baseDir m -> (forall a, quiet baseDir (k a)) -> quiet baseDir (bind m k).
Proof.
  intros Hm Hk w. unfold bind. destruct (Hm w) as [Hf Hl].
  destruct (m w) as [[a|e|msg] w1]; simpl in *; auto.
  destruct (Hk a w1) as [Hf' Hl']. split.
  - auto.
  - intros vmid. now rewrite Hl', Hl.
Qed.

Lemma quiet_Now : quiet baseDir Now.
Proof. intros w. split; auto. Qed.

Lemma quiet_Lstat p : quiet baseDir (Lstat p).
Proof.
  apply quiet_syscall; [|reflexivity]. intros f vmid. destruct (f !! p); reflexivity.
Qed.

Lemma quiet_Stat p : quiet baseDir (Stat p).
Proof.
  apply quiet_syscall; [|reflexivity]. intros f vmid.
  destruct (resolve maxLinks f p) as [q|]; [|reflexivity]. destruct (f !! q); reflexivity.
Qed.

Lemma quiet_ReadFile p : quiet baseDir (ReadFile p).
Proof.
  apply quiet_syscall; [|reflexivity]. intros f vmid.
  destruct (resolve maxLinks f p) as [q|]; [|reflexivity].
  destruct (f !! q) as [[| |]|]; reflexivity.
Qed.

Lemma quiet_WriteFile p data perm : quiet baseDir (WriteFile p data perm).
Proof. apply quiet_syscall; intros; apply store_links. Qed.

Lemma quiet_copyFile src dst : quiet baseDir (copyFile src dst).
Proof. apply quiet_bind; [apply quiet_ReadFile|intros; apply quiet_WriteFile]. Qed.

Lemma quiet_Chmod p mode : quiet baseDir (Chmod p mode).
Proof.
  apply quiet_syscall; [|reflexivity]. intros f vmid.
  destruct (resolve maxLinks f p) as [q|] eqn:Hr; [|reflexivity].
  apply resolve_ends_plain in Hr.
  destruct (f !! q) as [[| |]|]; simpl; try reflexivity.
  apply link_at_insert_plain; [exact Hr|discriminate].
Qed.

Lemma quiet_MkdirAll p : quiet baseDir (MkdirAll p).
Proof. apply quiet_syscall; [|reflexivity]. intros. apply mkdirs_links. Qed.

Lemma quiet_Remove p :
  (forall vmid, p ≠ ActivePath baseDir vmid) -> quiet baseDir (Remove p).
Proof.
  intros Hp. apply quiet_syscall; [|reflexivity]. intros f vmid.
  destruct (f !! p) as [[| |]|]; simpl; try reflexivity;
    try (apply link_at_delete_ne, Hp).
  destruct (map_to_list (below p f)); simpl; [apply link_at_delete_ne, Hp|reflexivity].
Qed.

Lemma quiet_MkSymlink t p :
  (forall vmid, p ≠ ActivePath baseDir vmid) -> quiet baseDir (MkSymlink t p).
Proof.
  intros Hp. apply quiet_syscall; [|reflexivity]. intros f vmid.
  destruct (f !! p); simpl; [reflexivity|]. apply link_at_insert_ne, Hp.
Qed.

Lemma quiet_RemoveAll p :
  (forall vmid, ¬ p `prefix_of` ActivePath baseDir vmid) -> quiet baseDir (RemoveAll p).
Proof.
  intros Hp. apply quiet_syscall; [|reflexivity]. intros f vmid. simpl.
  unfold link_at. rewrite map_lookup_filter.
  destruct (f !! ActivePath baseDir vmid) as [nd|]; simpl; [|reflexivity].
  rewrite option_guard_True; [reflexivity|]. simpl. apply Hp.
Qed.

End Quiet.

(** ** Paths of the store *)

Lemma Join_Join base xs ys : Join (Join base xs) ys = Join base (xs ++ ys).
Proof. unfold Join. now rewrite filter_app, app_assoc. Qed.

Lemma Join_packages base xs :
  Join base (packagesDir :: xs) = base ++ packagesDir :: filter (fun s => s ≠ ""%string) xs.
Proof. unfold Join. now rewrite filter_cons_True by discriminate. Qed.

Lemma ActivePath_eq base vmid :
  ActivePath base vmid = base ++ activeDir :: filter (fun s => s ≠ ""%string) [vmid].
Proof. unfold ActivePath, Join. now rewrite filter_cons_True by discriminate. Qed.

Lemma ActivePath_inj base v1 v2 : ActivePath base v1 = ActivePath base v2 -> v1 = v2.
Proof.
  rewrite !ActivePath_eq. intros H. apply app_inv_head in H. injection H as H.
  destruct (decide (v1 = ""%string)) as [->|H1]; destruct (decide (v2 = ""%string)) as [->|H2];
    try reflexivity.
  - rewrite (filter_cons_True _ v2) in H by exact H2. discriminate.
  - rewrite (filter_cons_True _ v1) in H by exact H1. discriminate.
  - rewrite (filter_cons_True _ v1) in H by exact H1.
    rewrite (filter_cons_True _ v2) in H by exact H2. now injection H.
Qed.

Lemma packages_not_active base xs vmid :
  Join base (packagesDir :: xs) ≠ ActivePath base vmid.
Proof.
  rewrite Join_packages, ActivePath_eq. intros H. apply app_inv_head in H. discriminate.
Qed.

Lemma packages_not_above_active base xs vmid :
  ¬ Join base (packagesDir :: xs) `prefix_of` ActivePath base vmid.
Proof.
  rewrite Join_packages, ActivePath_eq. intros [k H].
  rewrite <- app_assoc in H. apply app_inv_head in H. discriminate.
Qed.



(** Inversion of a call that returned. *)
Lemma bind_inv {S A B} (m : IO S A) (k : A -> IO S B) s r s' :
  bind m k s = (r, s') ->
  (exists a s1, m s = (Ok a, s1) /\ k a s1 = (r, s')) \/
  (exists e, m s = (Err e, s') /\ r = Err e) \/
  (exists msg, m s = (Panic msg, s') /\ r = Panic msg).
Proof.
  unfold bind. destruct (m s) as [[a|e|msg] s1]; intros H.
  - left. eauto.
  - right. left. injection H as <- <-. eauto.
  - right. right. injection H as <- <-. eauto.
Qed.

Lemma bind_ok {S A B} (m : IO S A) (k : A -> IO S B) s b s' :
  bind m k s = (Ok b, s') -> exists a s1, m s = (Ok a, s1) /\ k a s1 = (Ok b, s').
Proof.
  intros H. apply bind_inv in H as [H|[[e [_ H]]|[msg [_ H]]]]; [exact H|discriminate..].
Qed.

Lemma wrap_ok {S A} msg (m : IO S A) s a s' :
  wrap msg m s = (Ok a, s') -> m s = (Ok a, s').
Proof. unfold wrap. destruct (m s) as [[a'|e|x] s1]; intros H; try discriminate; exact H. Qed.

Lemma catch_ok {S A} (m : IO S A) s r s' :
  catch m s = (Ok r, s') ->
  match r with
  | inl a => m s = (Ok a, s')
  | inr e => m s = (Err e, s')
  end.
Proof.
  unfold catch. destruct (m s) as [[a|e|x] s1]; intros H; try discriminate;
    injection H as <- <-; reflexivity.
Qed.


Lemma os_inv {A} (m : IO World A) pm w r s' :
  os m (pm, w) = (r, s') -> exists w', m w = (r, w') /\ s' = (pm, w').
Proof.
  unfold os. simpl. destruct (m w) as [r' w']. intros [= <- <-]. eauto.
Qed.

Lemma ReadFile_ok p w data w' :
  ReadFile p w = (Ok data, w') ->
  fs w' = fs w /\
  exists q mode, resolve maxLinks (fs w) p = Some q /\ fs w !! q = Some (File data mode).
Proof.
  intros H. apply syscall_result in H as [H _].
  destruct (resolve maxLinks (fs w) p) as [q|]; [|discriminate].
  destruct (fs w !! q) as [[d m| |]|] eqn:Hq; try discriminate.
  injection H as -> <-. split; [reflexivity|]. exists q, m. auto.
Qed.

Lemma Lstat_fs p w r w' : Lstat p w = (r, w') -> fs w' = fs w.
Proof.
  unfold Lstat. rewrite syscall_unfold.
  destruct (fs w !! p); destruct (hd Fine (faults w)); intros [= <- <-]; reflexivity.
Qed.

Lemma Remove_ok p w w' : Remove p w = (Ok tt, w') -> fs w' = delete p (fs w).
Proof.
  intros H. apply syscall_result in H as [H _].
  destruct (fs w !! p) as [[| |]|]; try discriminate;
    try (injection H as <-; reflexivity).
  destruct (map_to_list (below p (fs w))); [|discriminate].
  injection H as <-; reflexivity.
Qed.

Lemma MkSymlink_ok t p w w' :
  MkSymlink t p w = (Ok tt, w') ->
  fs w !! p = None /\ fs w' = <[p := Symlink t]> (fs w).
Proof.
  intros H. apply syscall_result in H as [H _].
  destruct (fs w !! p); [discriminate|]. injection H as <-. auto.
Qed.

Lemma WriteFile_ok p data perm w w' :
  WriteFile p data perm w = (Ok tt, w') -> store p data perm (fs w) = (Ok tt, fs w').
Proof. intros H. now apply syscall_result in H as [H _]. Qed.

Section ActivateSpec.
Context {J : JSON}.

(** What a successful [Activate] has done. *)
Lemma Activate_ok ctx org name version pm w s1 :
  Activate ctx org name version (pm, w) = (Ok tt, s1) ->
  let base := PluginPackageManager.baseDir pm in
  let pkgPath := PackagePath base org name version in
  exists data manifest now,
    (exists q mode,
       resolve maxLinks (fs w) (Join pkgPath ["manifest.json"%string]) = Some q /\
       fs w !! q = Some (File data mode)) /\
    UnmarshalManifest data = Some manifest /\
    let binaryName :=
      if decide (PluginManifest.Binary manifest = ""%string) then name
      else PluginManifest.Binary manifest in
    let vmidPath := ActivePath base (PluginManifest.VMID manifest) in
    let reg :=
      PluginRegistry.with_updated_at now
        (PluginRegistry.with_active
           (<[PluginManifest.VMID manifest := pkgRefOf org name version]>
              (PluginRegistry.Active (PluginPackageManager.registry pm)))
           (PluginPackageManager.registry pm)) in
    fst s1 = PluginPackageManager.mk base reg /\
    store (Join base [registryFile]) (MarshalRegistry reg) perm644
          (<[vmidPath := Symlink (Abs (Join pkgPath [binaryName]))]> (fs w))
    = (Ok tt, fs (snd s1)).
Proof.
  intros H base pkgPath. unfold Activate in H.
  apply bind_ok in H as (manifest & s2 & Hget & H).
  apply wrap_ok in Hget. unfold GetManifest in Hget.
  apply bind_ok in Hget as (b & s3 & Hb & Hget). injection Hb as <- <-.
  apply bind_ok in Hget as (data & s3 & Hread & Hget).
  apply wrap_ok, os_inv in Hread as (w3 & Hread & ->).
  apply ReadFile_ok in Hread as (Hfs3 & q & mode & Hres & Hq).
  cbn [fst PluginPackageManager.baseDir] in *. fold base in Hres, Hget, H |- *.
  destruct (UnmarshalManifest data) as [m|] eqn:Hparse; [|discriminate].
  injection Hget as -> <-.
  apply bind_ok in H as (b & s4 & Hb & H). injection Hb as <- <-.
  cbn [fst PluginPackageManager.baseDir] in H. fold base in H.
  apply bind_ok in H as (st & s4 & Hst & H).
  apply catch_ok in Hst.
  apply bind_ok in H as ([] & s5 & Hrm & H).
  assert (Hs5 : exists w5, s5 = (pm, w5) /\
            forall nd, <[ActivePath base (PluginManifest.VMID manifest) := nd]> (fs w5)
                       = <[ActivePath base (PluginManifest.VMID manifest) := nd]> (fs w)).
  { destruct st as [info|err].
    - apply os_inv in Hst as (w4 & Hst & ->). apply Lstat_fs in Hst.
      apply wrap_ok, os_inv in Hrm as (w5 & Hrm & ->).
      apply Remove_ok in Hrm. exists w5. split; [reflexivity|]. intros nd.
      rewrite Hrm, Hst, Hfs3. apply insert_delete_eq.
    - apply os_inv in Hst as (w4 & Hst & ->). apply Lstat_fs in Hst.
      injection Hrm as <-. exists w4. split; [reflexivity|]. intros nd.
      now rewrite Hst, Hfs3. }
  destruct Hs5 as (w5 & -> & Hfs5). clear Hst Hrm.
  apply bind_ok in H as ([] & s6 & Hln & H).
  apply wrap_ok, os_inv in Hln as (w6 & Hln & ->).
  apply MkSymlink_ok in Hln as (Hfree & Hfs6).
  apply bind_ok in H as (reg0 & s7 & Hreg & H). injection Hreg as <- <-.
  apply bind_ok in H as ([] & s7 & Hset & H). injection Hset as <-.
  unfold saveRegistry in H.
  apply bind_ok in H as (now & s8 & Hnow & H).
  apply os_inv in Hnow as (w8 & Hnow & ->). injection Hnow as <- <-.
  apply bind_ok in H as (reg1 & s9 & Hreg & H). injection Hreg as <- <-.
  apply bind_ok in H as ([] & s9 & Hset & H). injection Hset as <-.
  apply bind_ok in H as (b & s10 & Hb & H). injection Hb as <- <-.
  apply wrap_ok, os_inv in H as (w10 & Hwr & ->).
  apply WriteFile_ok in Hwr.
  cbn [fs fst snd PluginPackageManager.baseDir PluginPackageManager.registry] in *.
  exists data, manifest, (clock w6). split; [eauto|]. split; [exact Hparse|].
  cbn zeta. split.
  - reflexivity.
  - rewrite <- Hwr. f_equal. rewrite Hfs6. symmetry. apply Hfs5.
Qed.

End ActivateSpec.

Lemma store_read p data perm f f' :
  store p data perm f = (Ok tt, f') ->
  exists q mode, resolve maxLinks f' p = Some q /\ f' !! q = Some (File data mode).
Proof.
  intros H.
  assert (Hl : forall x, link_at f' x = link_at f x).
  { intros x. rewrite <- (store_links p data perm f x). now rewrite H. }
  rewrite (resolve_same_links _ f f' p Hl).
  unfold store in H. destruct (resolve maxLinks f p) as [q|]; [|discriminate].
  destruct (f !! q) as [[d m| |t]|]; try discriminate; injection H as <-;
    eexists _, _; (split; [reflexivity|apply lookup_insert_eq]).
Qed.


Section InstallSpec.
Context {J : JSON}.



End InstallSpec.


Lemma os_healthy {A} (run : gmap path node -> result A * gmap path node) broken pm w :
  faults w = [] ->
  os (syscall run broken) (pm, w)
  = (fst (run (fs w)), (pm, with_fs (snd (run (fs w))) w)).
Proof. intros Hf. unfold os. cbn [snd fst]. now rewrite syscall_healthy. Qed.


Lemma store_plain_inv p data perm f f' :
  link_at f p = None ->
  store p data perm f = (Ok tt, f') ->
  exists mode, f' = <[p := File data mode]> f /\ f !! p ≠ Some Dir.
Proof.
  intros Hl. unfold store. rewrite resolve_not_link by exact Hl.
  destruct (f !! p) as [[d m| |t]|]; intros [= <-]; eexists; split; eauto; discriminate.
Qed.

Lemma with_fs_same w : with_fs (fs w) w = w.
Proof. destruct w; reflexivity. Qed.

(** Evaluation of a call whose first step is known. *)
Lemma bind_step {S A B} (m : IO S A) (k : A -> IO S B) s a s1 :
  m s = (Ok a, s1) -> bind m k s = k a s1.
Proof. unfold bind. now intros ->. Qed.

Lemma bind_stop {S A B} (m : IO S A) (k : A -> IO S B) s e s1 :
  m s = (Err e, s1) -> bind m k s = (Err e, s1).
Proof. unfold bind. now intros ->. Qed.

Lemma wrap_step {S A} msg (m : IO S A) s a s1 :
  m s = (Ok a, s1) -> wrap msg m s = (Ok a, s1).
Proof. unfold wrap. now intros ->. Qed.

Lemma wrap_stop {S A} msg (m : IO S A) s e s1 :
  m s = (Err e, s1) -> wrap msg m s = (Err (Wrapf msg e), s1).
Proof. unfold wrap. now intros ->. Qed.

Lemma catch_step {S A} (m : IO S A) s a s1 :
  m s = (Ok a, s1) -> catch m s = (Ok (inl a), s1).
Proof. unfold catch. now intros ->. Qed.

Lemma catch_stop {S A} (m : IO S A) s e s1 :
  m s = (Err e, s1) -> catch m s = (Ok (inr e), s1).
Proof. unfold catch. now intros ->. Qed.

Lemma ignore_step {S A} (m : IO S A) s r s1 :
  m s = (r, s1) -> (forall msg, r ≠ Panic msg) -> ignore m s = (Ok tt, s1).
Proof.
  unfold ignore, bind, catch, ret. intros -> Hr.
  destruct r; try reflexivity. now elim (Hr msg).
Qed.

Lemma os_step {A} (m : IO World A) pm w r w' :
  m w = (r, w') -> os m (pm, w) = (r, (pm, w')).
Proof. unfold os. cbn [snd fst]. now intros ->. Qed.

(** System calls on a healthy system. *)
Lemma ReadFile_healthy p w data mode :
  faults w = [] -> fs w !! p = Some (File data mode) -> ReadFile p w = (Ok data, w).
Proof.
  intros Hf Hp. unfold ReadFile. rewrite syscall_healthy by exact Hf.
  rewrite resolve_not_link by (eapply link_at_file; exact Hp).
  rewrite Hp. cbn [fst snd]. now rewrite with_fs_same.
Qed.

Lemma Lstat_healthy p w :
  faults w = [] ->
  Lstat p w = (match fs w !! p with Some nd => Ok (info_of nd) | None => Err ENOENT end, w).
Proof.
  intros Hf. unfold Lstat. rewrite syscall_healthy by exact Hf.
  destruct (fs w !! p); cbn [fst snd]; now rewrite with_fs_same.
Qed.

Lemma MkSymlink_healthy t p w :
  faults w = [] -> fs w !! p = None ->
  MkSymlink t p w = (Ok tt, with_fs (<[p := Symlink t]> (fs w)) w).
Proof.
  intros Hf Hp. unfold MkSymlink. rewrite syscall_healthy by exact Hf.
  now rewrite Hp.
Qed.


(** [Remove] on a healthy system: only a directory that is not empty stays. *)
Lemma Remove_healthy p w nd :
  faults w = [] -> fs w !! p = Some nd ->
  (Remove p w = (Ok tt, with_fs (delete p (fs w)) w)) \/
  (Remove p w = (Err ENOTEMPTY, w) /\ nd = Dir).
Proof.
  intros Hf Hp. unfold Remove. rewrite syscall_healthy by exact Hf. rewrite Hp.
  destruct nd; cbn [fst snd]; auto.
  destruct (map_to_list (below p (fs w))); cbn [fst snd]; auto.
  right. now rewrite with_fs_same.
Qed.

Section Healthy.
Context {J : JSON}.

Lemma GetManifest_healthy org name version pm w data mode manifest :
  faults w = [] ->
  fs w !! Join (PackagePath (PluginPackageManager.baseDir pm) org name version)
               ["manifest.json"%string] = Some (File data mode) ->
  UnmarshalManifest data = Some manifest ->
  GetManifest org name version (pm, w) = (Ok manifest, (pm, w)).
Proof.
  intros Hf Hp Hparse. unfold GetManifest.
  unfold bind at 1. cbn [getBaseDir fst snd].
  erewrite bind_step by (apply wrap_step, os_step; eapply ReadFile_healthy; eassumption).
  now rewrite Hparse.
Qed.

End Healthy.

Section Idempotence.
Context {J : JSON}.


End Idempotence.


(** ** The active mapping and the links under [current/] *)

Lemma wp_os_consistent {A} (m : IO World A) (Φ : result A -> PM -> Prop) pm w :
  quiet (PluginPackageManager.baseDir pm) m ->
  consistent (pm, w) ->
  (forall r w', consistent (pm, w') -> Φ r (pm, w')) ->
  wp (os m) Φ (pm, w).
Proof.
  intros Hq [Hh Hl] HΦ. apply wp_os. unfold wp. cbn [fst snd].
  destruct (Hq w) as [Hf Hk]. apply HΦ. split.
  - apply Hf, Hh.
  - intros vmid. cbn [fst snd]. rewrite Hk. apply Hl.
Qed.

Lemma consistent_registry pm w reg :
  PluginRegistry.Active reg = PluginRegistry.Active (PluginPackageManager.registry pm) ->
  consistent (pm, w) ->
  consistent (PluginPackageManager.mk (PluginPackageManager.baseDir pm) reg, w).
Proof.
  intros Ha [Hh Hl]. split; [exact Hh|]. intros vmid. cbn [fst snd
    PluginPackageManager.registry PluginPackageManager.baseDir]. rewrite Ha. apply Hl.
Qed.

(** The state once [current/<vmid>] has been made a link and bound. *)
Lemma consistent_bound pm w vmid ref t f' :
  consistent (pm, w) ->
  (forall q, q ≠ ActivePath (PluginPackageManager.baseDir pm) vmid -> f' !! q = fs w !! q) ->
  f' !! ActivePath (PluginPackageManager.baseDir pm) vmid = Some (Symlink t) ->
  consistent
    (PluginPackageManager.mk (PluginPackageManager.baseDir pm)
       (PluginRegistry.with_active
          (<[vmid := ref]> (PluginRegistry.Active (PluginPackageManager.registry pm)))
          (PluginPackageManager.registry pm)),
     with_fs f' w).
Proof.
  intros [Hh Hl] Hframe Hlink. split; [exact Hh|]. intros v.
  cbn [fst snd PluginPackageManager.registry PluginPackageManager.baseDir
       PluginRegistry.with_active PluginRegistry.Active fs with_fs].
  destruct (decide (vmid = v)) as [<-|Hne].
  - rewrite lookup_insert_eq. unfold link_at. rewrite Hlink. split; eauto.
  - rewrite lookup_insert_ne by exact Hne.
    unfold link_at. rewrite Hframe.
    + apply Hl.
    + intros Heq. apply ActivePath_inj in Heq. congruence.
Qed.

(** The state once [current/<vmid>] has been removed, if it could be, and
    unbound. *)
Lemma consistent_unbound pm w w' vmid :
  consistent (pm, w) ->
  faults w' = [] ->
  (forall q, q ≠ ActivePath (PluginPackageManager.baseDir pm) vmid -> fs w' !! q = fs w !! q) ->
  link_at (fs w') (ActivePath (PluginPackageManager.baseDir pm) vmid) = None ->
  consistent
    (PluginPackageManager.mk (PluginPackageManager.baseDir pm)
       (PluginRegistry.with_active
          (delete vmid (PluginRegistry.Active (PluginPackageManager.registry pm)))
          (PluginPackageManager.registry pm)),
     w').
Proof.
  intros [Hh Hl] Hh' Hframe Hlink. split; [exact Hh'|]. intros v.
  cbn [fst snd PluginPackageManager.registry PluginPackageManager.baseDir
       PluginRegistry.with_active PluginRegistry.Active].
  destruct (decide (vmid = v)) as [<-|Hne].
  - rewrite lookup_delete_eq, Hlink. split; intros [x Hx]; discriminate.
  - rewrite lookup_delete_ne by exact Hne.
    unfold link_at. rewrite Hframe.
    + apply Hl.
    + intros Heq. apply ActivePath_inj in Heq. congruence.
Qed.

Lemma bind_ret {S A B} (a : A) (k : A -> IO S B) s : bind (ret a) k s = k a s.
Proof. reflexivity. Qed.

Lemma bind_getRegistry {B} (k : PluginRegistry.t -> IO PM B) pm w :
  bind getRegistry k (pm, w) = k (PluginPackageManager.registry pm) (pm, w).
Proof. reflexivity. Qed.

Lemma bind_setRegistry {B} r (k : unit -> IO PM B) pm w :
  bind (setRegistry r) k (pm, w)
  = k tt (PluginPackageManager.mk (PluginPackageManager.baseDir pm) r, w).
Proof. reflexivity. Qed.

Lemma bind_getBaseDir {B} (k : path -> IO PM B) pm w :
  bind getBaseDir k (pm, w) = k (PluginPackageManager.baseDir pm) (pm, w).
Proof. reflexivity. Qed.

Section Consistency.
Context {J : JSON}.

(** Replacing the link of an identifier and binding the identifier, as
    [Activate] and [Link] do, followed by the rest of the method. *)
Lemma relink_consistent msg1 msg2 t vmid ref (rest : IO PM unit) pm w :
  let p := ActivePath (PluginPackageManager.baseDir pm) vmid in
  consistent (pm, w) ->
  (forall pm' w', PluginPackageManager.baseDir pm' = PluginPackageManager.baseDir pm ->
                  consistent (pm', w') ->
                  wp rest (keeps_consistent (PluginPackageManager.baseDir pm)) (pm', w')) ->
  wp (st <- catch (os (Lstat p)) ;;
      match st with
      | inl _ => wrap msg1 (os (Remove p))
      | inr _ => ret tt
      end ;;;
      wrap msg2 (os (MkSymlink t p)) ;;;
      reg <- getRegistry ;;
      setRegistry
        (PluginRegistry.with_active (<[vmid := ref]> (PluginRegistry.Active reg)) reg) ;;;
      rest)
     (keeps_consistent (PluginPackageManager.baseDir pm)) (pm, w).
Proof.
  intros p Hc Hrest. pose proof Hc as [Hh Hl]. unfold healthy in Hh. cbn [snd] in Hh.
  unfold wp.
  destruct (fs w !! p) as [nd|] eqn:Hp.
  - erewrite bind_step
      by (apply catch_step, os_step; rewrite Lstat_healthy by exact Hh;
          rewrite Hp; reflexivity).
    destruct (Remove_healthy p w nd Hh Hp) as [Hrm|[Hrm _]].
    + erewrite bind_step by (apply wrap_step, os_step; exact Hrm).
      pose proof (MkSymlink_healthy t p (with_fs (delete p (fs w)) w) Hh
                    (lookup_delete_eq _ _)) as Hln.
      erewrite bind_step by (apply wrap_step, os_step; exact Hln).
      rewrite bind_getRegistry, bind_setRegistry.
      apply Hrest; [reflexivity|].
      change (with_fs (<[p:=Symlink t]> (delete p (fs w))) (with_fs (delete p (fs w)) w))
        with (with_fs (<[p:=Symlink t]> (delete p (fs w))) w).
      apply (consistent_bound pm w vmid ref t); [exact Hc| |apply lookup_insert_eq].
      intros q Hq. cbn [fs with_fs].
      rewrite lookup_insert_ne, lookup_delete_ne by (intros E; apply Hq; symmetry; exact E).
      reflexivity.
    + erewrite bind_stop by (apply wrap_stop, os_step; exact Hrm).
      cbn [fst snd]. split; [reflexivity|exact Hc].
  - erewrite bind_step
      by (apply catch_stop, os_step; rewrite Lstat_healthy by exact Hh;
          rewrite Hp; reflexivity).
    cbn beta iota. rewrite bind_ret.
    pose proof (MkSymlink_healthy t p w Hh Hp) as Hln.
    erewrite bind_step by (apply wrap_step, os_step; exact Hln).
    rewrite bind_getRegistry, bind_setRegistry.
    apply Hrest; [reflexivity|].
    apply (consistent_bound pm w vmid ref t); [exact Hc| |apply lookup_insert_eq].
    intros q Hq. now rewrite lookup_insert_ne by (intros E; apply Hq; symmetry; exact E).
Qed.

(** Removing the link of an identifier, errors ignored, and unbinding the
    identifier, as [Uninstall] does. *)
Lemma unlink_consistent vmid (Ψ : result unit -> PM -> Prop) pm w :
  let p := ActivePath (PluginPackageManager.baseDir pm) vmid in
  consistent (pm, w) ->
  (forall pm' w', PluginPackageManager.baseDir pm' = PluginPackageManager.baseDir pm ->
                  consistent (pm', w') -> Ψ (Ok tt) (pm', w')) ->
  wp (ignore (os (Remove p)) ;;;
      reg <- getRegistry ;;
      setRegistry
        (PluginRegistry.with_active (delete vmid (PluginRegistry.Active reg)) reg))
     Ψ (pm, w).
Proof.
  intros p Hc HΨ. pose proof Hc as [Hh Hl]. unfold healthy in Hh. cbn [snd] in Hh.
  unfold wp.
  destruct (fs w !! p) as [nd|] eqn:Hp.
  - destruct (Remove_healthy p w nd Hh Hp) as [Hrm|[Hrm ->]].
    + erewrite bind_step by (apply (ignore_step _ _ _ _ (os_step _ pm _ _ _ Hrm)); discriminate).
      rewrite bind_getRegistry. cbn [setRegistry fst snd PluginPackageManager.baseDir].
      apply HΨ; [reflexivity|].
      apply (consistent_unbound pm w); [exact Hc|exact Hh| |].
      * intros q Hq. cbn [fs with_fs].
        now rewrite lookup_delete_ne by (intros E; apply Hq; symmetry; exact E).
      * unfold link_at. cbn [fs with_fs]. fold p. now rewrite lookup_delete_eq.
    + erewrite bind_step by (apply (ignore_step _ _ _ _ (os_step _ pm _ _ _ Hrm)); discriminate).
      rewrite bind_getRegistry. cbn [setRegistry fst snd PluginPackageManager.baseDir].
      apply HΨ; [reflexivity|].
      apply (consistent_unbound pm w); [exact Hc|exact Hh|reflexivity|].
      unfold link_at. fold p. now rewrite Hp.
  - assert (Hrm : Remove p w = (Err ENOENT, w)).
    { unfold Remove. rewrite syscall_healthy by exact Hh. rewrite Hp. cbn [fst snd].
      now rewrite with_fs_same. }
    erewrite bind_step by (apply (ignore_step _ _ _ _ (os_step _ pm _ _ _ Hrm)); discriminate).
    rewrite bind_getRegistry. cbn [setRegistry fst snd PluginPackageManager.baseDir].
    apply HΨ; [reflexivity|].
    apply (consistent_unbound pm w); [exact Hc|exact Hh|reflexivity|].
    unfold link_at. fold p. now rewrite Hp.
Qed.

Lemma relink_consistent_at base msg1 msg2 t vmid ref (rest : IO PM unit) pm w :
  PluginPackageManager.baseDir pm = base ->
  consistent (pm, w) ->
  (forall pm' w', PluginPackageManager.baseDir pm' = base ->
                  consistent (pm', w') ->
                  wp rest (keeps_consistent base) (pm', w')) ->
  wp (st <- catch (os (Lstat (ActivePath base vmid))) ;;
      match st with
      | inl _ => wrap msg1 (os (Remove (ActivePath base vmid)))
      | inr _ => ret tt
      end ;;;
      wrap msg2 (os (MkSymlink t (ActivePath base vmid))) ;;;
      reg <- getRegistry ;;
      setRegistry
        (PluginRegistry.with_active (<[vmid := ref]> (PluginRegistry.Active reg)) reg) ;;;
      rest)
     (keeps_consistent base) (pm, w).
Proof. intros <-. apply relink_consistent. Qed.

Lemma unlink_consistent_at base vmid (Ψ : result unit -> PM -> Prop) pm w :
  PluginPackageManager.baseDir pm = base ->
  consistent (pm, w) ->
  (forall pm' w', PluginPackageManager.baseDir pm' = base ->
                  consistent (pm', w') -> Ψ (Ok tt) (pm', w')) ->
  wp (ignore (os (Remove (ActivePath base vmid))) ;;;
      reg <- getRegistry ;;
      setRegistry
        (PluginRegistry.with_active (delete vmid (PluginRegistry.Active reg)) reg))
     Ψ (pm, w).
Proof. intros <-. apply unlink_consistent. Qed.

Ltac quiet_side :=
  cbn [fst snd PluginPackageManager.baseDir];
  first
    [ apply quiet_MkdirAll | apply quiet_copyFile | apply quiet_Chmod | apply quiet_Stat
    | apply quiet_Now | apply quiet_WriteFile | apply quiet_ReadFile | apply quiet_Lstat
    | apply quiet_Remove; intros ?; unfold PackagePath; rewrite ?Join_Join;
      apply packages_not_active
    | apply quiet_MkSymlink; intros ?; unfold PackagePath; rewrite ?Join_Join;
      apply packages_not_active
    | apply quiet_RemoveAll; intros ?; unfold PackagePath; apply packages_not_above_active ].

Ltac cons_step :=
  first
    [ lazymatch goal with
      | |- wp (bind (catch (os (Lstat (ActivePath _ _)))) _) _ _ =>
          apply relink_consistent_at;
          [reflexivity|assumption
          |let b := fresh "b" in let r := fresh "r" in let Hb := fresh "Hb" in
           intros [b r] ? Hb ?; cbn [PluginPackageManager.baseDir] in Hb; subst b]
      | |- wp (bind (ignore (os (Remove (ActivePath _ _)))) _) _ _ =>
          apply unlink_consistent_at;
          [reflexivity|assumption
          |let b := fresh "b" in let r := fresh "r" in let Hb := fresh "Hb" in
           intros [b r] ? Hb ?; cbn [PluginPackageManager.baseDir] in Hb; subst b]
      end
    | wp_step
    | lazymatch goal with
      | H : consistent (?pm, ?w) |- wp (setRegistry ?r) _ (?pm, ?w) =>
          apply wp_setRegistry;
          pose proof (consistent_registry pm w r eq_refl H)
      | |- wp (os _) _ (_, _) =>
          apply wp_os_consistent; [quiet_side|assumption|intros [?|?|?] ? ?]
      | |- keeps_consistent _ _ _ => split; [reflexivity|assumption]
      end
    | progress cbn [fst snd PluginPackageManager.baseDir PluginPackageManager.registry] ].

Lemma saveRegistry_consistent pm w :
  consistent (pm, w) ->
  wp saveRegistry (keeps_consistent (PluginPackageManager.baseDir pm)) (pm, w).
Proof.
  intros Hc. unfold saveRegistry. repeat cons_step.
Qed.








End Consistency.





(** ** Uninstalling a superseded version *)

(** C3 on the code.  [Uninstall] of the superseded [v1] removes its
    directory and its entry of the version list, and also removes
    [current/id] and the binding of [id], which pointed at [v2]; [v2]
    stays installed with no identifier bound to it. *)
Lemma Uninstall_superseded_unbinds :
  let s := supersededState in
  let r := @Uninstall RefCodec.json None "luxfi" "evm" "v1" s in
  s = @run RefCodec.json supersededOps fixtureStart /\
  PluginRegistry.Active (PluginPackageManager.registry (fst s)) !! "id"%string
  = Some "luxfi/evm@v2"%string /\
  link_at (fs (snd s)) ["base"; "current"; "id"]%string
  = Some (Abs ["base"; "packages"; "luxfi"; "evm"; "v2"; "evm"]%string) /\
  fst r = Ok tt /\
  fs (snd (snd r)) !! ["base"; "packages"; "luxfi"; "evm"; "v1"]%string = None /\
  plugins_of (snd r) !! "luxfi/evm"%string = Some ["v2"%string] /\
  is_Some (fs (snd (snd r)) !! ["base"; "packages"; "luxfi"; "evm"; "v2"; "evm"]%string) /\
  PluginRegistry.Active (PluginPackageManager.registry (fst (snd r))) !! "id"%string = None /\
  fs (snd (snd r)) !! ["base"; "current"; "id"]%string = None.
Proof.
  repeat split; try (vm_compute; reflexivity).
  vm_compute. eauto.
Qed.

(** ** A copy that fails partway *)

(** C9 on the code.  [PluginPackageManager.Install] copies with
    [copyFile]: when the write breaks, the error is returned and the two
    bytes written stay in the package directory; and a context that is
    already cancelled does not stop the install. *)
Lemma Install_leaves_partial_copy :
  let s := (fst fixtureStart, brokenWriteWorld) in
  let r := @Install RefCodec.json None (fixtureManifest "v1" "id") fixtureSource s in
  fst r = Err (Wrapf "failed to copy binary" EIO) /\
  fs (snd (snd r)) !! ["base"; "packages"; "luxfi"; "evm"; "v1"; "evm"]%string
  = Some (File [1; 2] perm644) /\
  fst (@Install RefCodec.json (Some 0%nat) (fixtureManifest "v1" "id") fixtureSource
         fixtureStart) = Ok tt.
Proof.
  repeat split; vm_compute; reflexivity.
Qed.

(** ** plugins.go: the copy loop cleans up *)

Lemma Remove_gone p w w' : Remove p w = (Ok tt, w') -> fs w' !! p = None.
Proof. intros H. apply Remove_ok in H. rewrite H. apply lookup_delete_eq. Qed.

Lemma catch_never_err {S A} (m : IO S A) s e s' : catch m s ≠ (Err e, s').
Proof. unfold catch. destruct (m s) as [[a|e'|msg] s1]; discriminate. Qed.



Example Install_cancelled_midway :
  let pm := DefaultPluginManager.mk ["plugins"%string] in
  let r := DefaultPluginManager.Install pm (Some 1%nat) ["src"; "vm"]%string "vmid"
             largeSourceWorld in
  fst r = Err Canceled /\ fs (snd r) !! ["plugins"; "vmid"]%string = None /\
  fst (DefaultPluginManager.Install pm None ["src"; "vm"]%string "vmid" largeSourceWorld)
  = Ok (Some tt).
Proof. repeat split; vm_compute; reflexivity. Qed.

Lemma cleanup_not_none p e w :
  fst (bind (ignore (Remove p)) (fun _ => @fail World (option unit) e) w) ≠ Ok None.
Proof.
  unfold ignore, bind, catch, ret, fail.
  destruct (Remove p w) as [[[]|e1|msg] w1]; discriminate.
Qed.

Lemma Read_result h off n w r w' :
  catch (Read h off n) w = (Ok r, w') ->
  fs w' = fs w /\
  match r with
  | inl chunk =>
      chunk ≠ [] /\
      exists data mode, fs w !! h = Some (File data mode) /\ chunk = take n (drop off data)
  | inr _ => True
  end.
Proof.
  unfold catch, Read. rewrite syscall_unfold.
  destruct (fs w !! h) as [[data mode| |t]|] eqn:Hh.
  - destruct (take n (drop off data)) as [|b chunk] eqn:Hc;
      destruct (hd Fine (faults w)); intros [= <- <-]; (split; [reflexivity|]); auto.
    split; [discriminate|]. eauto.
  - destruct (hd Fine (faults w)); intros [= <- <-]; auto.
  - destruct (hd Fine (faults w)); intros [= <- <-]; auto.
  - destruct (hd Fine (faults w)); intros [= <- <-]; auto.
Qed.

Lemma Write_result h buf w w' :
  catch (Write h buf) w = (Ok (inl tt), w') ->
  forall q, q ≠ h -> fs w' !! q = fs w !! q.
Proof.
  unfold catch. destruct (Write h buf w) as [[[]|e|msg] w1] eqn:Hw; intros [= <-].
  apply syscall_result in Hw as [Hw _]. unfold append in Hw.
  intros q Hq. destruct (fs w !! h) as [[data mode| |t]|]; try discriminate.
  injection Hw as <-. now rewrite lookup_insert_ne by auto.
Qed.

Lemma copyLoop_enough fuel ctx destPath srcFile dstFile off w :
  (0 < fuel)%nat ->
  (forall data mode, fs w !! srcFile = Some (File data mode) ->
     (length data - off < fuel)%nat /\ (srcFile = dstFile -> (length data <= off)%nat)) ->
  fst (DefaultPluginManager.copyLoop fuel ctx destPath srcFile dstFile off w) ≠ Ok None.
Proof.
  revert ctx off w. induction fuel as [|fuel IH]; intros ctx off w Hpos Hsrc; [lia|].
  cbn [DefaultPluginManager.copyLoop].
  destruct (Done ctx) as [[|] ctx']; [apply cleanup_not_none|].
  unfold bind at 1.
  destruct (catch (Read srcFile off DefaultPluginManager.bufSize) w)
    as [[r|e|msg] w1] eqn:Hrd; [|discriminate..].
  apply Read_result in Hrd as [Hfs1 Hr].
  destruct r as [chunk|err].
  - destruct Hr as (Hne & data & mode & Hdata & Hchunk).
    destruct (Hsrc data mode Hdata) as [Hlt Hsame].
    assert (Hlen : (1 <= length chunk <= length data - off)%nat).
    { split.
      - destruct chunk; [contradiction|simpl; lia].
      - rewrite Hchunk, length_take, length_drop. lia. }
    destruct (0 <? length chunk)%nat eqn:Hz; [|apply Nat.ltb_ge in Hz; lia].
    unfold bind at 1. unfold bind at 1.
    destruct (catch (Write dstFile chunk) w1) as [[wr|e|msg] w2] eqn:Hwr; [|discriminate..].
    destruct wr as [[]|writeErr].
    + cbn [ret]. apply IH; [lia|].
      assert (Hdiff : srcFile ≠ dstFile) by (intros E; specialize (Hsame E); lia).
      intros data' mode'. rewrite (Write_result _ _ _ _ Hwr) by exact Hdiff.
      rewrite Hfs1, Hdata. intros [= <- <-]. split; [lia|]. intros E. contradiction.
    + pose proof (cleanup_not_none destPath (Wrapf "failed to write plugin" writeErr) w2) as Hc.
      unfold bind in Hc |- *.
      destruct (ignore (Remove destPath) w2) as [[[]|e|msg] w3]; cbn in *; try discriminate.
  - cbv beta iota. change (0 <? length (@nil Z))%nat with false. cbv beta iota.
    rewrite bind_ret.
    destruct err; try apply cleanup_not_none. discriminate.
Qed.

Lemma mkdirs_file qs f q data mode :
  snd (mkdirs qs f) !! q = Some (File data mode) -> f !! q = Some (File data mode).
Proof.
  revert f. induction qs as [|x qs IH]; intros f; simpl; [exact id|].
  destruct (f !! x) as [[d m| |t]|] eqn:Hx; simpl; try exact id.
  - apply IH.
  - destruct (resolve maxLinks f x) as [q'|]; [|exact id].
    destruct (f !! q') as [[| |]|]; try exact id. apply IH.
  - intros H. apply IH in H. rewrite lookup_insert in H.
    destruct (decide (x = q)); [discriminate|exact H].
Qed.

Lemma MkdirAll_ok p w w' :
  MkdirAll p w = (Ok tt, w') ->
  (forall x, link_at (fs w') x = link_at (fs w) x) /\
  (forall q data mode, fs w' !! q = Some (File data mode) -> fs w !! q = Some (File data mode)).
Proof.
  intros H. apply syscall_result in H as [H _].
  pose proof (f_equal snd H) as Hfs. cbn [snd] in Hfs. rewrite <- Hfs. split.
  - intros x. apply mkdirs_links.
  - intros q data mode. apply mkdirs_file.
Qed.

Lemma Stat_fs p w r w' : Stat p w = (r, w') -> fs w' = fs w.
Proof.
  unfold Stat. rewrite syscall_unfold.
  destruct (resolve maxLinks (fs w) p) as [q|]; [destruct (fs w !! q)|];
    destruct (hd Fine (faults w)); intros [= <- <-]; reflexivity.
Qed.

Lemma Open_ok p w q w' :
  Open p w = (Ok q, w') -> fs w' = fs w /\ resolve maxLinks (fs w) p = Some q.
Proof.
  intros H. apply syscall_result in H as [H _].
  destruct (resolve maxLinks (fs w) p) as [q'|]; [|discriminate].
  destruct (fs w !! q'); [|discriminate]. injection H as <- <-. auto.
Qed.

Lemma OpenFile_ok p perm w q w' :
  OpenFile p perm w = (Ok q, w') ->
  exists mode, fs w' = <[q := File [] mode]> (fs w).
Proof.
  intros H. apply syscall_result in H as [H _]. unfold store in H.
  destruct (resolve maxLinks (fs w) p) as [q'|]; [|discriminate].
  destruct (fs w !! q') as [[d m| |t]|]; try discriminate; injection H as <- <-; eauto.
Qed.

(** [DefaultPluginManager.Install] returns: the bound on its loop is never
    what ends it. *)
Lemma Install_returns pm ctx source vmID w :
  fst (DefaultPluginManager.Install pm ctx source vmID w) ≠ Ok None.
Proof.
  unfold DefaultPluginManager.Install, DefaultPluginManager.InstallWithin.
  unfold bind at 1.
  destruct (wrap "failed to create plugin directory" (DefaultPluginManager.EnsureDir pm) w)
    as [[[]|e|msg] w1] eqn:H1; [|discriminate..].
  apply wrap_ok, MkdirAll_ok in H1 as [Hlinks Hfiles].
  unfold bind at 1.
  destruct (wrap "source file not found" (Stat source) w1)
    as [[srcInfo|e|msg] w2] eqn:H2; [|discriminate..].
  apply wrap_ok, Stat_fs in H2.
  destruct (FileInfo.IsDir srcInfo); [discriminate|].
  unfold bind at 1.
  destruct (wrap "failed to open source" (Open source) w2)
    as [[q|e|msg] w3] eqn:H3; [|discriminate..].
  apply wrap_ok, Open_ok in H3 as [Hfs3 Hq].
  unfold bind at 1.
  destruct (wrap "failed to create plugin file"
              (OpenFile (DefaultPluginManager.GetPath pm vmID) perm755) w3)
    as [[qd|e|msg] w4] eqn:H4; [|discriminate..].
  apply wrap_ok, OpenFile_ok in H4 as [mode H4].
  apply copyLoop_enough; [lia|].
  intros data mode' Hdata. rewrite H4 in Hdata.
  destruct (decide (qd = q)) as [->|Hne].
  - rewrite lookup_insert_eq in Hdata. injection Hdata as <- <-. simpl. split; lia.
  - rewrite lookup_insert_ne in Hdata by exact Hne.
    rewrite Hfs3, H2 in Hdata. apply Hfiles in Hdata.
    rewrite H2 in Hq. rewrite (resolve_same_links _ _ _ _ Hlinks) in Hq.
    unfold DefaultPluginManager.sourceLength. rewrite Hq, Hdata.
    split; [lia|]. intros E. congruence.
Qed.

(** ** The first digit of an identifier *)

(** X1. The version byte of the check encoding is 0, a leading zero byte,
    so every identifier starts with the digit ['1']. *)
Lemma VMID_leading_one (vmName : string) :
  exists rest, VMID vmName = String "1" rest.
Proof.
  unfold VMID, base58.CheckEncode, base58.Encode.
  cbn [app base58.leading_zeros repeat string_of_list_ascii].
  eexists. reflexivity.
Qed.

(** ** References as [ListActive] reads them *)

Lemma append_nil_l (t : string) : (EmptyString ++ t)%string = t.
Proof. reflexivity. Qed.

Lemma append_cons a (s t : string) : (String a s ++ t)%string = String a (s ++ t).
Proof. reflexivity. Qed.

Lemma LastIndex_range s c : -1 <= LastIndex s c < Z.of_nat (String.length s).
Proof.
  induction s as [|a s IH]; cbn [LastIndex String.length]; [lia|].
  destruct (0 <=? LastIndex s c) eqn:E; [apply Z.leb_le in E; lia|].
  destruct (Ascii.eqb a c); lia.
Qed.

Lemma LastIndex_absent s c : occurs c s = false -> LastIndex s c = -1.
Proof.
  induction s as [|a s IH]; cbn [LastIndex occurs]; [reflexivity|].
  intros H. apply orb_false_iff in H as [Ha Hs]. rewrite (IH Hs), Ha. reflexivity.
Qed.

Lemma LastIndex_present s c : occurs c s = true -> 0 <= LastIndex s c.
Proof.
  induction s as [|a s IH]; cbn [LastIndex occurs]; [discriminate|].
  destruct (0 <=? LastIndex s c) eqn:E; [apply Z.leb_le in E; lia|].
  apply Z.leb_gt in E.
  destruct (Ascii.eqb a c); [lia|]. cbn [orb]. intros H. apply IH in H. lia.
Qed.

Lemma LastIndex_app s c t :
  LastIndex (s ++ String c t) c
  = if occurs c t then Z.of_nat (String.length s) + 1 + LastIndex t c
    else Z.of_nat (String.length s).
Proof.
  induction s as [|a s IH].
  - rewrite ?append_nil_l, ?append_cons; cbn [LastIndex String.length].
    destruct (occurs c t) eqn:Ht.
    + pose proof (LastIndex_present _ _ Ht) as Hp.
      destruct (0 <=? LastIndex t c) eqn:E; [|apply Z.leb_gt in E; lia]. lia.
    + rewrite (LastIndex_absent _ _ Ht). rewrite Ascii.eqb_refl. reflexivity.
  - rewrite ?append_nil_l, ?append_cons; cbn [LastIndex String.length]. rewrite IH.
    pose proof (LastIndex_range t c) as Hr.
    destruct (occurs c t) eqn:Ht.
    + pose proof (LastIndex_present _ _ Ht) as Hp.
      destruct (0 <=? _) eqn:E; [lia|apply Z.leb_gt in E; lia].
    + destruct (0 <=? _) eqn:E; [lia|apply Z.leb_gt in E; lia].
Qed.

Lemma substring_app_before s t : String.substring 0 (String.length s) (s ++ t) = s.
Proof.
  induction s as [|a s IH]; rewrite ?append_nil_l, ?append_cons; cbn [String.length String.substring].
  - destruct t; reflexivity.
  - rewrite IH. reflexivity.
Qed.

Lemma substring_all s : String.substring 0 (String.length s) s = s.
Proof.
  induction s as [|a s IH]; cbn [String.length String.substring]; [reflexivity|].
  rewrite IH. reflexivity.
Qed.

Lemma substring_app_after s t :
  String.substring (String.length s) (String.length t) (s ++ t) = t.
Proof.
  induction s as [|a s IH]; rewrite ?append_nil_l, ?append_cons; cbn [String.length String.substring].
  - apply substring_all.
  - exact IH.
Qed.

Lemma length_append s t :
  String.length (s ++ t) = (String.length s + String.length t)%nat.
Proof. induction s as [|a s IH]; rewrite ?append_nil_l, ?append_cons; cbn [String.length]; [reflexivity|]. rewrite IH. reflexivity. Qed.

Lemma cut_app s c t :
  occurs c s = false -> cut (s ++ String c t) c = Some (s, t).
Proof.
  induction s as [|a s IH]; rewrite ?append_nil_l, ?append_cons; cbn [cut occurs].
  - intros _. rewrite Ascii.eqb_refl. reflexivity.
  - intros H. apply orb_false_iff in H as [Ha Hs]. rewrite Ha, (IH Hs). reflexivity.
Qed.

Lemma cut_length s c a b :
  cut s c = Some (a, b) -> occurs c a = false /\ s = (a ++ String c b)%string.
Proof.
  revert a. induction s as [|x s IH]; intros a; cbn [cut]; [discriminate|].
  destruct (Ascii.eqb x c) eqn:E.
  - intros [= <- <-]. apply Ascii.eqb_eq in E as ->. auto.
  - destruct (cut s c) as [[a' b']|]; [|discriminate].
    intros [= <- <-]. destruct (IH a' eq_refl) as [Ho ->].
    rewrite ?append_nil_l, ?append_cons; cbn [occurs]. rewrite E, Ho. auto.
Qed.

Lemma append_assoc (a b c : string) : ((a ++ b) ++ c = a ++ (b ++ c))%string.
Proof. induction a as [|x a IH]; rewrite ?append_nil_l, ?append_cons; [reflexivity|]. rewrite IH. reflexivity. Qed.

Lemma length_substring n m s : (String.length (String.substring n m s) <= m)%nat.
Proof.
  revert n m. induction s as [|a s IH]; intros [|n] [|m]; cbn [String.substring String.length];
    try lia.
  - specialize (IH 0%nat m). lia.
  - apply (IH n 0%nat).
  - apply (IH n (S m)).
Qed.

Lemma pkgRefOf_split org name version :
  pkgRefOf org name version = (pkgKeyOf org name ++ String "@" version)%string.
Proof.
  unfold pkgRefOf, pkgKeyOf. rewrite !append_assoc.
  rewrite ?append_cons, ?append_nil_l. reflexivity.
Qed.

Lemma slice_before_key key version :
  slice_before (key ++ String "@" version) (Z.of_nat (String.length key)) = key.
Proof. unfold slice_before. rewrite Nat2Z.id. apply substring_app_before. Qed.

Lemma slice_from_version key version :
  slice_from (key ++ String "@" version) (Z.of_nat (String.length key) + 1) = version.
Proof.
  unfold slice_from.
  replace (Z.to_nat (Z.of_nat (String.length key) + 1)) with (S (String.length key)) by lia.
  rewrite length_append. cbn [String.length].
  replace (String.length key + S (String.length version) - S (String.length key))%nat
    with (String.length version) by lia.
  pose proof (substring_app_after (key ++ String "@" EmptyString) version) as H.
  rewrite length_append in H. cbn [String.length] in H.
  replace (String.length key + 1)%nat with (S (String.length key)) in H by lia.
  rewrite append_assoc, append_cons, append_nil_l in H. exact H.
Qed.

Lemma parseRef_clean (org name version : string) :
  occurs "/" org = false -> occurs "@" version = false ->
  parseRef (pkgRefOf org name version) = Some (org, name, version).
Proof.
  intros Hslash Hat. rewrite pkgRefOf_split. unfold parseRef.
  pose proof (LastIndex_app (pkgKeyOf org name) "@" version) as Hi.
  rewrite Hat in Hi. rewrite Hi.
  destruct (_ =? -1) eqn:E; [apply Z.eqb_eq in E; lia|].
  rewrite slice_before_key, slice_from_version.
  unfold SplitN2, pkgKeyOf. rewrite ?append_cons, ?append_nil_l.
  now rewrite (cut_app _ _ _ Hslash).
Qed.

(** X2. The reference that [Activate] and [Link] write for a package is read
    back by [ListActive] as that package exactly when the organisation
    holds no ['/'] and the version no ['@']. *)
Theorem parseRef_pkgRefOf (org name version : string) :
  parseRef (pkgRefOf org name version) = Some (org, name, version)
  <-> occurs "/" org = false /\ occurs "@" version = false.
Proof.
  split; [|intros [? ?]; now apply parseRef_clean].
  rewrite pkgRefOf_split. unfold parseRef.
  set (key := pkgKeyOf org name).
  pose proof (LastIndex_app key "@" version) as Hi.
  destruct (occurs "@" version) eqn:Hat.
  - (* an '@' in the version: the version read back is shorter *)
    pose proof (LastIndex_present _ _ Hat) as Hj.
    pose proof (LastIndex_range version "@") as Hr.
    rewrite Hi.
    destruct (_ =? -1) eqn:E; [discriminate|].
    destruct (SplitN2 _ _) as [|a [|b [|c l]]]; try discriminate.
    intros [= _ _ Hv].
    pose proof (length_substring
      (Z.to_nat (Z.of_nat (String.length key) + 1 + LastIndex version "@" + 1))
      (String.length (key ++ String "@" version)
       - Z.to_nat (Z.of_nat (String.length key) + 1 + LastIndex version "@" + 1))
      (key ++ String "@" version)) as Hlen.
    unfold slice_from in Hv. rewrite Hv in Hlen.
    rewrite length_append in Hlen. cbn [String.length] in Hlen. lia.
  - rewrite Hi.
    destruct (_ =? -1) eqn:E; [apply Z.eqb_eq in E; lia|].
    rewrite slice_before_key, slice_from_version.
    unfold SplitN2, key, pkgKeyOf. rewrite ?append_cons, ?append_nil_l.
    destruct (occurs "/" org) eqn:Hslash; [|auto].
    destruct (cut _ _) as [[a b]|] eqn:Hc; [|discriminate].
    apply cut_length in Hc as [Ha _]. intros [= -> _]. congruence.
Qed.

Example parseRef_examples :
  parseRef (pkgRefOf "luxfi" "evm" "v1.0.0") = Some ("luxfi", "evm", "v1.0.0")%string /\
  parseRef (pkgRefOf "luxfi" "evm" "v1@rc") = Some ("luxfi", "evm@v1", "rc")%string /\
  parseRef (pkgRefOf "lux/fi" "evm" "v1") = Some ("lux", "fi/evm", "v1")%string.
Proof. repeat split. Qed.

(** ** Calls that only read *)

Lemma consulted_healthy w : faults w = [] -> consulted w = w.
Proof. destruct w as [f fl c d]. cbn. intros ->. reflexivity. Qed.

Lemma syscall_frame {A} (run : gmap path node -> result A * gmap path node) w r w' :
  (forall f, snd (run f) = f) ->
  syscall run unchanged w = (r, w') ->
  fs w' = fs w /\ (faults w = [] -> w' = w /\ r = fst (run (fs w))).
Proof.
  intros Hrun. rewrite syscall_unfold.
  pose proof (Hrun (fs w)) as Hf.
  destruct (run (fs w)) as [[a|e|msg] f'] eqn:Hr; cbn [snd] in Hf; subst f';
    unfold unchanged; destruct (hd Fine (faults w)) eqn:Hh; intros [= <- <-];
    (split; [reflexivity|]); intros Hw; rewrite Hw in Hh; try discriminate;
    rewrite (consulted_healthy _ Hw), with_fs_same; auto.
Qed.

Lemma syscall_no_panic {A} (run : gmap path node -> result A * gmap path node)
    broken w msg :
  (forall f msg, fst (run f) ≠ Panic msg) ->
  fst (syscall run broken w) ≠ Panic msg.
Proof.
  intros Hrun. rewrite syscall_unfold. pose proof (Hrun (fs w)) as Hf.
  destruct (run (fs w)) as [[a|e|m] f']; cbn [fst] in Hf;
    destruct (hd Fine (faults w)); cbn [fst]; try discriminate; apply Hf.
Qed.

Lemma syscall_reads {A} (run : gmap path node -> result A * gmap path node) w r w' :
  (forall f, snd (run f) = f) ->
  (forall f msg, fst (run f) ≠ Panic msg) ->
  syscall run unchanged w = (r, w') ->
  fs w' = fs w /\ (faults w = [] -> w' = w) /\ (forall msg, r ≠ Panic msg).
Proof.
  intros Hro Hnp H. destruct (syscall_frame _ _ _ _ Hro H) as [Hfs Hw].
  split; [exact Hfs|]. split; [intros Hf; now apply Hw|].
  intros msg ->. apply (syscall_no_panic run unchanged w msg Hnp). now rewrite H.
Qed.

Ltac reads :=
  intros; repeat case_match; try reflexivity; try discriminate.

Lemma ReadFile_frame p w r w' :
  ReadFile p w = (r, w') ->
  fs w' = fs w /\ (faults w = [] -> w' = w) /\ (forall msg, r ≠ Panic msg).
Proof. apply syscall_reads; reads. Qed.

Lemma ReadDir_frame p w r w' :
  ReadDir p w = (r, w') ->
  fs w' = fs w /\ (faults w = [] -> w' = w) /\ (forall msg, r ≠ Panic msg).
Proof. apply syscall_reads; reads. Qed.

Section ListingSpec.
Context {J : JSON}.

Lemma GetManifest_frame org name version pm w r s' :
  GetManifest org name version (pm, w) = (r, s') ->
  exists w', s' = (pm, w') /\ fs w' = fs w /\ (faults w = [] -> w' = w) /\
             (forall msg, r ≠ Panic msg).
Proof.
  unfold GetManifest. rewrite bind_getBaseDir.
  set (p := Join _ _).
  destruct (ReadFile p w) as [r0 w0] eqn:Hrd.
  pose proof (ReadFile_frame _ _ _ _ Hrd) as (Hfs & Hw & Hnp).
  unfold bind, wrap. rewrite (os_step _ pm _ _ _ Hrd).
  destruct r0 as [data|e|msg].
  - destruct (UnmarshalManifest data); intros [= <- <-]; eauto 6.
  - intros [= <- <-]. eauto 6.
  - now destruct (Hnp msg).
Qed.

Lemma GetManifest_ok org name version pm w manifest s' :
  GetManifest org name version (pm, w) = (Ok manifest, s') ->
  exists q data mode,
    resolve maxLinks (fs w)
      (Join (PackagePath (PluginPackageManager.baseDir pm) org name version)
            ["manifest.json"%string]) = Some q /\
    fs w !! q = Some (File data mode) /\
    UnmarshalManifest data = Some manifest.
Proof.
  unfold GetManifest. rewrite bind_getBaseDir. intros H.
  apply bind_ok in H as (data & s1 & Hrd & H).
  apply wrap_ok, os_inv in Hrd as (w1 & Hrd & ->).
  apply ReadFile_ok in Hrd as (_ & q & mode & Hres & Hq).
  destruct (UnmarshalManifest data) as [m|] eqn:Hp; [|discriminate].
  injection H as -> _. eauto 8.
Qed.

Lemma listActiveEntries_sound entries acc pm w m s' :
  listActiveEntries entries acc (pm, w) = (Ok m, s') ->
  fst s' = pm /\ fs (snd s') = fs w /\
  forall vmid manifest,
    m !! vmid = Some manifest ->
    acc !! vmid = Some manifest \/
    (vmid ∈ map fst entries /\ reported pm (fs w) vmid manifest).
Proof.
  revert acc w. induction entries as [|entry rest IH]; intros acc w H.
  - injection H as <- <-. auto.
  - cbn [listActiveEntries] in H. rewrite bind_getRegistry in H.
    assert (Hskip : forall w1, fs w1 = fs w ->
              listActiveEntries rest acc (pm, w1) = (Ok m, s') ->
              fst s' = pm /\ fs (snd s') = fs w /\
              forall vmid manifest,
                m !! vmid = Some manifest ->
                acc !! vmid = Some manifest \/
                (vmid ∈ map fst (entry :: rest) /\ reported pm (fs w) vmid manifest)).
    { intros w1 Hw1 H1. apply IH in H1 as (Hpm & Hfs & Hm). rewrite Hw1 in Hfs, Hm.
      split; [exact Hpm|]. split; [exact Hfs|]. intros vmid manifest Hv.
      destruct (Hm vmid manifest Hv) as [?|[? ?]]; [auto|].
      right. split; [|assumption]. cbn [map]. now apply list_elem_of_further. }
    destruct (PluginRegistry.Active (PluginPackageManager.registry pm) !! entry.1)
      as [ref|] eqn:Href; [|now apply (Hskip w)].
    destruct (parseRef ref) as [[[org name] version]|] eqn:Hparse; [|now apply (Hskip w)].
    apply bind_ok in H as (r & s1 & Hget & H). 
    destruct (GetManifest org name version (pm, w)) as [r0 s0] eqn:Hgm.
    pose proof (GetManifest_frame _ _ _ _ _ _ _ Hgm) as (w1 & -> & Hw1 & _ & _).
    unfold catch in Hget. rewrite Hgm in Hget.
    destruct r0 as [manifest|e|msg]; [| |discriminate]; injection Hget as <- <-.
    + apply GetManifest_ok in Hgm as (q & data & mode & Hres & Hq & Hp).
      apply IH in H as (Hpm & Hfs & Hm). rewrite Hw1 in Hfs, Hm.
      split; [exact Hpm|]. split; [exact Hfs|]. intros vmid manifest' Hv.
      destruct (Hm vmid manifest' Hv) as [Hacc|[Hin Hrep]].
      * destruct (decide (vmid = entry.1)) as [->|Hne].
        -- rewrite lookup_insert_eq in Hacc. injection Hacc as <-.
           right. split; [cbn [map]; apply list_elem_of_here|].
           exists ref, org, name, version. repeat split; auto.
           exists q, data, mode. auto.
        -- rewrite lookup_insert_ne in Hacc by auto. auto.
      * right. split; [cbn [map]; now apply list_elem_of_further|assumption].
    + now apply (Hskip w1).
Qed.

End ListingSpec.

(** ** Directory entries *)

Lemma insert_sorted_elem (x e : DirEntry) es : x ∈ insert_sorted e es <-> x = e \/ x ∈ es.
Proof.
  induction es as [|e' es IH]; cbn [insert_sorted].
  - rewrite list_elem_of_singleton, elem_of_nil. tauto.
  - destruct (String.leb e.1 e'.1); rewrite !elem_of_cons; [tauto|].
    rewrite IH. tauto.
Qed.

Lemma sorted_elem (x : DirEntry) l : x ∈ foldr insert_sorted [] l <-> x ∈ l.
Proof.
  induction l as [|e l IH]; cbn [foldr]; [reflexivity|].
  rewrite insert_sorted_elem, elem_of_cons, IH. reflexivity.
Qed.

Lemma entry_of_elem (q k : path) (nd : node) (name : string) (b : bool) :
  (name, b) ∈ entry_of q (k, nd)
  <-> k = q ++ [name] /\ b = match nd with Dir => true | _ => false end.
Proof.
  unfold entry_of. cbn [fst snd]. split.
  - destruct (drop (length q) k) as [|n [|]] eqn:Hd; try (intros H; now apply elem_of_nil in H).
    destruct (decide (take (length q) k = q)) as [Ht|]; [|intros H; now apply elem_of_nil in H].
    intros H. apply list_elem_of_singleton in H. injection H as -> ->.
    split; [|reflexivity]. rewrite <- (take_drop (length q) k), Hd, Ht. reflexivity.
  - intros [-> ->]. rewrite drop_app_length, take_app_length.
    rewrite decide_True by reflexivity. apply list_elem_of_here.
Qed.

Lemma entries_elem (q : path) (f : gmap path node) (name : string) (b : bool) :
  (name, b) ∈ foldr insert_sorted [] (flat_map (entry_of q) (map_to_list f))
  <-> exists nd, f !! (q ++ [name]) = Some nd /\
                 b = match nd with Dir => true | _ => false end.
Proof.
  rewrite sorted_elem, list_elem_of_In, in_flat_map. split.
  - intros ([k nd] & Hin & He). apply list_elem_of_In in Hin, He.
    apply elem_of_map_to_list in Hin. apply entry_of_elem in He as [-> ->]. eauto.
  - intros (nd & Hnd & ->). exists (q ++ [name], nd). split.
    + apply list_elem_of_In, elem_of_map_to_list, Hnd.
    + apply list_elem_of_In, entry_of_elem. auto.
Qed.

Lemma ReadDir_ok p w entries w' :
  ReadDir p w = (Ok entries, w') ->
  exists q, resolve maxLinks (fs w) p = Some q /\ fs w !! q = Some Dir /\
            entries = foldr insert_sorted [] (flat_map (entry_of q) (map_to_list (fs w))).
Proof.
  intros H. apply syscall_result in H as [H _].
  destruct (resolve maxLinks (fs w) p) as [q|]; [|discriminate].
  destruct (fs w !! q) as [[| |]|] eqn:Hq; try discriminate.
  injection H as <- _. eauto.
Qed.

Lemma ReadDir_healthy p w :
  faults w = [] -> fs w !! p = Some Dir ->
  ReadDir p w
  = (Ok (foldr insert_sorted [] (flat_map (entry_of p) (map_to_list (fs w)))), w).
Proof.
  intros Hw Hp. unfold ReadDir. rewrite syscall_healthy by exact Hw.
  rewrite resolve_not_link by (unfold link_at; now rewrite Hp).
  rewrite Hp. cbn [fst snd]. now rewrite with_fs_same.
Qed.

Section ListActiveSpec.
Context {J : JSON}.

(** X3. [ListActive] is sound and only reads: the receiver and the file system
    are as before; every identifier it reports is an entry of [current/]
    that the registry binds, and the manifest reported is the one stored
    for the version that the binding names. *)
Theorem ListActive_sound ctx (pm : PluginPackageManager.t) (w : World) m s' :
  ListActive ctx (pm, w) = (Ok m, s') ->
  fst s' = pm /\ fs (snd s') = fs w /\
  forall vmid manifest,
    m !! vmid = Some manifest ->
    reported pm (fs w) vmid manifest /\
    exists d nd,
      resolve maxLinks (fs w) (Join (PluginPackageManager.baseDir pm) [activeDir]) = Some d /\
      fs w !! (d ++ [vmid]) = Some nd.
Proof.
  unfold ListActive. rewrite bind_getBaseDir. intros H.
  apply bind_ok in H as (r & s1 & Hrd & H). apply catch_ok in Hrd.
  destruct r as [entries|err].
  - apply os_inv in Hrd as (w1 & Hrd & ->).
    pose proof (ReadDir_frame _ _ _ _ Hrd) as (Hfs1 & _ & _).
    apply ReadDir_ok in Hrd as (d & Hres & Hd & Hentries).
    apply listActiveEntries_sound in H as (Hpm & Hfs & Hm). rewrite Hfs1 in Hfs, Hm.
    split; [exact Hpm|]. split; [exact Hfs|]. intros vmid manifest Hv.
    destruct (Hm vmid manifest Hv) as [Hacc|[Hin Hrep]]; [now rewrite lookup_empty in Hacc|].
    split; [exact Hrep|].
    apply list_elem_of_fmap in Hin as ([name b] & -> & Hin). rewrite Hentries in Hin.
    apply entries_elem in Hin as (nd & Hnd & _). eauto.
  - apply os_inv in Hrd as (w1 & Hrd & ->).
    pose proof (ReadDir_frame _ _ _ _ Hrd) as (Hfs1 & _ & _).
    destruct (IsNotExist err); [|discriminate]. injection H as <- <-.
    split; [reflexivity|]. split; [exact Hfs1|]. intros vmid manifest Hv.
    now rewrite lookup_empty in Hv.
Qed.

Lemma listActiveEntries_complete entries acc pm w vmid org name version manifest :
  faults w = [] ->
  PluginRegistry.Active (PluginPackageManager.registry pm) !! vmid
  = Some (pkgRefOf org name version) ->
  parseRef (pkgRefOf org name version) = Some (org, name, version) ->
  GetManifest org name version (pm, w) = (Ok manifest, (pm, w)) ->
  vmid ∈ map fst entries \/ acc !! vmid = Some manifest ->
  exists m, listActiveEntries entries acc (pm, w) = (Ok m, (pm, w)) /\
            m !! vmid = Some manifest.
Proof.
  intros Hw Hact Hparse Hget. revert acc.
  induction entries as [|entry rest IH]; intros acc Hin.
  - destruct Hin as [Hin|Hacc]; [now apply elem_of_nil in Hin|]. exists acc. auto.
  - cbn [listActiveEntries]. rewrite bind_getRegistry.
    assert (Hnext : entry.1 ≠ vmid ->
                    vmid ∈ map fst rest \/ acc !! vmid = Some manifest).
    { intros Hne. destruct Hin as [Hin|]; [|auto]. cbn [map] in Hin.
      apply elem_of_cons in Hin as [->|]; [contradiction|auto]. }
    destruct (decide (entry.1 = vmid)) as [He|Hne].
    + rewrite He, Hact, Hparse. erewrite bind_step by (apply catch_step, Hget).
      apply IH. right. apply lookup_insert_eq.
    + specialize (Hnext Hne).
      destruct (PluginRegistry.Active (PluginPackageManager.registry pm) !! entry.1)
        as [ref|]; [|now apply IH].
      destruct (parseRef ref) as [[[o n] v]|]; [|now apply IH].
      destruct (GetManifest o n v (pm, w)) as [r s1] eqn:Hg.
      destruct (GetManifest_frame _ _ _ _ _ _ _ Hg) as (w1 & -> & _ & Hsame & Hnp).
      rewrite (Hsame Hw) in Hg.
      destruct r as [m1|e|msg]; [| |now destruct (Hnp msg)].
      * erewrite bind_step by (apply catch_step, Hg).
        apply IH. destruct Hnext as [?|Hacc]; [auto|].
        right. now rewrite lookup_insert_ne.
      * erewrite bind_step by (apply catch_stop, Hg). now apply IH.
Qed.

(** X4. [ListActive] is complete on a healthy system: an entry of [current/]
    that the registry binds to a package whose organisation holds no ['/']
    and whose version holds no ['@'], and whose manifest can be read, is
    reported with that manifest. *)
Theorem ListActive_complete ctx (pm : PluginPackageManager.t) (w : World)
    vmid org name version data mode manifest :
  let base := PluginPackageManager.baseDir pm in
  faults w = [] ->
  fs w !! Join base [activeDir] = Some Dir ->
  vmid ≠ ""%string ->
  is_Some (fs w !! ActivePath base vmid) ->
  PluginRegistry.Active (PluginPackageManager.registry pm) !! vmid
  = Some (pkgRefOf org name version) ->
  occurs "/" org = false ->
  occurs "@" version = false ->
  fs w !! Join (PackagePath base org name version) ["manifest.json"%string]
  = Some (File data mode) ->
  UnmarshalManifest data = Some manifest ->
  exists m, ListActive ctx (pm, w) = (Ok m, (pm, w)) /\ m !! vmid = Some manifest.
Proof.
  intros base Hw Hdir Hne [nd Hnd] Hact Hslash Hat Hfile Hparse.
  unfold ListActive. rewrite bind_getBaseDir. fold base.
  erewrite bind_step
    by (apply catch_step, os_step, ReadDir_healthy; [exact Hw|exact Hdir]).
  apply listActiveEntries_complete with (org := org) (name := name) (version := version).
  - exact Hw.
  - exact Hact.
  - now apply parseRef_clean.
  - eapply GetManifest_healthy; eassumption.
  - left. apply list_elem_of_fmap.
    exists (vmid, match nd with Dir => true | _ => false end). split; [reflexivity|].
    apply entries_elem. exists nd. split; [|reflexivity].
    rewrite <- Hnd. f_equal. unfold ActivePath, Join.
    rewrite <- app_assoc. f_equal. cbn [filter list_filter].
    unfold activeDir. simpl. rewrite !decide_True by (try discriminate; auto).
    reflexivity.
Qed.

End ListActiveSpec.

Lemma ListActive_sound_witness :
  let r := @ListActive RefCodec.json None fixtureInstalled in
  r = (Ok fixtureListed, snd r) /\
  fixtureListed !! "id"%string = Some fixtureStoredManifest /\
  (fst (snd r) = fst fixtureInstalled /\
   fs (snd (snd r)) = fs (snd fixtureInstalled) /\
   forall vmid manifest,
     fixtureListed !! vmid = Some manifest ->
     @reported RefCodec.json (fst fixtureInstalled) (fs (snd fixtureInstalled)) vmid manifest /\
     exists d nd,
       resolve maxLinks (fs (snd fixtureInstalled))
         (Join (PluginPackageManager.baseDir (fst fixtureInstalled)) [activeDir]) = Some d /\
       fs (snd fixtureInstalled) !! (d ++ [vmid]) = Some nd).
Proof.
  intros r.
  assert (H : @ListActive RefCodec.json None (fst fixtureInstalled, snd fixtureInstalled)
              = (Ok fixtureListed, snd r)) by (vm_compute; reflexivity).
  split; [exact H|]. split; [vm_compute; reflexivity|].
  exact (@ListActive_sound RefCodec.json None _ _ _ _ H).
Defined.

Lemma ListActive_complete_witness :
  let pm := fst fixtureInstalled in
  let w := snd fixtureInstalled in
  faults w = [] /\
  fs w !! Join (PluginPackageManager.baseDir pm) [activeDir] = Some Dir /\
  is_Some (fs w !! ActivePath (PluginPackageManager.baseDir pm) "id") /\
  PluginRegistry.Active (PluginPackageManager.registry pm) !! "id"%string
  = Some (pkgRefOf "luxfi" "evm" "v1") /\
  fs w !! Join (PackagePath (PluginPackageManager.baseDir pm) "luxfi" "evm" "v1")
               ["manifest.json"%string]
  = Some (File fixtureManifestData perm644) /\
  UnmarshalManifest (JSON := RefCodec.json) fixtureManifestData = Some fixtureStoredManifest /\
  exists m, @ListActive RefCodec.json None (pm, w) = (Ok m, (pm, w)) /\
            m !! "id"%string = Some fixtureStoredManifest.
Proof.
  intros pm w.
  assert (H1 : faults w = []) by reflexivity.
  assert (H2 : fs w !! Join (PluginPackageManager.baseDir pm) [activeDir] = Some Dir)
    by (vm_compute; reflexivity).
  assert (H3 : is_Some (fs w !! ActivePath (PluginPackageManager.baseDir pm) "id"))
    by (eexists; vm_compute; reflexivity).
  assert (H4 : PluginRegistry.Active (PluginPackageManager.registry pm) !! "id"%string
               = Some (pkgRefOf "luxfi" "evm" "v1")) by (vm_compute; reflexivity).
  assert (H5 : fs w !! Join (PackagePath (PluginPackageManager.baseDir pm) "luxfi" "evm" "v1")
                            ["manifest.json"%string]
               = Some (File fixtureManifestData perm644)) by (vm_compute; reflexivity).
  assert (H6 : UnmarshalManifest (JSON := RefCodec.json) fixtureManifestData
               = Some fixtureStoredManifest) by (vm_compute; reflexivity).
  repeat (split; [assumption|]).
  apply (@ListActive_complete RefCodec.json None pm w "id" "luxfi" "evm" "v1"
           fixtureManifestData perm644 fixtureStoredManifest);
    [exact H1|exact H2|discriminate|exact H3|exact H4|reflexivity|reflexivity|exact H5|exact H6].
Defined.

(** ** loader.go: the flat plugin directory *)

Lemma Stat_missing p w q :
  resolve maxLinks (fs w) p = Some q -> fs w !! q = None ->
  Stat p w = (Err ENOENT, with_fs (fs w) (consulted w)).
Proof.
  intros Hres Hq. unfold Stat. apply syscall_natural_error. now rewrite Hres, Hq.
Qed.

Lemma Stat_missing_inv p w w' :
  Stat p w = (Err ENOENT, w') ->
  fs w' = fs w /\ exists q, resolve maxLinks (fs w) p = Some q /\ fs w !! q = None.
Proof.
  unfold Stat. rewrite syscall_unfold.
  destruct (resolve maxLinks (fs w) p) as [q|] eqn:Hres.
  - destruct (fs w !! q) eqn:Hq; destruct (hd Fine (faults w));
      intros [= <-]; try discriminate; eauto.
  - destruct (hd Fine (faults w)); discriminate.
Qed.

Lemma Exists_missing pm vmID w q :
  resolve maxLinks (fs w) (DefaultPluginManager.GetPath pm vmID) = Some q ->
  fs w !! q = None ->
  fst (DefaultPluginManager.Exists pm vmID w) = Ok false.
Proof.
  intros Hres Hq. unfold DefaultPluginManager.Exists.
  erewrite bind_step by (apply catch_stop; eapply Stat_missing; eassumption).
  reflexivity.
Qed.

(** X15. After [Uninstall] has returned nil, [Exists] reports the plugin
    missing. *)
Theorem FlatUninstall_then_Exists pm ctx vmID w w' :
  DefaultPluginManager.Uninstall pm ctx vmID w = (Ok tt, w') ->
  fst (DefaultPluginManager.Exists pm vmID w') = Ok false.
Proof.
  unfold DefaultPluginManager.Uninstall. intros H.
  apply bind_ok in H as (st & w1 & Hst & H). apply catch_ok in Hst.
  assert (Hrm : wrap "failed to remove plugin"
                  (Remove (DefaultPluginManager.GetPath pm vmID)) w1 = (Ok tt, w') ->
                fst (DefaultPluginManager.Exists pm vmID w') = Ok false).
  { intros Hrm. apply wrap_ok, Remove_gone in Hrm.
    eapply Exists_missing; [|exact Hrm].
    apply resolve_not_link, link_at_absent, Hrm. }
  destruct st as [info|err]; [now apply Hrm|].
  destruct (IsNotExist err) eqn:He; [|now apply Hrm].
  destruct err; try discriminate. injection H as <-.
  apply Stat_missing_inv in Hst as (Hfs & q & Hres & Hq).
  eapply Exists_missing; rewrite Hfs; eassumption.
Qed.

(** X16. A plugin that is a symbolic link whose target is gone: [os.Stat] reports
    it missing, so [Uninstall] returns nil without removing anything.  The
    dangling link stays in the plugin directory, and [Exists] reports the
    plugin missing as it did before. *)
Theorem FlatUninstall_dangling pm ctx vmID w t q :
  fs w !! DefaultPluginManager.GetPath pm vmID = Some (Symlink t) ->
  resolve maxLinks (fs w) (DefaultPluginManager.GetPath pm vmID) = Some q ->
  fs w !! q = None ->
  exists w',
    DefaultPluginManager.Uninstall pm ctx vmID w = (Ok tt, w') /\
    fs w' !! DefaultPluginManager.GetPath pm vmID = Some (Symlink t) /\
    fst (DefaultPluginManager.Exists pm vmID w') = Ok false.
Proof.
  intros Hl Hres Hq. unfold DefaultPluginManager.Uninstall.
  erewrite bind_step by (apply catch_stop; eapply Stat_missing; eassumption).
  cbn [IsNotExist]. eexists. split; [reflexivity|]. cbn [fs with_fs].
  split; [exact Hl|]. eapply Exists_missing; cbn [fs with_fs]; eassumption.
Qed.

Lemma FlatUninstall_then_Exists_witness :
  let r := DefaultPluginManager.Uninstall flatManager None "vm" flatWorld in
  fst (DefaultPluginManager.Exists flatManager "vm" flatWorld) = Ok true /\
  r = (Ok tt, snd r) /\
  fst (DefaultPluginManager.Exists flatManager "vm" (snd r)) = Ok false.
Proof.
  intros r.
  assert (H : DefaultPluginManager.Uninstall flatManager None "vm" flatWorld
              = (Ok tt, snd r)) by (vm_compute; reflexivity).
  split; [vm_compute; reflexivity|]. split; [exact H|].
  exact (FlatUninstall_then_Exists flatManager None "vm" flatWorld (snd r) H).
Defined.

Lemma FlatUninstall_dangling_witness :
  fs flatWorld !! DefaultPluginManager.GetPath flatManager "old"
  = Some (Symlink (Abs ["src"; "gone"]%string)) /\
  resolve maxLinks (fs flatWorld) (DefaultPluginManager.GetPath flatManager "old")
  = Some ["src"; "gone"]%string /\
  fs flatWorld !! ["src"; "gone"]%string = None /\
  exists w',
    DefaultPluginManager.Uninstall flatManager None "old" flatWorld = (Ok tt, w') /\
    fs w' !! DefaultPluginManager.GetPath flatManager "old"
    = Some (Symlink (Abs ["src"; "gone"]%string)) /\
    fst (DefaultPluginManager.Exists flatManager "old" w') = Ok false.
Proof.
  assert (H1 : fs flatWorld !! DefaultPluginManager.GetPath flatManager "old"
               = Some (Symlink (Abs ["src"; "gone"]%string))) by (vm_compute; reflexivity).
  assert (H2 : resolve maxLinks (fs flatWorld) (DefaultPluginManager.GetPath flatManager "old")
               = Some ["src"; "gone"]%string) by (vm_compute; reflexivity).
  assert (H3 : fs flatWorld !! ["src"; "gone"]%string = None) by (vm_compute; reflexivity).
  repeat (split; [assumption|]).
  exact (FlatUninstall_dangling flatManager None "old" flatWorld _ _ H1 H2 H3).
Defined.

(** ** loader.go: linking a plugin *)

Lemma syscall_faults {A} (run : gmap path node -> result A * gmap path node) broken w :
  faults (snd (syscall run broken w)) = tail (faults w) /\
  cwd (snd (syscall run broken w)) = cwd w.
Proof.
  rewrite syscall_unfold.
  destruct (run (fs w)) as [[a|e|msg] f']; destruct (hd Fine (faults w)); auto.
Qed.

Lemma syscall_stays_healthy {A} (run : gmap path node -> result A * gmap path node)
    broken w r w' :
  syscall run broken w = (r, w') -> faults w = [] -> faults w' = [].
Proof.
  intros H Hw. pose proof (syscall_faults run broken w) as [Hf _].
  rewrite H, Hw in Hf. exact Hf.
Qed.

Ltac healthy_of H Hh :=
  let H' := fresh in
  pose proof H as H';
  unfold Stat, Lstat, LstatLink, Remove, RemoveAll, MkSymlink, MkdirAll, ReadFile,
         WriteFile, Readlink, ReadDir, Chmod, Open, OpenFile, Read, Write in H';
  pose proof (syscall_stays_healthy _ _ _ _ _ H') as Hh;
  clear H'.

Lemma mkdirs_keeps qs f q nd :
  f !! q = Some nd -> snd (mkdirs qs f) !! q = Some nd.
Proof.
  revert f. induction qs as [|x qs IH]; intros f Hq; cbn [mkdirs]; [exact Hq|].
  destruct (f !! x) as [[d m| |t]|] eqn:Hx; cbn [snd]; auto.
  - destruct (resolve maxLinks f x) as [q'|]; [|exact Hq].
    destruct (f !! q') as [[| |]|]; auto.
  - apply IH. rewrite lookup_insert_ne; [exact Hq|]. intros ->. congruence.
Qed.

Lemma mkdirs_no_panic qs f msg : fst (mkdirs qs f) ≠ Panic msg.
Proof.
  revert f. induction qs as [|x qs IH]; intros f; cbn [mkdirs]; [discriminate|].
  destruct (f !! x) as [[d m| |t]|]; try discriminate; auto.
  destruct (resolve maxLinks f x) as [q'|]; [|discriminate].
  destruct (f !! q') as [[| |]|]; try discriminate; auto.
Qed.

Lemma MkdirAll_any p w r w' :
  MkdirAll p w = (r, w') ->
  cwd w' = cwd w /\
  (forall x, link_at (fs w') x = link_at (fs w) x) /\
  (forall q nd, fs w !! q = Some nd -> fs w' !! q = Some nd) /\
  (forall msg, r ≠ Panic msg) /\
  (faults w = [] -> faults w' = []).
Proof.
  intros H.
  pose proof (syscall_faults (mkdirs (prefixes p)) unchanged w) as [_ Hc].
  healthy_of H Hh.
  unfold MkdirAll in H. rewrite H in Hc. cbn [snd] in Hc.
  split; [exact Hc|]. rewrite syscall_unfold in H.
  pose proof (mkdirs_links (prefixes p) (fs w)) as Hl.
  pose proof (mkdirs_keeps (prefixes p) (fs w)) as Hk.
  pose proof (mkdirs_no_panic (prefixes p) (fs w)) as Hn.
  destruct (mkdirs (prefixes p) (fs w)) as [[[]|e|msg] f']; cbn [fst snd] in *;
    destruct (hd Fine (faults w)); injection H as <- <-; cbn [fs with_fs];
    unfold unchanged; repeat split; auto; try discriminate;
    try (intros msg' E; now apply (Hn msg')).
Qed.

Lemma Stat_result p w r w' :
  Stat p w = (r, w') ->
  fs w' = fs w /\ cwd w' = cwd w /\ (faults w = [] -> faults w' = []) /\
  match r with
  | Ok info =>
      exists q nd, resolve maxLinks (fs w) p = Some q /\ fs w !! q = Some nd /\
                   info = info_of nd
  | Err _ => True
  | Panic _ => False
  end.
Proof.
  intros H.
  healthy_of H Hh.
  pose proof (Stat_fs _ _ _ _ H) as Hfs.
  assert (Hc : cwd w' = cwd w).
  { unfold Stat in H.
    match type of H with
    | syscall ?run ?b _ = _ => pose proof (syscall_faults run b w) as [_ Hc]
    end.
    rewrite H in Hc. exact Hc. }
  split; [exact Hfs|]. split; [exact Hc|]. split; [exact Hh|].
  unfold Stat in H. rewrite syscall_unfold in H.
  destruct (resolve maxLinks (fs w) p) as [q|]; [destruct (fs w !! q) as [nd|] eqn:Hq|];
    destruct (hd Fine (faults w)); injection H as <- _; eauto.
Qed.

Lemma FlatLink_ok pm vmID binaryPath w w' :
  DefaultPluginManager.Link pm vmID binaryPath w = (Ok tt, w') ->
  let absPath := absolute w binaryPath in
  let linkPath := DefaultPluginManager.GetPath pm vmID in
  exists w1 q nd,
    (forall x, link_at (fs w1) x = link_at (fs w) x) /\
    (forall p n, fs w !! p = Some n -> fs w1 !! p = Some n) /\
    resolve maxLinks (fs w1) absPath = Some q /\ fs w1 !! q = Some nd /\
    notExecutable (info_of nd) = false /\
    fs w' = <[linkPath := Symlink (Abs absPath)]> (fs w1) /\
    (faults w = [] -> faults w' = []).
Proof.
  intros H absPath linkPath. unfold DefaultPluginManager.Link in H.
  apply bind_ok in H as ([] & w1 & Hmk & H).
  apply wrap_ok in Hmk. unfold DefaultPluginManager.EnsureDir in Hmk.
  apply MkdirAll_any in Hmk as (Hcwd & Hlinks & Hkeeps & _ & Hh1).
  apply bind_ok in H as (w1' & w1'' & Hget & H). injection Hget as <- <-.
  assert (Habs : absolute w1 binaryPath = absPath).
  { unfold absPath, absolute. destruct binaryPath; [reflexivity|]. now rewrite Hcwd. }
  rewrite Habs in H.
  apply bind_ok in H as (info & w2 & Hst & H).
  apply wrap_ok, Stat_result in Hst as (Hfs2 & _ & Hh2 & q & nd & Hres & Hq & ->).
  destruct (notExecutable (info_of nd)) eqn:Hx; [discriminate|].
  fold linkPath in H.
  apply bind_ok in H as (st & w3 & Hls & H). apply catch_ok in Hls.
  apply bind_ok in H as ([] & w4 & Hrm & H).
  apply wrap_ok in H.
  healthy_of H Hh5.
  apply MkSymlink_ok in H as (_ & Hfs5).
  assert (H4 : (faults w2 = [] -> faults w4 = []) /\
               forall x, <[linkPath := x]> (fs w4) = <[linkPath := x]> (fs w2)).
  { destruct st as [i|e].
    - healthy_of Hls Hh3.
      apply Lstat_fs in Hls. apply wrap_ok in Hrm.
      healthy_of Hrm Hh4.
      apply Remove_ok in Hrm. split; [auto|]. intros x.
      rewrite Hrm, Hls. apply insert_delete_eq.
    - healthy_of Hls Hh3.
      apply Lstat_fs in Hls. injection Hrm as <-. split; [auto|]. intros x.
      now rewrite Hls. }
  destruct H4 as [Hh4 Hfs4].
  exists w1, q, nd. repeat split; auto.
  rewrite Hfs5, Hfs4, Hfs2. reflexivity.
Qed.

Lemma LstatLink_healthy p w :
  faults w = [] ->
  LstatLink p w
  = (match fs w !! p with
     | Some nd => Ok (info_of nd, match nd with Symlink _ => true | _ => false end)
     | None => Err ENOENT
     end, w).
Proof.
  intros Hw. unfold LstatLink. rewrite syscall_healthy by exact Hw.
  destruct (fs w !! p); cbn [fst snd]; now rewrite with_fs_same.
Qed.

Lemma LstatLink_found p w nd :
  faults w = [] -> fs w !! p = Some nd ->
  LstatLink p w
  = (Ok (info_of nd, match nd with Symlink _ => true | _ => false end), w).
Proof. intros Hw Hp. rewrite LstatLink_healthy by exact Hw. now rewrite Hp. Qed.

Lemma Readlink_healthy p w t :
  faults w = [] -> fs w !! p = Some (Symlink t) -> Readlink p w = (Ok t, w).
Proof.
  intros Hw Hp. unfold Readlink. rewrite syscall_healthy by exact Hw.
  rewrite Hp. cbn [fst snd]. now rewrite with_fs_same.
Qed.

Lemma Stat_healthy p w nd :
  faults w = [] -> link_at (fs w) p = None -> fs w !! p = Some nd ->
  Stat p w = (Ok (info_of nd), w).
Proof.
  intros Hw Hl Hp. unfold Stat. rewrite syscall_healthy by exact Hw.
  rewrite resolve_not_link by exact Hl. rewrite Hp. cbn [fst snd]. now rewrite with_fs_same.
Qed.

(** X17. After [Link] has returned nil on a healthy system the plugin is a
    symbolic link to the absolute path of the binary: [IsSymlink] holds and
    [GetTarget] returns that path. *)
Theorem FlatLink_target pm vmID binaryPath w w' :
  faults w = [] ->
  DefaultPluginManager.Link pm vmID binaryPath w = (Ok tt, w') ->
  fs w' !! DefaultPluginManager.GetPath pm vmID
  = Some (Symlink (Abs (absolute w binaryPath))) /\
  fst (DefaultPluginManager.IsSymlink pm vmID w') = Ok true /\
  fst (DefaultPluginManager.GetTarget pm vmID w') = Ok (Abs (absolute w binaryPath)).
Proof.
  intros Hw H. apply FlatLink_ok in H as (w1 & q & nd & _ & _ & _ & _ & _ & Hfs & Hh).
  specialize (Hh Hw).
  assert (Hl : fs w' !! DefaultPluginManager.GetPath pm vmID
               = Some (Symlink (Abs (absolute w binaryPath)))).
  { rewrite Hfs. apply lookup_insert_eq. }
  assert (Hsym : DefaultPluginManager.IsSymlink pm vmID w' = (Ok true, w')).
  { unfold DefaultPluginManager.IsSymlink.
    erewrite bind_step by (eapply catch_step, LstatLink_found; eassumption).
    reflexivity. }
  split; [exact Hl|]. split; [now rewrite Hsym|].
  unfold DefaultPluginManager.GetTarget. erewrite bind_step by exact Hsym.
  cbn [negb]. erewrite Readlink_healthy by eassumption. reflexivity.
Qed.

(** X18. When the binary is a regular file other than the plugin path itself,
    a [Link] that returned nil leaves the binary as it was, and [Verify]
    then accepts the plugin. *)
Theorem FlatLink_verify pm vmID binaryPath w w' data mode :
  faults w = [] ->
  fs w !! absolute w binaryPath = Some (File data mode) ->
  absolute w binaryPath ≠ DefaultPluginManager.GetPath pm vmID ->
  DefaultPluginManager.Link pm vmID binaryPath w = (Ok tt, w') ->
  fs w' !! absolute w binaryPath = Some (File data mode) /\
  fst (DefaultPluginManager.Verify pm vmID w') = Ok tt.
Proof.
  intros Hw Hbin Hne H.
  apply FlatLink_ok in H as (w1 & q & nd & Hlinks & Hkeeps & Hres & Hq & Hx & Hfs & Hh).
  specialize (Hh Hw). set (absPath := absolute w binaryPath) in *.
  pose proof (Hkeeps _ _ Hbin) as Hbin1.
  rewrite resolve_not_link in Hres by (eapply link_at_file, Hbin1).
  injection Hres as <-. rewrite Hbin1 in Hq. injection Hq as <-.
  assert (Hbin' : fs w' !! absPath = Some (File data mode)).
  { rewrite Hfs, lookup_insert_ne by auto. exact Hbin1. }
  split; [exact Hbin'|].
  unfold DefaultPluginManager.Verify.
  erewrite bind_step
    by (eapply catch_step, LstatLink_found; [exact Hh|rewrite Hfs; apply lookup_insert_eq]).
  cbv beta iota.
  erewrite bind_step; [rewrite Hx; reflexivity|].
  erewrite bind_step
    by (apply wrap_step, Readlink_healthy; [exact Hh|rewrite Hfs; apply lookup_insert_eq]).
  cbn [target_path].
  erewrite bind_step
    by (apply catch_step, Stat_healthy; [exact Hh|eapply link_at_file, Hbin'|exact Hbin']).
  reflexivity.
Qed.

(** X19. [Link] does not return nil for a binary without an execute bit, and
    whatever was in the file system, the plugin that may have been
    installed included, is still there when it returns. *)
Theorem FlatLink_not_executable pm vmID binaryPath w q nd :
  resolve maxLinks (fs w) (absolute w binaryPath) = Some q ->
  fs w !! q = Some nd ->
  notExecutable (info_of nd) = true ->
  exists e w',
    DefaultPluginManager.Link pm vmID binaryPath w = (Err e, w') /\
    forall p n, fs w !! p = Some n -> fs w' !! p = Some n.
Proof.
  intros Hres Hq Hx. unfold DefaultPluginManager.Link, DefaultPluginManager.EnsureDir.
  destruct (MkdirAll (DefaultPluginManager.pluginDir pm) w) as [r1 w1] eqn:Hmk.
  pose proof (MkdirAll_any _ _ _ _ Hmk) as (Hcwd & Hlinks & Hkeeps & Hnp & _).
  destruct r1 as [[]|e|msg]; [| |now destruct (Hnp msg)].
  2:{ erewrite bind_stop by (apply wrap_stop, Hmk). eauto. }
  erewrite bind_step by (apply wrap_step, Hmk).
  unfold bind at 1. cbn [get].
  assert (Habs : absolute w1 binaryPath = absolute w binaryPath).
  { unfold absolute. destruct binaryPath; [reflexivity|]. now rewrite Hcwd. }
  rewrite Habs.
  destruct (Stat (absolute w binaryPath) w1) as [r2 w2] eqn:Hst.
  pose proof (Stat_result _ _ _ _ Hst) as (Hfs2 & _ & _ & Hr).
  assert (Hkeeps2 : forall p n, fs w !! p = Some n -> fs w2 !! p = Some n).
  { intros p n Hp. rewrite Hfs2. auto. }
  destruct r2 as [info|e|msg]; [| |contradiction].
  - erewrite bind_step by (apply wrap_step, Hst).
    destruct Hr as (q' & nd' & Hres' & Hq' & ->).
    rewrite (resolve_same_links _ _ _ _ Hlinks), Hres in Hres'. injection Hres' as <-.
    rewrite (Hkeeps _ _ Hq) in Hq'. injection Hq' as <-.
    rewrite Hx. eauto.
  - erewrite bind_stop by (apply wrap_stop, Hst). eauto.
Qed.

Lemma FlatLink_target_witness :
  let binary := Abs ["bin"; "vm"]%string in
  let r := DefaultPluginManager.Link flatManager "vmid" binary legacyWorld in
  faults legacyWorld = [] /\
  r = (Ok tt, snd r) /\
  fs (snd r) !! DefaultPluginManager.GetPath flatManager "vmid"
  = Some (Symlink (Abs ["bin"; "vm"]%string)) /\
  fst (DefaultPluginManager.IsSymlink flatManager "vmid" (snd r)) = Ok true /\
  fst (DefaultPluginManager.GetTarget flatManager "vmid" (snd r))
  = Ok (Abs ["bin"; "vm"]%string).
Proof.
  intros binary r.
  assert (H : DefaultPluginManager.Link flatManager "vmid" binary legacyWorld
              = (Ok tt, snd r)) by (vm_compute; reflexivity).
  split; [reflexivity|]. split; [exact H|].
  exact (FlatLink_target flatManager "vmid" binary legacyWorld (snd r) eq_refl H).
Defined.

Lemma FlatLink_verify_witness :
  let binary := Abs ["bin"; "vm"]%string in
  let r := DefaultPluginManager.Link flatManager "vmid" binary legacyWorld in
  faults legacyWorld = [] /\
  fs legacyWorld !! absolute legacyWorld binary = Some (File [1; 2; 3] perm755) /\
  absolute legacyWorld binary ≠ DefaultPluginManager.GetPath flatManager "vmid" /\
  r = (Ok tt, snd r) /\
  fs (snd r) !! absolute legacyWorld binary = Some (File [1; 2; 3] perm755) /\
  fst (DefaultPluginManager.Verify flatManager "vmid" (snd r)) = Ok tt.
Proof.
  intros binary r.
  assert (H : DefaultPluginManager.Link flatManager "vmid" binary legacyWorld
              = (Ok tt, snd r)) by (vm_compute; reflexivity).
  assert (Hb : fs legacyWorld !! absolute legacyWorld binary
               = Some (File [1; 2; 3] perm755)) by (vm_compute; reflexivity).
  assert (Hne : absolute legacyWorld binary ≠ DefaultPluginManager.GetPath flatManager "vmid")
    by (vm_compute; discriminate).
  split; [reflexivity|]. split; [exact Hb|]. split; [exact Hne|]. split; [exact H|].
  exact (FlatLink_verify flatManager "vmid" binary legacyWorld (snd r) _ _ eq_refl Hb Hne H).
Defined.

Lemma FlatLink_not_executable_witness :
  resolve maxLinks (fs fixtureWorld) (absolute fixtureWorld fixtureSource)
  = Some ["src"; "evm"]%string /\
  fs fixtureWorld !! ["src"; "evm"]%string = Some (File [1; 2; 3] perm644) /\
  notExecutable (info_of (File [1; 2; 3] perm644)) = true /\
  exists e w',
    DefaultPluginManager.Link flatManager "vmid" fixtureSource fixtureWorld = (Err e, w') /\
    forall p n, fs fixtureWorld !! p = Some n -> fs w' !! p = Some n.
Proof.
  assert (H1 : resolve maxLinks (fs fixtureWorld) (absolute fixtureWorld fixtureSource)
               = Some ["src"; "evm"]%string) by (vm_compute; reflexivity).
  assert (H2 : fs fixtureWorld !! ["src"; "evm"]%string = Some (File [1; 2; 3] perm644))
    by (vm_compute; reflexivity).
  assert (H3 : notExecutable (info_of (File [1; 2; 3] perm644)) = true)
    by (vm_compute; reflexivity).
  repeat (split; [assumption|]).
  exact (FlatLink_not_executable flatManager "vmid" fixtureSource fixtureWorld _ _ H1 H2 H3).
Defined.

(** ** plugins.go: what [Install] copies *)








(** ** plugins.go: a complete copy *)

Lemma mkdirs_other qs f (p : path) :
  p ∉ qs -> snd (mkdirs qs f) !! p = f !! p.
Proof.
  revert f. induction qs as [|x qs IH]; intros f Hp; cbn [mkdirs]; [reflexivity|].
  apply not_elem_of_cons in Hp as [Hne Hp].
  destruct (f !! x) as [[d m| |t]|] eqn:Hx; cbn [snd]; auto.
  - destruct (resolve maxLinks f x) as [q'|]; [|reflexivity].
    destruct (f !! q') as [[| |]|]; auto.
  - rewrite IH by exact Hp. now rewrite lookup_insert_ne.
Qed.

Lemma prefixes_shorter (p q : path) : q ∈ prefixes p -> (length q <= length p)%nat.
Proof.
  unfold prefixes. intros H. apply list_elem_of_fmap in H as (n & -> & _).
  rewrite length_take. lia.
Qed.

Lemma Join_one base (name : string) : name ≠ ""%string -> Join base [name] = base ++ [name].
Proof.
  intros H. unfold Join. cbn [filter list_filter]. now rewrite decide_True.
Qed.






(** ** Activation *)

Section ActivateMore.
Context {J : JSON}.

(** X5. [Activate] binds the identifier of the manifest stored for the version
    (not one given by the caller) and points [current/<identifier>] at the
    path of the binary in the directory of that version; the version lists
    are left alone. *)
Theorem Activate_binds ctx org name version (pm : PluginPackageManager.t)
    (w : World) (s1 : PM) :
  Activate ctx org name version (pm, w) = (Ok tt, s1) ->
  let base := PluginPackageManager.baseDir pm in
  let pkgPath := PackagePath base org name version in
  exists manifest,
    reported_at pm (fs w) org name version manifest /\
    let binaryName :=
      if decide (PluginManifest.Binary manifest = ""%string) then name
      else PluginManifest.Binary manifest in
    PluginPackageManager.baseDir (fst s1) = base /\
    PluginRegistry.Active (PluginPackageManager.registry (fst s1))
    = <[PluginManifest.VMID manifest := pkgRefOf org name version]>
        (PluginRegistry.Active (PluginPackageManager.registry pm)) /\
    plugins_of s1 = PluginRegistry.Plugins (PluginPackageManager.registry pm) /\
    link_at (fs (snd s1)) (ActivePath base (PluginManifest.VMID manifest))
    = Some (Abs (Join pkgPath [binaryName])).
Proof.
  intros H base pkgPath.
  apply Activate_ok in H as (data & manifest & now & (q & mode & Hres & Hq) & Hparse & H).
  cbn zeta in H. destruct H as [Hpm Hfs].
  exists manifest. split; [exists q, data, mode; auto|]. cbn zeta.
  unfold plugins_of. rewrite Hpm. cbn. repeat split.
  pose proof (f_equal snd Hfs) as Hsnd. cbn [snd] in Hsnd.
  rewrite <- Hsnd, store_links. apply link_at_insert_link.
Qed.

(** X6. [Activate] of a version whose manifest is missing returns the error of
    the read, wrapped twice, and changes neither the registry kept in
    memory nor the file system. *)
Theorem Activate_unknown ctx org name version (pm : PluginPackageManager.t)
    (w : World) q :
  resolve maxLinks (fs w)
    (Join (PackagePath (PluginPackageManager.baseDir pm) org name version)
          ["manifest.json"%string]) = Some q ->
  fs w !! q = None ->
  exists w',
    Activate ctx org name version (pm, w)
    = (Err (Wrapf "failed to load manifest" (Wrapf "failed to read manifest" ENOENT)),
       (pm, w')) /\
    fs w' = fs w.
Proof.
  intros Hres Hq. unfold Activate, GetManifest.
  eexists. split.
  - erewrite bind_stop; [reflexivity|]. apply wrap_stop.
    rewrite bind_getBaseDir. erewrite bind_stop; [reflexivity|].
    apply wrap_stop, os_step. unfold ReadFile. apply syscall_natural_error.
    now rewrite Hres, Hq.
  - reflexivity.
Qed.

End ActivateMore.

Lemma Activate_binds_witness :
  let r := @Activate RefCodec.json None "luxfi" "evm" "v1" fixtureInstalled in
  let pm := fst fixtureInstalled in
  let base := PluginPackageManager.baseDir pm in
  r = (Ok tt, snd r) /\
  exists manifest,
    @reported_at RefCodec.json pm (fs (snd fixtureInstalled)) "luxfi" "evm" "v1" manifest /\
    let binaryName :=
      if decide (PluginManifest.Binary manifest = ""%string) then "evm"%string
      else PluginManifest.Binary manifest in
    PluginPackageManager.baseDir (fst (snd r)) = base /\
    PluginRegistry.Active (PluginPackageManager.registry (fst (snd r)))
    = <[PluginManifest.VMID manifest := pkgRefOf "luxfi" "evm" "v1"]>
        (PluginRegistry.Active (PluginPackageManager.registry pm)) /\
    plugins_of (snd r) = PluginRegistry.Plugins (PluginPackageManager.registry pm) /\
    link_at (fs (snd (snd r))) (ActivePath base (PluginManifest.VMID manifest))
    = Some (Abs (Join (PackagePath base "luxfi" "evm" "v1") [binaryName])).
Proof.
  intros r pm base.
  assert (H : @Activate RefCodec.json None "luxfi" "evm" "v1"
                (fst fixtureInstalled, snd fixtureInstalled) = (Ok tt, snd r))
    by (vm_compute; reflexivity).
  split; [exact H|].
  exact (@Activate_binds RefCodec.json None "luxfi" "evm" "v1" _ _ _ H).
Defined.

Lemma Activate_unknown_witness :
  let pm := fst fixtureStart in
  let w := snd fixtureStart in
  let manifestPath :=
    Join (PackagePath (PluginPackageManager.baseDir pm) "luxfi" "evm" "v9")
         ["manifest.json"%string] in
  resolve maxLinks (fs w) manifestPath = Some manifestPath /\
  fs w !! manifestPath = None /\
  exists w',
    @Activate RefCodec.json None "luxfi" "evm" "v9" (pm, w)
    = (Err (Wrapf "failed to load manifest" (Wrapf "failed to read manifest" ENOENT)),
       (pm, w')) /\
    fs w' = fs w.
Proof.
  intros pm w manifestPath.
  assert (H1 : resolve maxLinks (fs w) manifestPath = Some manifestPath)
    by (vm_compute; reflexivity).
  assert (H2 : fs w !! manifestPath = None) by (vm_compute; reflexivity).
  repeat (split; [assumption|]).
  exact (@Activate_unknown RefCodec.json None "luxfi" "evm" "v9" pm w manifestPath H1 H2).
Defined.

(** ** The registry file *)

Lemma ReadFile_resolved p w q data mode :
  faults w = [] -> resolve maxLinks (fs w) p = Some q -> fs w !! q = Some (File data mode) ->
  ReadFile p w = (Ok data, w).
Proof.
  intros Hw Hres Hq. unfold ReadFile. rewrite syscall_healthy by exact Hw.
  rewrite Hres, Hq. cbn [fst snd]. now rewrite with_fs_same.
Qed.

Section RegistryFile.
Context {J : JSON}.

(** X10. What [saveRegistry] wrote, [loadRegistry] reads back: on a healthy
    system a manager on the same base directory that loads the registry
    right after a save holds the registry that was saved, time stamp
    included, provided the JSON library reads back that document. *)
Theorem saveRegistry_loadRegistry (pm pm0 : PluginPackageManager.t) (w : World) (s1 : PM) :
  saveRegistry (pm, w) = (Ok tt, s1) ->
  faults (snd s1) = [] ->
  PluginPackageManager.baseDir pm0 = PluginPackageManager.baseDir pm ->
  UnmarshalRegistry (MarshalRegistry (PluginPackageManager.registry (fst s1)))
  = Some (PluginPackageManager.registry (fst s1)) ->
  loadRegistry (pm0, snd s1) = (Ok tt, s1).
Proof.
  intros H Hw Hbase Hcodec. unfold saveRegistry in H.
  apply bind_ok in H as (now & s2 & Hnow & H).
  apply os_inv in Hnow as (w2 & Hnow & ->). injection Hnow as <- <-.
  rewrite bind_getRegistry, bind_setRegistry, bind_getBaseDir in H.
  cbn [PluginPackageManager.baseDir PluginPackageManager.registry] in H.
  apply wrap_ok, os_inv in H as (w3 & Hwr & ->).
  apply WriteFile_ok, store_read in Hwr as (q & mode & Hres & Hq).
  cbn [fst snd PluginPackageManager.registry] in *.
  unfold loadRegistry. rewrite bind_getBaseDir, Hbase.
  erewrite bind_step
    by (apply catch_step, os_step; eapply ReadFile_resolved; eassumption).
  cbv beta iota. rewrite bind_setRegistry. rewrite Hcodec.
  unfold setRegistry. cbn [fst snd PluginPackageManager.baseDir]. now rewrite Hbase.
Qed.

End RegistryFile.

Lemma saveRegistry_loadRegistry_witness :
  let r := @saveRegistry RefCodec.json fixtureInstalled in
  let pm0 := PluginPackageManager.mk ["base"%string] zeroRegistry in
  r = (Ok tt, snd r) /\
  faults (snd (snd r)) = [] /\
  UnmarshalRegistry (JSON := RefCodec.json)
    (MarshalRegistry (JSON := RefCodec.json) (PluginPackageManager.registry (fst (snd r))))
  = Some (PluginPackageManager.registry (fst (snd r))) /\
  @loadRegistry RefCodec.json (pm0, snd (snd r)) = (Ok tt, snd r).
Proof.
  intros r pm0.
  assert (H : @saveRegistry RefCodec.json (fst fixtureInstalled, snd fixtureInstalled)
              = (Ok tt, snd r)) by (vm_compute; reflexivity).
  assert (Hc : UnmarshalRegistry (JSON := RefCodec.json)
                 (MarshalRegistry (JSON := RefCodec.json)
                    (PluginPackageManager.registry (fst (snd r))))
               = Some (PluginPackageManager.registry (fst (snd r))))
    by (vm_compute; reflexivity).
  split; [exact H|]. split; [reflexivity|]. split; [exact Hc|].
  exact (@saveRegistry_loadRegistry RefCodec.json (fst fixtureInstalled) pm0
           (snd fixtureInstalled) (snd r) H eq_refl eq_refl Hc).
Defined.

(** ** Legacy migration: what is not fatal *)

Section MigrationMore.
Context {J : JSON}.

Lemma ignore_never_err {S A} (m : IO S A) s e s' : ignore m s ≠ (Err e, s').
Proof. unfold ignore, bind, catch, ret. destruct (m s) as [[a|e'|msg] s1]; discriminate. Qed.

Lemma migrateEntries_never_err ctx legacyDir entries s e s' :
  migrateEntries ctx legacyDir entries s ≠ (Err e, s').
Proof.
  revert s. induction entries as [|entry rest IH]; intros s; cbn [migrateEntries];
    [discriminate|].
  destruct entry.2; [apply IH|].
  intros H.
  apply bind_inv in H as [(r & s1 & Hr & H)|[(e' & Hr & _)|(msg & _ & ?)]];
    [|now apply catch_never_err in Hr|discriminate].
  destruct r as [tgt|err]; [|now apply IH in H].
  apply bind_inv in H as [(short & s2 & Hs & H)|[(e' & Hs & _)|(msg & _ & ?)]];
    [| |discriminate].
  - apply bind_inv in H as [([] & s3 & Hi & H)|[(e' & Hi & _)|(msg & _ & ?)]];
      [now apply IH in H|now apply ignore_never_err in Hi|discriminate].
  - unfold slice_to in Hs. destruct (_ <? _)%nat; discriminate.
Qed.

(** X12. The only error that [MigrateFromLegacy] returns is the error of reading
    the legacy directory, when that is not "does not exist": what goes
    wrong with an entry is never returned.  A legacy directory that does
    not exist gives nil with the manager and the file system as they
    were. *)
Theorem MigrateFromLegacy_errors ctx (legacyDir : path)
    (pm : PluginPackageManager.t) (w : World) :
  (forall e s', MigrateFromLegacy ctx legacyDir (pm, w) = (Err e, s') ->
     os (ReadDir legacyDir) (pm, w) = (Err e, s') /\ IsNotExist e = false) /\
  (forall q, resolve maxLinks (fs w) legacyDir = Some q -> fs w !! q = None ->
     exists w', MigrateFromLegacy ctx legacyDir (pm, w) = (Ok tt, (pm, w')) /\
                fs w' = fs w).
Proof.
  split.
  - intros e s' H. unfold MigrateFromLegacy in H.
    apply bind_inv in H as [(r & s1 & Hr & H)|[(e' & Hr & _)|(msg & _ & ?)]];
      [|now apply catch_never_err in Hr|discriminate].
    destruct r as [entries|err]; [now apply migrateEntries_never_err in H|].
    apply catch_ok in Hr. destruct (IsNotExist err) eqn:He; [discriminate|].
    injection H as <- <-. auto.
  - intros q Hres Hq. unfold MigrateFromLegacy. eexists. split.
    + erewrite bind_step
        by (apply catch_stop, os_step; unfold ReadDir; apply syscall_natural_error;
            now rewrite Hres, Hq).
      reflexivity.
    + reflexivity.
Qed.

End MigrationMore.

Lemma MigrateFromLegacy_errors_witness :
  let pm := PluginPackageManager.mk ["base"%string] zeroRegistry in
  let r := @MigrateFromLegacy RefCodec.json None ["bin"; "vm"]%string (pm, legacyWorld) in
  r = (Err ENOTDIR, snd r) /\
  (os (ReadDir ["bin"; "vm"]%string) (pm, legacyWorld) = (Err ENOTDIR, snd r) /\
   IsNotExist ENOTDIR = false) /\
  resolve maxLinks (fs legacyWorld) ["nowhere"%string] = Some ["nowhere"%string] /\
  fs legacyWorld !! ["nowhere"%string] = None /\
  exists w', @MigrateFromLegacy RefCodec.json None ["nowhere"%string] (pm, legacyWorld)
             = (Ok tt, (pm, w')) /\ fs w' = fs legacyWorld.
Proof.
  intros pm r.
  assert (H : @MigrateFromLegacy RefCodec.json None ["bin"; "vm"]%string (pm, legacyWorld)
              = (Err ENOTDIR, snd r)) by (vm_compute; reflexivity).
  assert (H1 : resolve maxLinks (fs legacyWorld) ["nowhere"%string] = Some ["nowhere"%string])
    by (vm_compute; reflexivity).
  assert (H2 : fs legacyWorld !! ["nowhere"%string] = None) by (vm_compute; reflexivity).
  pose proof (@MigrateFromLegacy_errors RefCodec.json None ["bin"; "vm"]%string pm legacyWorld)
    as [Ha _].
  pose proof (@MigrateFromLegacy_errors RefCodec.json None ["nowhere"%string] pm legacyWorld)
    as [_ Hb].
  split; [exact H|]. split; [exact (Ha _ _ H)|]. split; [exact H1|]. split; [exact H2|].
  exact (Hb _ H1 H2).
Defined.

(** ** Links that a call leaves alone *)

Lemma syscall_link {A} (run : gmap path node -> result A * gmap path node) broken x w :
  (forall f, link_at (snd (run f)) x = link_at f x) ->
  (forall n f, link_at (broken n f) x = link_at f x) ->
  link_at (fs (snd (syscall run broken w))) x = link_at (fs w) x.
Proof.
  intros Hrun Hbr. rewrite syscall_unfold. pose proof (Hrun (fs w)) as Hf.
  destruct (run (fs w)) as [[a|e|msg] f']; cbn [snd] in Hf;
    destruct (hd Fine (faults w)); cbn [snd fs with_fs consulted]; auto.
Qed.



Lemma WriteFile_links p data perm x w :
  link_at (fs (snd (WriteFile p data perm w))) x = link_at (fs w) x.
Proof. apply syscall_link; intros; apply store_links. Qed.

Section LinkSpec.
Context {J : JSON}.




End LinkSpec.


(** ** Uninstalling removes the version *)




Section UninstallSpec.
Context {J : JSON}.


End UninstallSpec.


(** ** The layout that the constructor leaves *)





Section Constructor.
Context {J : JSON}.



End Constructor.


(** ** What [Install] leaves in the package directory *)






Section InstallCopies.
Context {J : JSON}.


End InstallCopies.


(** ** plugin_manager.go: the chain configurations *)

Lemma Exists_healthy p w :
  faults w = [] -> Paths.Exists p w = (Ok (exists_at (fs w) p), w).
Proof.
  intros Hw. unfold Paths.Exists, exists_at, bind, catch, Stat.
  rewrite syscall_healthy by exact Hw.
  destruct (resolve maxLinks (fs w) p) as [q|]; [destruct (fs w !! q)|];
    cbn [fst snd]; rewrite with_fs_same; reflexivity.
Qed.

Lemma exists_at_plain f p :
  link_at f p = None ->
  exists_at f p = match f !! p with Some _ => true | None => false end.
Proof. intros Hl. unfold exists_at. now rewrite resolve_not_link. Qed.

Lemma read_optional {B} p msg (k : list Z -> IO World B) w :
  faults w = [] -> link_at (fs w) p = None -> fs w !! p ≠ Some Dir ->
  bind (Paths.Exists p)
       (fun ok => bind (if ok then wrap msg (ReadFile p) else ret []) k) w
  = k (content (fs w) p) w.
Proof.
  intros Hw Hl Hd. erewrite bind_step by (apply Exists_healthy, Hw).
  rewrite exists_at_plain by exact Hl. unfold content.
  unfold link_at in Hl.
  destruct (fs w !! p) as [[data mode| |t]|] eqn:Hp; try discriminate; try contradiction.
  - erewrite bind_step by (eapply wrap_step, ReadFile_healthy; eassumption). reflexivity.
  - now rewrite bind_ret.
Qed.

Lemma write_optional p data msg w w' :
  link_at (fs w) p = None ->
  fs w !! p ≠ Some Dir ->
  (if (0 <? length data)%nat then wrap msg (WriteFile p data perm644) else ret tt) w
  = (Ok tt, w') ->
  (faults w = [] -> faults w' = []) /\
  (forall x, x ≠ p -> fs w' !! x = fs w !! x) /\
  (forall x, link_at (fs w') x = link_at (fs w) x) /\
  content (fs w') p = kept (fs w) p data /\
  (fs w' !! p ≠ Some Dir).
Proof.
  intros Hl Hd. unfold kept. destruct (0 <? length data)%nat.
  - intros H. apply wrap_ok in H. healthy_of H Hh.
    assert (Hlk : forall x, link_at (fs w') x = link_at (fs w) x).
    { intros x. pose proof (WriteFile_links p data perm644 x w) as Hx.
      now rewrite H in Hx. }
    apply WriteFile_ok, store_plain_inv in H as (mode & Hfs & _); [|exact Hl].
    split; [exact Hh|]. split; [|split; [exact Hlk|]].
    + intros x Hx. rewrite Hfs. now apply lookup_insert_ne.
    + unfold content. rewrite Hfs, lookup_insert_eq. split; [reflexivity|discriminate].
  - intros [= <-]. repeat split; auto.
Qed.

Lemma chain_file_fresh (dir : path) (file : string) (w w1 : World) :
  file ≠ ""%string ->
  MkdirAll dir w = (Ok tt, w1) ->
  fs w1 !! Join dir [file] = fs w !! Join dir [file].
Proof.
  intros Hf H. apply syscall_result in H as [H _].
  pose proof (f_equal snd H) as Hfs. cbn [snd] in Hfs. rewrite <- Hfs.
  apply mkdirs_other. intros Hin. apply prefixes_shorter in Hin.
  rewrite Join_one, length_app in Hin by exact Hf. cbn [length] in Hin. lia.
Qed.

Lemma chain_files_differ (dir : path) (a b : string) :
  a ≠ ""%string -> b ≠ ""%string -> a ≠ b -> Join dir [a] ≠ Join dir [b].
Proof.
  intros Ha Hb Hab. rewrite !Join_one by assumption. intros H.
  apply app_inv_head in H. congruence.
Qed.

(** X20. What [SaveChain] saved, [LoadChain] loads: on a system without
    faults, after a [SaveChain] of a configuration with a genesis that
    returned nil, [LoadChain] of that chain returns the genesis that was
    saved, and for the config and the upgrade the bytes that were saved;
    for an empty one, which [SaveChain] does not write, it returns what the
    file held before (the three files not being symbolic links or
    directories). *)
Theorem SaveChain_LoadChain (cm : ChainManager.t) (cc : ChainConfig.t) (w w' : World) :
  let name := ChainConfig.Name cc in
  let genesisPath := Paths.ChainGenesis (ChainManager.paths cm) name in
  let configPath := Paths.ChainConfig (ChainManager.paths cm) name in
  let upgradePath := Paths.ChainUpgrade (ChainManager.paths cm) name in
  faults w = [] ->
  ChainConfig.Genesis cc ≠ [] ->
  (forall p, p ∈ [genesisPath; configPath; upgradePath] ->
     link_at (fs w) p = None /\ fs w !! p ≠ Some Dir) ->
  ChainManager.SaveChain cm cc w = (Ok tt, w') ->
  ChainManager.LoadChain cm name w'
  = (Ok (ChainConfig.mk name (ChainConfig.Genesis cc)
           (kept (fs w) configPath (ChainConfig.Config cc))
           (kept (fs w) upgradePath (ChainConfig.Upgrade cc))), w').
Proof.
  intros name genesisPath configPath upgradePath Hw Hgen Hplain H.
  destruct (Hplain genesisPath) as [Hgl Hgd]; [rewrite !elem_of_cons; auto|].
  destruct (Hplain configPath) as [Hcl Hcd]; [rewrite !elem_of_cons; auto|].
  destruct (Hplain upgradePath) as [Hul Hud]; [rewrite !elem_of_cons; auto|].
  clear Hplain.
  unfold ChainManager.SaveChain in H. fold name genesisPath configPath upgradePath in H.
  apply bind_ok in H as ([] & w1 & Hmk & H). apply wrap_ok in Hmk.
  unfold Paths.EnsureChainDir, Paths.EnsureDir in Hmk.
  pose proof (chain_file_fresh _ Paths.GenesisFile _ _ ltac:(discriminate) Hmk) as Hg1.
  pose proof (chain_file_fresh _ Paths.ConfigFile _ _ ltac:(discriminate) Hmk) as Hc1.
  pose proof (chain_file_fresh _ Paths.UpgradeFile _ _ ltac:(discriminate) Hmk) as Hu1.
  fold (Paths.ChainGenesis (ChainManager.paths cm) name) in Hg1.
  fold (Paths.ChainConfig (ChainManager.paths cm) name) in Hc1.
  fold (Paths.ChainUpgrade (ChainManager.paths cm) name) in Hu1.
  fold genesisPath in Hg1. fold configPath in Hc1. fold upgradePath in Hu1.
  apply MkdirAll_any in Hmk as (_ & Hl1 & _ & _ & Hh1). specialize (Hh1 Hw).
  assert (Hgc : genesisPath ≠ configPath) by (apply chain_files_differ; discriminate).
  assert (Hgu : genesisPath ≠ upgradePath) by (apply chain_files_differ; discriminate).
  assert (Hcu : configPath ≠ upgradePath) by (apply chain_files_differ; discriminate).
  apply bind_ok in H as ([] & w2 & Hwg & H).
  apply write_optional in Hwg as (Hh2 & Ho2 & Hl2 & Hk2 & Hd2);
    [|now rewrite Hl1|now rewrite Hg1].
  apply bind_ok in H as ([] & w3 & Hwc & H).
  apply write_optional in Hwc as (Hh3 & Ho3 & Hl3 & Hk3 & Hd3);
    [|now rewrite Hl2, Hl1|rewrite Ho2, Hc1 by auto; exact Hcd].
  apply write_optional in H as (Hh4 & Ho4 & Hl4 & Hk4 & Hd4);
    [|now rewrite Hl3, Hl2, Hl1|rewrite Ho3, Ho2, Hu1 by auto; exact Hud].
  assert (Hh : faults w' = []) by auto.
  assert (Hlk : forall x, link_at (fs w') x = link_at (fs w) x).
  { intros x. now rewrite Hl4, Hl3, Hl2, Hl1. }
  (* the three files at the end *)
  assert (Hcont : forall f g (p : path), f !! p = g !! p -> content f p = content g p).
  { intros f g p E. unfold content. now rewrite E. }
  assert (Hkept : forall f g (p : path) d, f !! p = g !! p -> kept f p d = kept g p d).
  { intros f g p d E. unfold kept. now rewrite (Hcont f g p E). }
  assert (Hgen' : content (fs w') genesisPath = ChainConfig.Genesis cc).
  { rewrite (Hcont (fs w') (fs w2)) by (rewrite Ho4, Ho3 by auto; reflexivity).
    rewrite Hk2. unfold kept.
    destruct (ChainConfig.Genesis cc); [contradiction|reflexivity]. }
  assert (Hgf : fs w' !! genesisPath ≠ Some Dir) by (rewrite Ho4, Ho3 by auto; exact Hd2).
  assert (Hcfg' : content (fs w') configPath = kept (fs w) configPath (ChainConfig.Config cc)).
  { rewrite (Hcont (fs w') (fs w3)) by (rewrite Ho4 by auto; reflexivity).
    rewrite Hk3. apply Hkept. rewrite Ho2 by auto. exact Hc1. }
  assert (Hcf : fs w' !! configPath ≠ Some Dir) by (rewrite Ho4 by auto; exact Hd3).
  assert (Hupg' : content (fs w') upgradePath = kept (fs w) upgradePath (ChainConfig.Upgrade cc)).
  { rewrite Hk4. apply Hkept. rewrite Ho3, Ho2 by auto. exact Hu1. }
  (* loading *)
  unfold ChainManager.LoadChain. fold genesisPath configPath upgradePath.
  assert (Hrd : ReadFile genesisPath w' = (Ok (ChainConfig.Genesis cc), w')).
  { unfold content in Hgen'.
    destruct (fs w' !! genesisPath) as [[d m| |t]|] eqn:E.
    - subst d. eapply ReadFile_healthy; eassumption.
    - contradiction.
    - pose proof (Hlk genesisPath) as Hx. unfold link_at at 1 in Hx. rewrite E, Hgl in Hx.
      discriminate.
    - symmetry in Hgen'. contradiction. }
  erewrite bind_step by (apply wrap_step, Hrd).
  rewrite read_optional by (try exact Hh; try exact Hcf; now rewrite Hlk).
  rewrite read_optional by (try exact Hh; try exact Hd4; now rewrite Hlk).
  now rewrite Hcfg', Hupg'.
Qed.

Lemma SaveChain_LoadChain_witness :
  let cc := ChainConfig.mk "zoo" [9; 9] [] [7] in
  let r := ChainManager.SaveChain chainManager cc chainWorld in
  let configPath := Paths.ChainConfig (ChainManager.paths chainManager) "zoo" in
  let upgradePath := Paths.ChainUpgrade (ChainManager.paths chainManager) "zoo" in
  faults chainWorld = [] /\
  r = (Ok tt, snd r) /\
  kept (fs chainWorld) configPath [] = [2; 2] /\
  ChainManager.LoadChain chainManager "zoo" (snd r)
  = (Ok (ChainConfig.mk "zoo" [9; 9]
           (kept (fs chainWorld) configPath [])
           (kept (fs chainWorld) upgradePath [7])), snd r).
Proof.
  intros cc r configPath upgradePath.
  assert (H : ChainManager.SaveChain chainManager cc chainWorld = (Ok tt, snd r))
    by (vm_compute; reflexivity).
  split; [reflexivity|]. split; [exact H|]. split; [vm_compute; reflexivity|].
  apply (SaveChain_LoadChain chainManager cc chainWorld (snd r));
    [reflexivity|discriminate| |exact H].
  intros p Hp. rewrite !elem_of_cons, elem_of_nil in Hp.
  destruct Hp as [->|[->|[->|[]]]]; split; vm_compute; (reflexivity || discriminate).
Defined.

(** X21. [DeleteChain] of a chain whose directory exists, on a system
    without faults: it returns nil, nothing is left at or below the chain
    directory, what is elsewhere is untouched, and [ChainExists] then
    returns false. *)
Theorem DeleteChain_removes (cm : ChainManager.t) (chainName : string) (w : World) :
  let chainDir := Paths.ChainDir (ChainManager.paths cm) chainName in
  faults w = [] ->
  fs w !! chainDir = Some Dir ->
  exists w',
    ChainManager.DeleteChain cm chainName w = (Ok tt, w') /\
    (forall q, chainDir `prefix_of` q -> fs w' !! q = None) /\
    (forall q, ¬ chainDir `prefix_of` q -> fs w' !! q = fs w !! q) /\
    fst (ChainManager.ChainExists cm chainName w') = Ok false.
Proof.
  intros chainDir Hw Hdir.
  set (w' := with_fs (filter (fun kv : path * node => ¬ chainDir `prefix_of` kv.1) (fs w)) w).
  assert (Hgone : forall q, chainDir `prefix_of` q -> fs w' !! q = None).
  { intros q Hq. cbn [w' fs with_fs]. apply map_lookup_filter_None. right.
    intros nd _ Hn. now apply Hn. }
  assert (Hrest : forall q, ¬ chainDir `prefix_of` q -> fs w' !! q = fs w !! q).
  { intros q Hq. cbn [w' fs with_fs].
    destruct (fs w !! q) as [nd|] eqn:E.
    - apply map_lookup_filter_Some. auto.
    - apply map_lookup_filter_None. left. exact E. }
  exists w'. split; [|split; [exact Hgone|split; [exact Hrest|]]].
  - unfold ChainManager.DeleteChain. fold chainDir.
    erewrite bind_step by (apply Exists_healthy, Hw).
    rewrite exists_at_plain by (unfold link_at; now rewrite Hdir). rewrite Hdir.
    cbn [negb]. unfold RemoveAll. rewrite syscall_healthy by exact Hw. reflexivity.
  - unfold ChainManager.ChainExists.
    rewrite Exists_healthy by exact Hw. cbn [fst].
    assert (Hg : fs w' !! Paths.ChainGenesis (ChainManager.paths cm) chainName = None).
    { apply Hgone. unfold Paths.ChainGenesis, Join. fold chainDir. now exists
        (filter (fun s : string => s ≠ ""%string) [Paths.GenesisFile]). }
    rewrite exists_at_plain by (apply link_at_absent, Hg). now rewrite Hg.
Qed.

Lemma DeleteChain_removes_witness :
  let chainDir := Paths.ChainDir (ChainManager.paths chainManager) "zoo" in
  faults chainWorld = [] /\
  fs chainWorld !! chainDir = Some Dir /\
  fst (ChainManager.ChainExists chainManager "zoo" chainWorld) = Ok true /\
  exists w',
    ChainManager.DeleteChain chainManager "zoo" chainWorld = (Ok tt, w') /\
    (forall q, chainDir `prefix_of` q -> fs w' !! q = None) /\
    (forall q, ¬ chainDir `prefix_of` q -> fs w' !! q = fs chainWorld !! q) /\
    fst (ChainManager.ChainExists chainManager "zoo" w') = Ok false.
Proof.
  intros chainDir.
  assert (H : fs chainWorld !! chainDir = Some Dir) by (vm_compute; reflexivity).
  split; [reflexivity|]. split; [exact H|]. split; [vm_compute; reflexivity|].
  exact (DeleteChain_removes chainManager "zoo" chainWorld eq_refl H).
Defined.

(** X22. [DeleteChain] takes any failure of [os.Stat] on the chain
    directory for "nothing to delete": it then returns nil and removes
    nothing. *)
Theorem DeleteChain_swallows (cm : ChainManager.t) (chainName : string) (w : World) e :
  fst (Stat (Paths.ChainDir (ChainManager.paths cm) chainName) w) = Err e ->
  exists w',
    ChainManager.DeleteChain cm chainName w = (Ok tt, w') /\ fs w' = fs w.
Proof.
  intros H. unfold ChainManager.DeleteChain, Paths.Exists.
  destruct (Stat _ w) as [r w1] eqn:Hst. cbn [fst] in H. subst r.
  pose proof (Stat_fs _ _ _ _ Hst) as Hfs.
  erewrite bind_step by (erewrite bind_step by (apply catch_stop, Hst); reflexivity).
  cbn [negb]. eauto.
Qed.

Lemma DeleteChain_swallows_witness :
  let chainDir := Paths.ChainDir (ChainManager.paths chainManager) "zoo" in
  fs chainWorldBroken !! chainDir = Some Dir /\
  fst (Stat chainDir chainWorldBroken) = Err EIO /\
  exists w',
    ChainManager.DeleteChain chainManager "zoo" chainWorldBroken = (Ok tt, w') /\
    fs w' = fs chainWorldBroken.
Proof.
  intros chainDir.
  assert (H : fst (Stat chainDir chainWorldBroken) = Err EIO) by (vm_compute; reflexivity).
  split; [vm_compute; reflexivity|]. split; [exact H|].
  exact (DeleteChain_swallows chainManager "zoo" chainWorldBroken EIO H).
Defined.

Lemma listChainEntries_spec cm entries acc w :
  faults w = [] ->
  exists out,
    ChainManager.listChainEntries cm entries acc w = (Ok out, w) /\
    forall name,
      name ∈ out <->
      name ∈ acc \/
      ((name, true) ∈ entries /\
       exists_at (fs w) (Paths.ChainGenesis (ChainManager.paths cm) name) = true).
Proof.
  intros Hw. revert acc. induction entries as [|[n b] rest IH]; intros acc.
  - exists acc. split; [reflexivity|]. intros name. rewrite elem_of_nil. tauto.
  - cbn [ChainManager.listChainEntries fst snd]. destruct b.
    + erewrite bind_step by (apply Exists_healthy, Hw).
      destruct (exists_at (fs w) (Paths.ChainGenesis (ChainManager.paths cm) n)) eqn:He.
      * destruct (IH (acc ++ [n])) as (out & Hout & Hiff). exists out.
        split; [exact Hout|]. intros name.
        rewrite Hiff, elem_of_app, list_elem_of_singleton, elem_of_cons. split.
        -- intros [[?| ->]|[? ?]]; auto.
        -- intros [?|[[Heq|?] ?]]; [auto|injection Heq as ->; auto|auto].
      * destruct (IH acc) as (out & Hout & Hiff). exists out.
        split; [exact Hout|]. intros name. rewrite Hiff, elem_of_cons. split.
        -- intros [?|[? ?]]; auto.
        -- intros [?|[[Heq|?] ?]]; [auto|injection Heq as ->; congruence|auto].
    + destruct (IH acc) as (out & Hout & Hiff). exists out.
      split; [exact Hout|]. intros name. rewrite Hiff, elem_of_cons. split.
      * intros [?|[? ?]]; auto.
      * intros [?|[[Heq|?] ?]]; [auto|discriminate|auto].
Qed.

(** X23. On a system without faults where the chains directory is a
    directory, [ListChains] returns nil error and exactly the names of the
    directories directly under it for which [os.Stat] finds a genesis
    file. *)
Theorem ListChains_lists (cm : ChainManager.t) (w : World) :
  let chainsDir := Paths.ChainsBaseDir (ChainManager.paths cm) in
  faults w = [] ->
  fs w !! chainsDir = Some Dir ->
  exists chains,
    ChainManager.ListChains cm w = (Ok chains, w) /\
    forall name,
      name ∈ chains <->
      fs w !! (chainsDir ++ [name]) = Some Dir /\
      exists_at (fs w) (Paths.ChainGenesis (ChainManager.paths cm) name) = true.
Proof.
  intros chainsDir Hw Hdir. unfold ChainManager.ListChains. fold chainsDir.
  erewrite bind_step by (apply catch_step, ReadDir_healthy; [exact Hw|exact Hdir]).
  destruct (listChainEntries_spec cm
              (foldr insert_sorted [] (flat_map (entry_of chainsDir) (map_to_list (fs w))))
              [] w Hw) as (out & Hout & Hiff).
  exists out. split; [exact Hout|]. intros name. rewrite Hiff, elem_of_nil, entries_elem.
  split.
  - intros [[]|[(nd & Hnd & Hb) He]]. split; [|exact He].
    destruct nd; try discriminate. exact Hnd.
  - intros [Hnd He]. right. split; [|exact He]. exists Dir. auto.
Qed.

Lemma ListChains_lists_witness :
  let chainsDir := Paths.ChainsBaseDir (ChainManager.paths chainManager) in
  faults chainWorld = [] /\
  fs chainWorld !! chainsDir = Some Dir /\
  ChainManager.ListChains chainManager chainWorld = (Ok ["zoo"%string], chainWorld) /\
  exists chains,
    ChainManager.ListChains chainManager chainWorld = (Ok chains, chainWorld) /\
    forall name,
      name ∈ chains <->
      fs chainWorld !! (chainsDir ++ [name]) = Some Dir /\
      exists_at (fs chainWorld) (Paths.ChainGenesis (ChainManager.paths chainManager) name)
      = true.
Proof.
  intros chainsDir.
  assert (H : fs chainWorld !! chainsDir = Some Dir) by (vm_compute; reflexivity).
  split; [reflexivity|]. split; [exact H|]. split; [vm_compute; reflexivity|].
  exact (ListChains_lists chainManager chainWorld eq_refl H).
Defined.

Lemma LoadChain_healthy (cm : ChainManager.t) (chainName : string) (w : World) genesis mode :
  let genesisPath := Paths.ChainGenesis (ChainManager.paths cm) chainName in
  let configPath := Paths.ChainConfig (ChainManager.paths cm) chainName in
  let upgradePath := Paths.ChainUpgrade (ChainManager.paths cm) chainName in
  faults w = [] ->
  fs w !! genesisPath = Some (File genesis mode) ->
  link_at (fs w) configPath = None -> fs w !! configPath ≠ Some Dir ->
  link_at (fs w) upgradePath = None -> fs w !! upgradePath ≠ Some Dir ->
  ChainManager.LoadChain cm chainName w
  = (Ok (ChainConfig.mk chainName genesis (content (fs w) configPath)
           (content (fs w) upgradePath)), w).
Proof.
  intros genesisPath configPath upgradePath Hw Hg Hcl Hcd Hul Hud.
  unfold ChainManager.LoadChain. fold genesisPath configPath upgradePath.
  erewrite bind_step by (eapply wrap_step, ReadFile_healthy; eassumption).
  rewrite read_optional by assumption.
  rewrite read_optional by assumption.
  reflexivity.
Qed.

Lemma write_optional_plain p data w w' :
  link_at (fs w) p = None ->
  fs w !! p ≠ Some Dir ->
  (if (0 <? length data)%nat then WriteFile p data perm644 else ret tt) w = (Ok tt, w') ->
  (faults w = [] -> faults w' = []) /\
  (forall x, x ≠ p -> fs w' !! x = fs w !! x) /\
  (forall x, link_at (fs w') x = link_at (fs w) x) /\
  content (fs w') p = kept (fs w) p data /\
  (fs w' !! p ≠ Some Dir).
Proof.
  intros Hl Hd H. apply (write_optional p data "" w w' Hl Hd).
  destruct (0 <? length data)%nat; [|exact H]. now apply wrap_step.
Qed.

(** X24. [CopyChainConfigsToNode] copies what [LoadChain] loaded: on a
    system without faults, after it returned nil the node's [config.json]
    and [upgrade.json] hold the bytes of the chain's files; where the chain
    has no such file, or an empty one, the node's file is not written and
    keeps what it held.  The chain's own files are not written, and the
    genesis, which must be readable, is not copied: apart from the
    directories made and the two files, the file system is as before. *)
Theorem CopyChainConfigsToNode_copies (cm : ChainManager.t) (chainName chainID : string)
    (nodeDir : path) (w w' : World) genesis mode :
  let genesisPath := Paths.ChainGenesis (ChainManager.paths cm) chainName in
  let configPath := Paths.ChainConfig (ChainManager.paths cm) chainName in
  let upgradePath := Paths.ChainUpgrade (ChainManager.paths cm) chainName in
  let nodeChainDir := Join nodeDir ["configs"; "chains"; chainID]%string in
  let configDest := Join nodeChainDir [Paths.ConfigFile] in
  let upgradeDest := Join nodeChainDir [Paths.UpgradeFile] in
  faults w = [] ->
  fs w !! genesisPath = Some (File genesis mode) ->
  (forall p, p ∈ [configPath; upgradePath; configDest; upgradeDest] ->
     link_at (fs w) p = None /\ fs w !! p ≠ Some Dir) ->
  ChainManager.CopyChainConfigsToNode cm chainName chainID nodeDir w = (Ok tt, w') ->
  content (fs w') configDest = kept (fs w) configDest (content (fs w) configPath) /\
  content (fs w') upgradeDest = kept (fs w) upgradeDest (content (fs w) upgradePath) /\
  forall x, x ∉ prefixes nodeChainDir -> x ≠ configDest -> x ≠ upgradeDest ->
            fs w' !! x = fs w !! x.
Proof.
  intros genesisPath configPath upgradePath nodeChainDir configDest upgradeDest
         Hw Hg Hplain H.
  destruct (Hplain configPath) as [Hcl Hcd]; [rewrite !elem_of_cons; auto|].
  destruct (Hplain upgradePath) as [Hul Hud]; [rewrite !elem_of_cons; auto|].
  destruct (Hplain configDest) as [Hdcl Hdcd]; [rewrite !elem_of_cons; auto|].
  destruct (Hplain upgradeDest) as [Hdul Hdud]; [rewrite !elem_of_cons; auto 6|].
  clear Hplain.
  unfold ChainManager.CopyChainConfigsToNode in H.
  erewrite bind_step in H by (eapply LoadChain_healthy; eassumption).
  fold genesisPath configPath upgradePath nodeChainDir configDest upgradeDest in H.
  cbn [ChainConfig.Config ChainConfig.Upgrade] in H.
  apply bind_ok in H as ([] & w1 & Hmk & H).
  pose proof (chain_file_fresh _ Paths.ConfigFile _ _ ltac:(discriminate) Hmk) as Hc1.
  pose proof (chain_file_fresh _ Paths.UpgradeFile _ _ ltac:(discriminate) Hmk) as Hu1.
  fold configDest in Hc1. fold upgradeDest in Hu1.
  assert (Hother : forall x, x ∉ prefixes nodeChainDir -> fs w1 !! x = fs w !! x).
  { intros x Hx. pose proof Hmk as Hmk'. apply syscall_result in Hmk' as [Hmk' _].
    pose proof (f_equal snd Hmk') as Hfs. cbn [snd] in Hfs. rewrite <- Hfs.
    now apply mkdirs_other. }
  apply MkdirAll_any in Hmk as (_ & Hl1 & _ & _ & Hh1).
  assert (Hne : configDest ≠ upgradeDest) by (apply chain_files_differ; discriminate).
  apply bind_ok in H as ([] & w2 & Hwc & H).
  apply write_optional_plain in Hwc as (Hh2 & Ho2 & Hl2 & Hk2 & Hd2);
    [|now rewrite Hl1|now rewrite Hc1].
  apply write_optional_plain in H as (Hh3 & Ho3 & Hl3 & Hk3 & Hd3);
    [|now rewrite Hl2, Hl1|rewrite Ho2, Hu1 by auto; exact Hdud].
  assert (Hcont : forall f g (p : path), f !! p = g !! p -> content f p = content g p).
  { intros f g p E. unfold content. now rewrite E. }
  assert (Hkept : forall f g (p : path) d, f !! p = g !! p -> kept f p d = kept g p d).
  { intros f g p d E. unfold kept. now rewrite (Hcont f g p E). }
  split; [|split].
  - rewrite (Hcont (fs w') (fs w2)) by (now rewrite Ho3). rewrite Hk2. now apply Hkept.
  - rewrite Hk3. apply Hkept. rewrite Ho2 by auto. exact Hu1.
  - intros x Hx Hxc Hxu. rewrite Ho3, Ho2 by auto. now apply Hother.
Qed.

Lemma CopyChainConfigsToNode_copies_witness :
  let nodeDir := ["node"%string] in
  let r := ChainManager.CopyChainConfigsToNode chainManager "zoo" "c1" nodeDir chainWorld in
  let genesisPath := Paths.ChainGenesis (ChainManager.paths chainManager) "zoo" in
  let configPath := Paths.ChainConfig (ChainManager.paths chainManager) "zoo" in
  let upgradePath := Paths.ChainUpgrade (ChainManager.paths chainManager) "zoo" in
  let nodeChainDir := Join nodeDir ["configs"; "chains"; "c1"]%string in
  let configDest := Join nodeChainDir [Paths.ConfigFile] in
  let upgradeDest := Join nodeChainDir [Paths.UpgradeFile] in
  faults chainWorld = [] /\
  fs chainWorld !! genesisPath = Some (File [1] perm644) /\
  r = (Ok tt, snd r) /\
  fs (snd r) !! configDest = Some (File [2; 2] perm644) /\
  content (fs (snd r)) configDest
  = kept (fs chainWorld) configDest (content (fs chainWorld) configPath) /\
  content (fs (snd r)) upgradeDest
  = kept (fs chainWorld) upgradeDest (content (fs chainWorld) upgradePath) /\
  forall x, x ∉ prefixes nodeChainDir -> x ≠ configDest -> x ≠ upgradeDest ->
            fs (snd r) !! x = fs chainWorld !! x.
Proof.
  intros nodeDir r genesisPath configPath upgradePath nodeChainDir configDest upgradeDest.
  assert (Hg : fs chainWorld !! genesisPath = Some (File [1] perm644))
    by (vm_compute; reflexivity).
  assert (H : ChainManager.CopyChainConfigsToNode chainManager "zoo" "c1" nodeDir chainWorld
              = (Ok tt, snd r)) by (vm_compute; reflexivity).
  split; [reflexivity|]. split; [exact Hg|]. split; [exact H|].
  split; [vm_compute; reflexivity|].
  apply (CopyChainConfigsToNode_copies chainManager "zoo" "c1" nodeDir chainWorld (snd r)
           [1] perm644); [reflexivity|exact Hg| |exact H].
  intros p Hp. rewrite !elem_of_cons, elem_of_nil in Hp.
  destruct Hp as [->|[->|[->|[->|[]]]]]; split; vm_compute; (reflexivity || discriminate).
Defined.

(** ** Listing the packages *)

Section PackageListSpec.
Context {J : JSON}.

Lemma GetManifest_resolved org name version pm w manifest :
  faults w = [] ->
  reported_at pm (fs w) org name version manifest ->
  GetManifest org name version (pm, w) = (Ok manifest, (pm, w)).
Proof.
  intros Hw (q & data & mode & Hres & Hq & Hparse). unfold GetManifest.
  rewrite bind_getBaseDir.
  erewrite bind_step by (apply wrap_step, os_step; eapply ReadFile_resolved; eassumption).
  now rewrite Hparse.
Qed.

Lemma listVersions_spec org name versions acc pm w :
  faults w = [] ->
  exists out,
    PackageList.listVersions org name versions acc (pm, w) = (Ok out, (pm, w)) /\
    forall m, m ∈ out <->
      m ∈ acc \/ exists version, version ∈ versions /\
                                 reported_at pm (fs w) org name version m.
Proof.
  intros Hw. revert acc. induction versions as [|v rest IH]; intros acc.
  - exists acc. split; [reflexivity|]. intros m. split; [auto|].
    intros [?|(v & Hv & _)]; [assumption|now apply elem_of_nil in Hv].
  - cbn [PackageList.listVersions].
    destruct (GetManifest org name v (pm, w)) as [r s1] eqn:Hg.
    destruct (GetManifest_frame _ _ _ _ _ _ _ Hg) as (w1 & -> & _ & Hsame & Hnp).
    rewrite (Hsame Hw) in Hg.
    destruct r as [m1|e|msg]; [| |now destruct (Hnp msg)].
    + erewrite bind_step by (apply catch_step, Hg).
      destruct (IH (acc ++ [m1])) as (out & Hout & Hiff). exists out.
      split; [exact Hout|]. intros m. rewrite Hiff, elem_of_app, list_elem_of_singleton.
      split.
      * intros [[?| ->]|(v' & Hv' & Hr)]; [auto| |].
        -- right. exists v. split; [apply list_elem_of_here|].
           eapply GetManifest_ok, Hg.
        -- right. exists v'. split; [now apply list_elem_of_further|exact Hr].
      * intros [?|(v' & Hv' & Hr)]; [auto|].
        apply elem_of_cons in Hv' as [->|Hv']; [|eauto].
        pose proof (GetManifest_resolved _ _ _ _ _ _ Hw Hr) as Hg'.
        rewrite Hg in Hg'. injection Hg' as ->. auto.
    + erewrite bind_step by (apply catch_stop, Hg).
      destruct (IH acc) as (out & Hout & Hiff). exists out.
      split; [exact Hout|]. intros m. rewrite Hiff. split.
      * intros [?|(v' & Hv' & Hr)]; [auto|].
        right. exists v'. split; [now apply list_elem_of_further|exact Hr].
      * intros [?|(v' & Hv' & Hr)]; [auto|].
        apply elem_of_cons in Hv' as [->|Hv']; [|eauto].
        pose proof (GetManifest_resolved _ _ _ _ _ _ Hw Hr) as Hg'.
        rewrite Hg in Hg'. discriminate.
Qed.

Lemma listPackages_spec packages acc pm w :
  faults w = [] ->
  exists out,
    PackageList.listPackages packages acc (pm, w) = (Ok out, (pm, w)) /\
    forall m, m ∈ out <-> m ∈ acc \/ listed pm (fs w) packages m.
Proof.
  intros Hw. revert acc. induction packages as [|[key versions] rest IH]; intros acc.
  - exists acc. split; [reflexivity|]. intros m. split; [auto|].
    intros [?|(k & vs & v & o & n & Hin & _)]; [assumption|now apply elem_of_nil in Hin].
  - cbn [PackageList.listPackages].
    assert (Hskip : (forall o n, SplitN2 key "/" ≠ [o; n]) ->
              exists out,
                PackageList.listPackages rest acc (pm, w) = (Ok out, (pm, w)) /\
                forall m, m ∈ out <-> m ∈ acc \/ listed pm (fs w) ((key, versions) :: rest) m).
    { intros Hno. destruct (IH acc) as (out & Hout & Hiff). exists out.
      split; [exact Hout|]. intros m. rewrite Hiff. split.
      - intros [?|(k & vs & v & o & n & Hin & Hrest)]; [auto|].
        right. exists k, vs, v, o, n. split; [now apply list_elem_of_further|exact Hrest].
      - intros [?|(k & vs & v & o & n & Hin & Hv & Hs & Hr)]; [auto|].
        apply elem_of_cons in Hin as [Heq|Hin].
        + injection Heq as -> ->. now destruct (Hno o n).
        + right. exists k, vs, v, o, n. auto. }
    destruct (SplitN2 key "/") as [|org [|name [|x l]]] eqn:Hsplit;
      try (apply Hskip; intros o n; discriminate).
    destruct (listVersions_spec org name versions acc pm w Hw) as (mid & Hmid & Hiff1).
    erewrite bind_step by exact Hmid.
    destruct (IH mid) as (out & Hout & Hiff). exists out.
    split; [exact Hout|]. intros m. rewrite Hiff, Hiff1. split.
    + intros [[?|(v & Hv & Hr)]|(k & vs & v & o & n & Hin & Hrest)]; [auto| |].
      * right. exists key, versions, v, org, name.
        split; [apply list_elem_of_here|auto].
      * right. exists k, vs, v, o, n. split; [now apply list_elem_of_further|exact Hrest].
    + intros [?|(k & vs & v & o & n & Hin & Hv & Hs & Hr)]; [auto|].
      apply elem_of_cons in Hin as [Heq|Hin].
      * injection Heq as -> ->. rewrite Hsplit in Hs. injection Hs as -> ->. eauto.
      * right. exists k, vs, v, o, n. auto.
Qed.

(** X25. [List] on a system without faults, in whatever order the map of
    version lists is ranged over: it returns without error, leaves the
    manager and the world as they are, and the manifests it returns are
    exactly those stored for a version in the version list of a package:
    a version whose manifest cannot be read or parsed is left out, and so
    is a package whose key holds no ['/']. *)
Theorem List_lists ctx (order : list (string * list string))
    (pm : PluginPackageManager.t) (w : World) :
  faults w = [] ->
  order ≡ₚ map_to_list (PluginRegistry.Plugins (PluginPackageManager.registry pm)) ->
  exists manifests,
    PackageList.List order ctx (pm, w) = (Ok manifests, (pm, w)) /\
    forall m,
      m ∈ manifests <->
      exists pkgKey versions version org name,
        PluginRegistry.Plugins (PluginPackageManager.registry pm) !! pkgKey = Some versions /\
        version ∈ versions /\
        SplitN2 pkgKey "/" = [org; name] /\
        reported_at pm (fs w) org name version m.
Proof.
  intros Hw Hperm. unfold PackageList.List.
  destruct (listPackages_spec order [] pm w Hw) as (out & Hout & Hiff).
  exists out. split; [exact Hout|]. intros m. rewrite Hiff, elem_of_nil. unfold listed.
  split.
  - intros [[]|(k & vs & v & o & n & Hin & Hrest)].
    rewrite Hperm in Hin. apply elem_of_map_to_list in Hin. eauto 10.
  - intros (k & vs & v & o & n & Hin & Hrest). right.
    exists k, vs, v, o, n. split; [|exact Hrest].
    rewrite Hperm. now apply elem_of_map_to_list.
Qed.

End PackageListSpec.

Lemma List_lists_witness :
  let pm := fst fixtureInstalled in
  let w := snd fixtureInstalled in
  let order := map_to_list (PluginRegistry.Plugins (PluginPackageManager.registry pm)) in
  faults w = [] /\
  @PackageList.List RefCodec.json order None (pm, w) = (Ok [fixtureStoredManifest], (pm, w)) /\
  exists manifests,
    @PackageList.List RefCodec.json order None (pm, w) = (Ok manifests, (pm, w)) /\
    forall m,
      m ∈ manifests <->
      exists pkgKey versions version org name,
        PluginRegistry.Plugins (PluginPackageManager.registry pm) !! pkgKey = Some versions /\
        version ∈ versions /\
        SplitN2 pkgKey "/" = [org; name] /\
        @reported_at RefCodec.json pm (fs w) org name version m.
Proof.
  intros pm w order.
  split; [reflexivity|]. split; [vm_compute; reflexivity|].
  exact (@List_lists RefCodec.json None order pm w eq_refl (reflexivity order)).
Defined.
